(** * hono-utils validator: the flat-key decoder and the issue sanitizer

    A shallow embedding of [src/validator/parser.ts]:

    - [Decoder.flattenToNestedObject] turns the entries of a flat object
      (keys in dot and bracket notation) into a nested value and then
      compacts the arrays of the result;
    - [Sanitizer.sanitizeIssues] removes the restricted fields from the
      issues a schema library reports;

    and of what surrounds it: the handler of [useValidator], which calls
    both ([Validator.handler]), the session object of [useSession]
    ([Session]) and the token of [useCsrf] ([Csrf]).

    JavaScript strings are sequences of code units; here they are Rocq
    strings, whose characters are the code units below 256.  Numbers are
    IEEE-754 doubles; [JSNumber] keeps a finite double as a sign, an integer
    significand and a binary exponent, and rounds decimal literals to the
    nearest double (ties to even) in integer arithmetic.  Objects carry plain
    data properties: getters, setters, proxies and frozen objects are outside
    the embedding. *)

From Stdlib Require Import ZArith Ascii String List Lia Bool DecimalString.
From Stdlib.Strings Require Byte.
From stdpp Require Import gmap strings list fin_maps.
Set Warnings "-register-all".

Open Scope string_scope.
Open Scope list_scope.
Open Scope Z_scope.

(** ** Outcomes

    A call returns, or throws.  [Escapes] is the third case: the run
    reaches a property that a built-in object defines ([toString],
    [__proto__], [length], ...) or prints a number above 2^53 as a property
    name; what the program does from there on is not embedded. *)

Inductive exn :=
| Error (message : string)
| TypeError.

Inductive outcome (A : Type) :=
| Returns (a : A)
| Throws (e : exn)
| Escapes.
Arguments Returns {A} a.
Arguments Throws {A} e.
Arguments Escapes {A}.

Definition bind {A B} (x : outcome A) (f : A -> outcome B) : outcome B :=
  match x with
  | Returns a => f a
  | Throws e => Throws e
  | Escapes => Escapes
  end.

Notation "x <- c1 ;; c2" := (bind c1 (fun x => c2))
  (at level 100, c1 at next level, right associativity).

(** ** Numbers and the [Number(string)] coercion *)

Module JSNumber.

Inductive number :=
| NaN
| Inf (neg : bool)
| Fin (neg : bool) (m e : Z).  (* (-1)^neg * m * 2^e *)

Global Instance number_eq_dec : EqDecision number.
Proof. solve_decision. Defined.

Definition two53 : Z := 2 ^ 53.

(* a / b rounded to the nearest integer, ties to the even one *)
Definition div_half_even (a b : Z) : Z :=
  let q := a / b in
  let r := a mod b in
  match 2 * r ?= b with
  | Lt => q
  | Gt => q + 1
  | Eq => if Z.even q then q else q + 1
  end.

(* The double nearest to p / q, for 0 <= p and 0 < q: a significand below
   2^53, exponents from -1074 (subnormals) to 971, infinity above. *)
Definition round_double (neg : bool) (p q : Z) : number :=
  if p =? 0 then Fin neg 0 0 else
  let l := Z.log2 p - Z.log2 q in
  let e1 :=
    if 2 ^ Z.max 0 l * q <=? 2 ^ Z.max 0 (- l) * p then l - 52 else l - 53 in
  let e := Z.max e1 (-1074) in
  let m := div_half_even (2 ^ Z.max 0 (- e) * p) (2 ^ Z.max 0 e * q) in
  let '(m, e) := if m =? two53 then (2 ^ 52, e + 1) else (m, e) in
  if 971 <? e then Inf neg else Fin neg m e.

(* Number.isInteger *)
Definition isInteger (x : number) : bool :=
  match x with
  | Fin _ m e => (0 <=? e) || (m mod 2 ^ (- e) =? 0)
  | _ => false
  end.

(* x >= 0; -0 >= 0 holds *)
Definition ge_zero (x : number) : bool :=
  match x with
  | NaN => false
  | Inf neg => negb neg
  | Fin neg m _ => negb neg || (m =? 0)
  end.

(* the magnitude of an integer-valued number *)
Definition magnitude (x : number) : Z :=
  match x with
  | Fin _ m e => if 0 <=? e then m * 2 ^ e else m / 2 ^ (- e)
  | _ => 0
  end.

(* ToBoolean on numbers: NaN, +0 and -0 are falsy *)
Definition truthy (x : number) : bool :=
  match x with
  | NaN => false
  | Inf _ => true
  | Fin _ m _ => negb (m =? 0)
  end.

(** *** StringToNumber *)

Definition code (c : ascii) : Z := Z.of_N (N_of_ascii c).

(* StrWhiteSpaceChar among the code units below 256:
   TAB, LF, VT, FF, CR, SP and NBSP *)
Definition is_space (c : ascii) : bool :=
  let n := code c in
  ((9 <=? n) && (n <=? 13)) || (n =? 32) || (n =? 160).

Definition digit_val (c : ascii) : option Z :=
  let n := code c in
  if (48 <=? n) && (n <=? 57) then Some (n - 48)
  else if (97 <=? n) && (n <=? 102) then Some (n - 87)
  else if (65 <=? n) && (n <=? 70) then Some (n - 55)
  else None.

Definition is_digit_in (base : Z) (c : ascii) : bool :=
  match digit_val c with
  | Some d => d <? base
  | None => false
  end.

Definition is_digit : ascii -> bool := is_digit_in 10.

Fixpoint drop_spaces (s : list ascii) : list ascii :=
  match s with
  | c :: s' => if is_space c then drop_spaces s' else s
  | [] => []
  end.

Definition trim (s : list ascii) : list ascii :=
  rev (drop_spaces (rev (drop_spaces s))).

(* the digits at the front of s, and what follows them *)
Fixpoint span_digits (s : list ascii) : list ascii * list ascii :=
  match s with
  | c :: s' =>
      if is_digit c
      then let '(ds, r) := span_digits s' in (c :: ds, r)
      else ([], s)
  | [] => ([], [])
  end.

Definition digits_value (base : Z) (ds : list ascii) : Z :=
  fold_left (fun acc c => acc * base + default 0 (digit_val c)) ds 0.

(* NonDecimalIntegerLiteral after its two-character prefix *)
Definition radix_literal (base : Z) (ds : list ascii) : number :=
  match ds with
  | [] => NaN
  | _ => if forallb (is_digit_in base) ds
         then round_double false (digits_value base ds) 1
         else NaN
  end.

(* ExponentPart, if any, and then the end of the literal *)
Definition exponent_part (s : list ascii) : option Z :=
  match s with
  | [] => Some 0
  | c :: s' =>
      if (code c =? 101) || (code c =? 69) then
        let '(neg, s'') :=
          match s' with
          | sg :: t =>
              if code sg =? 43 then (false, t)
              else if code sg =? 45 then (true, t)
              else (false, s')
          | [] => (false, s')
          end in
        match span_digits s'' with
        | (d :: ds, []) =>
            let x := digits_value 10 (d :: ds) in
            Some (if neg then - x else x)
        | _ => None
        end
      else None
  end.

(* StrUnsignedDecimalLiteral *)
Definition unsigned_decimal (neg : bool) (s : list ascii) : number :=
  if bool_decide (s = list_ascii_of_string "Infinity") then Inf neg else
  let '(ip, r) := span_digits s in
  let '(fp, r') :=
    match r with
    | c :: t => if code c =? 46 then span_digits t else ([], r)
    | [] => ([], r)
    end in
  match ip ++ fp with
  | [] => NaN
  | ds =>
      match exponent_part r' with
      | None => NaN
      | Some x =>
          let sc := x - Z.of_nat (length fp) in
          let mv := digits_value 10 ds in
          if 0 <=? sc then round_double neg (mv * 10 ^ sc) 1
          else round_double neg mv (10 ^ (- sc))
      end
  end.

Definition StringToNumber (str : string) : number :=
  match trim (list_ascii_of_string str) with
  | [] => Fin false 0 0
  | c :: s =>
      let radix :=
        if code c =? 48 then
          match s with
          | p :: ds =>
              if (code p =? 120) || (code p =? 88) then Some (16, ds)
              else if (code p =? 111) || (code p =? 79) then Some (8, ds)
              else if (code p =? 98) || (code p =? 66) then Some (2, ds)
              else None
          | [] => None
          end
        else None in
      match radix with
      | Some (base, ds) => radix_literal base ds
      | None =>
          if code c =? 43 then unsigned_decimal false s
          else if code c =? 45 then unsigned_decimal true s
          else unsigned_decimal false (c :: s)
      end
  end.

(** Number::toString for the integers below 2^53, the decimal digits.
    Above, the shortest round-trip digits are printed, which is not
    embedded: [None]. *)
Definition integer_toString (x : number) : option string :=
  let n := magnitude x in
  if n <? two53 then Some (NilZero.string_of_uint (N.to_uint (Z.to_N n))) else None.

End JSNumber.

(** ** The decoder: [flattenToNestedObject] *)

Module Decoder.
Import JSNumber.

(** *** Key normalisation and splitting (step 1 of the loop body) *)

(* key.replace(/\[(\d+)\]/g, ".$1"), read from left to right.  [pending]
   holds the digits seen since an opening bracket that may still start a
   match. *)
Fixpoint replace_digit_brackets
    (pending : option (list ascii)) (s : list ascii) : list ascii :=
  match s with
  | [] =>
      match pending with
      | Some ds => "["%char :: ds
      | None => []
      end
  | c :: s' =>
      match pending with
      | Some ds =>
          if is_digit c then replace_digit_brackets (Some (ds ++ [c])) s'
          else if bool_decide (c = "]"%char) && negb (bool_decide (ds = []))
          then "."%char :: ds ++ replace_digit_brackets None s'
          else if bool_decide (c = "["%char)
          then "["%char :: ds ++ replace_digit_brackets (Some []) s'
          else "["%char :: ds ++ c :: replace_digit_brackets None s'
      | None =>
          if bool_decide (c = "["%char)
          then replace_digit_brackets (Some []) s'
          else c :: replace_digit_brackets None s'
      end
  end.

(* .replace(/\[([^\]]+)\]/g, ".$1"): an opening bracket, one or more
   characters other than the closing bracket, the closing bracket. *)
Fixpoint replace_name_brackets
    (pending : option (list ascii)) (s : list ascii) : list ascii :=
  match s with
  | [] =>
      match pending with
      | Some cs => "["%char :: cs
      | None => []
      end
  | c :: s' =>
      match pending with
      | Some cs =>
          if bool_decide (c = "]"%char) then
            match cs with
            | [] => "["%char :: "]"%char :: replace_name_brackets None s'
            | _ => "."%char :: cs ++ replace_name_brackets None s'
            end
          else replace_name_brackets (Some (cs ++ [c])) s'
      | None =>
          if bool_decide (c = "["%char)
          then replace_name_brackets (Some []) s'
          else c :: replace_name_brackets None s'
      end
  end.

(* .split("."): [piece] is the piece being read *)
Fixpoint split_dots (piece : list ascii) (s : list ascii) : list (list ascii) :=
  match s with
  | [] => [piece]
  | c :: s' =>
      if bool_decide (c = "."%char)
      then piece :: split_dots [] s'
      else split_dots (piece ++ [c]) s'
  end.

Definition tokenize (key : string) : list string :=
  let normal :=
    replace_name_brackets None
      (replace_digit_brackets None (list_ascii_of_string key)) in
  string_of_list_ascii <$>
    filter (fun k => (0 < length k)%nat) (split_dots [] normal).

(** *** Strict indices (lines 34-43) *)

Definition Number : string -> number := StringToNumber.

(* Number.isInteger(kAsNumber) && kAsNumber >= 0 *)
Definition isStrictIndex (k : string) : bool :=
  isInteger (Number k) && ge_zero (Number k).

Inductive kind := KArray | KObject.

Global Instance kind_eq_dec : EqDecision kind.
Proof. solve_decision. Defined.

Definition kind_name (t : kind) : string :=
  match t with KArray => "array" | KObject => "object" end.

(* nextKey && Number.isInteger(Number(nextKey)) && Number(nextKey) >= 0;
   nextKey is undefined past the last segment and never empty before *)
Definition nextIsStrictIndex (nextKey : option string) : bool :=
  match nextKey with
  | Some k => isStrictIndex k
  | None => false
  end.

Definition expectedType (nextKey : option string) : kind :=
  if nextIsStrictIndex nextKey then KArray else KObject.

(** *** Values

    The values of the flat object and the tree under construction.  An object
    is the finite map of its own properties (the order of insertion is not
    kept).  An array is the list of its elements, [None] for a hole, and
    the map of its other own properties; [length] is the length of the
    list.  The tree the decoder builds shares no node, so that updating in
    place through [current] is rebuilding the node on the way back. *)

Inductive value :=
| VUndefined
| VNull
| VBool (b : bool)
| VNumber (x : number)
| VString (s : string)
| VObject (props : gmap string value)
| VArray (elems : list (option value)) (named : gmap string value).

Global Instance undefined_dec (v : value) : Decision (v = VUndefined).
Proof. destruct v; (left; reflexivity) || (right; discriminate). Defined.

Definition isArray (v : value) : bool :=
  match v with VArray _ _ => true | _ => false end.

Definition isContainer (v : value) : bool :=
  match v with VArray _ _ | VObject _ => true | _ => false end.

(* ToBoolean *)
Definition truthy (v : value) : bool :=
  match v with
  | VUndefined | VNull => false
  | VBool b => b
  | VNumber x => JSNumber.truthy x
  | VString s => negb (bool_decide (s = ""))
  | VObject _ | VArray _ _ => true
  end.

(** An array index is a property name that is the decimal form of an
    integer below 2^32 - 1. *)
Definition array_index (p : string) : option nat :=
  let x := Number p in
  if isInteger x && ge_zero x && (magnitude x <? 2 ^ 32 - 1)
     && bool_decide (integer_toString x = Some p)
  then Some (Z.to_nat (magnitude x)) else None.

(* a[n] = v on the element list: the list grows, with holes, up to n *)
Definition set_index (n : nat) (v : value) (elems : list (option value))
  : list (option value) :=
  if decide (n < length elems)%nat then <[n := Some v]> elems
  else elems ++ replicate (n - length elems) None ++ [Some v].

(* own property lookup: [None] when the object has no such property *)
Definition get_own (o : value) (p : string) : option value :=
  match o with
  | VObject props => props !! p
  | VArray elems named =>
      match array_index p with
      | Some n => mjoin (elems !! n)
      | None => named !! p
      end
  | _ => None
  end.

(* o[p] = v, for a property name the built-in objects give no meaning to *)
Definition set_own (o : value) (p : string) (v : value) : value :=
  match o with
  | VObject props => VObject (<[p := v]> props)
  | VArray elems named =>
      match array_index p with
      | Some n => VArray (set_index n v elems) named
      | None => VArray elems (<[p := v]> named)
      end
  | _ => o
  end.

(** The names that [{}] and [[]] inherit or own without their being
    assigned: the members of Object.prototype, and for arrays [length] and
    the members of Array.prototype (ECMAScript 2023). *)
Definition Object_prototype_names : list string :=
  [ "constructor"; "__defineGetter__"; "__defineSetter__"; "hasOwnProperty";
    "__lookupGetter__"; "__lookupSetter__"; "isPrototypeOf";
    "propertyIsEnumerable"; "toString"; "valueOf"; "__proto__";
    "toLocaleString" ].

Definition Array_prototype_names : list string :=
  [ "length"; "at"; "concat"; "copyWithin"; "entries"; "every"; "fill";
    "filter"; "find"; "findIndex"; "findLast"; "findLastIndex"; "flat";
    "flatMap"; "forEach"; "includes"; "indexOf"; "join"; "keys";
    "lastIndexOf"; "map"; "pop"; "push"; "reduce"; "reduceRight"; "reverse";
    "shift"; "slice"; "some"; "sort"; "splice"; "toReversed"; "toSorted";
    "toSpliced"; "unshift"; "values"; "with" ].

Definition builtin_name (o : value) (p : string) : bool :=
  bool_decide (p ∈ Object_prototype_names)
  || (isArray o && bool_decide (p ∈ Array_prototype_names)).

(* the message of the error thrown at lines 51-53 *)
Definition conflict_message
    (k : string) (existingType : kind) (nextKey : string)
    (expected : kind) (key : string) : string :=
  "Key conflict: '" +:+ k +:+ "' is already defined as an "
    +:+ kind_name existingType +:+ ", but next key '" +:+ nextKey
    +:+ "' expects an " +:+ kind_name expected +:+ ". Full key: " +:+ key.

Definition empty_of (t : kind) : value :=
  match t with KArray => VArray [] ∅ | KObject => VObject ∅ end.

(** *** The traversal (lines 31-86)

    [assign key value keys current] runs the inner loop from segment
    [k :: rest] on, with [current] the node reached so far, and returns that
    node as the loop leaves it. *)
Fixpoint assign (key : string) (value0 : value) (keys : list string)
    (current : value) : outcome value :=
  match keys with
  | [] => Returns current
  | k :: rest =>
      let isLast := bool_decide (rest = []) in
      let nextKey := head rest in
      let expected := expectedType nextKey in
      (* k in current *)
      if negb (isContainer current) then Throws TypeError
      else if negb (bool_decide (is_Some (get_own current k)))
              && builtin_name current k then Escapes
      else
      let existing := get_own current k in
      (* 3. structure conflict check *)
      let conflict :=
        match existing with
        | Some v =>
            let existingType := if isArray v then KArray else KObject in
            if negb isLast && negb (bool_decide (existingType = expected))
            then Some (conflict_message k existingType (default "" nextKey)
                         expected key)
            else None
        | None => None
        end in
      match conflict with
      | Some message => Throws (Error message)
      | None =>
          (* the property name that current[kAsNumber] reads and writes *)
          let by_number :=
            if isStrictIndex k && isArray current
            then Some (integer_toString (Number k)) else None in
          if isLast then
            match by_number with
            | Some None => Escapes
            | Some (Some p) => Returns (set_own current p value0)
            | None => Returns (set_own current k value0)
            end
          else
            let current1 :=
              match existing with
              | Some _ => current
              | None => set_own current k (empty_of expected)
              end in
            match by_number with
            | Some None => Escapes
            | Some (Some p) =>
                let current2 :=
                  if truthy (default VUndefined (get_own current1 p))
                  then current1
                  else set_own current1 p
                         (if nextIsStrictIndex nextKey
                          then VArray [] ∅ else VObject ∅) in
                child <- assign key value0 rest
                           (default VUndefined (get_own current2 p)) ;;
                Returns (set_own current2 p child)
            | None =>
                child <- assign key value0 rest
                           (default VUndefined (get_own current1 k)) ;;
                Returns (set_own current1 k child)
            end
      end
  end.

(* the loop over Object.entries(flatObject), lines 19-87 *)
Fixpoint build (entries : list (string * value)) (data : value)
  : outcome value :=
  match entries with
  | [] => Returns data
  | (key, value0) :: entries' =>
      data' <- assign key value0 (tokenize key) data ;;
      build entries' data'
  end.

(** *** Array compaction (lines 91-105) *)

(* obj.map(f).filter(val => val !== undefined): map leaves the holes,
   filter visits the elements that are present *)
Fixpoint compactArrays (obj : value) : value :=
  match obj with
  | VArray elems _ =>
      let mapped :=
        (fun e => match e with
                  | Some v => Some (compactArrays v)
                  | None => None
                  end) <$> elems in
      let kept :=
        filter (fun val => val ≠ VUndefined) (omap id mapped) in
      VArray (Some <$> kept) ∅
  | VObject props => VObject (compactArrays <$> props)
  | _ => obj
  end.

(** [flatObject] is the list Object.entries(flatObject) enumerates, in its
    order; the keys of an object are pairwise distinct. *)
Definition flattenToNestedObject (flatObject : list (string * value))
  : outcome value :=
  data <- build flatObject (VObject ∅) ;;
  Returns (compactArrays data).

End Decoder.

(** ** The sanitizer: [sanitizeIssues]

    The sanitizer is about object identity: one vendor gets fresh copies,
    the other is edited in place.  Its objects therefore live in a heap, and
    a value refers to an object by its location. *)

Module Sanitizer.
Import JSNumber.

Definition loc := positive.

Inductive val :=
| Undefined
| Null
| Bool (b : bool)
| Num (x : number)
| Str (s : string)
| Sym (id : nat)
| Ref (l : loc).

Global Instance val_eq_dec : EqDecision val.
Proof. solve_decision. Defined.

(** A prototype is a value of its own: an identity, the data properties it
    contributes to a lookup, and its parent.  The sanitizer creates no
    prototype and assigns to none. *)
Inductive prototype :=
| ProtoNull
| Proto (id : nat) (members : gmap string val) (parent : prototype).

(** [Object.prototype]; none of [data], [path], [input] is a member. *)
Definition Object_prototype : prototype := Proto 0 ∅ ProtoNull.

(** An ordinary object with its own enumerable properties, or an array with
    its elements ([None] is a hole). *)
Inductive object :=
| Obj (proto : prototype) (callable : bool) (props : gmap string val)
| Arr (elems : list (option val)).

Abbreviation heap := (gmap loc object).

(* the state of the heap, and how the call ended *)
Definition M (A : Type) : Type := heap -> outcome A * heap.

Definition ret {A} (a : A) : M A := fun h => (Returns a, h).

Definition throw {A} (e : exn) : M A := fun h => (Throws e, h).

Definition mbind {A B} (c : M A) (f : A -> M B) : M B :=
  fun h =>
    match c h with
    | (Returns a, h') => f a h'
    | (Throws e, h') => (Throws e, h')
    | (Escapes, h') => (Escapes, h')
    end.

Notation "'do' x <- c1 ; c2" := (mbind c1 (fun x => c2))
  (at level 100, x name, c1 at next level, right associativity).

(* for (const x of xs) body(x) *)
Fixpoint for_of {A} (xs : list A) (body : A -> M unit) : M unit :=
  match xs with
  | [] => ret tt
  | x :: xs' => do _ <- body x ; for_of xs' body
  end.

(* xs.map(f) on the elements of an array: holes stay holes *)
Fixpoint map_elems (f : val -> M val) (xs : list (option val))
  : M (list (option val)) :=
  match xs with
  | [] => ret []
  | None :: xs' => do ys <- map_elems f xs' ; ret (None :: ys)
  | Some x :: xs' =>
      do y <- f x ; do ys <- map_elems f xs' ; ret (Some y :: ys)
  end.

Definition alloc (o : object) : M val :=
  fun h => let l := fresh (dom h) in (Returns (Ref l), <[l := o]> h).

(* ToBoolean *)
Definition truthy (v : val) : bool :=
  match v with
  | Undefined | Null => false
  | Bool b => b
  | Num x => JSNumber.truthy x
  | Str s => negb (bool_decide (s = ""))
  | Sym _ | Ref _ => true
  end.

(* typeof v === "object" *)
Definition typeof_object (h : heap) (v : val) : bool :=
  match v with
  | Null => true
  | Ref l =>
      match h !! l with
      | Some (Obj _ callable _) => negb callable
      | Some (Arr _) => true
      | None => false
      end
  | _ => false
  end.

Definition isArray (h : heap) (v : val) : bool :=
  match v with
  | Ref l => match h !! l with Some (Arr _) => true | _ => false end
  | _ => false
  end.

(* what iterating over the array v yields: undefined at a hole *)
Definition elements (h : heap) (v : val) : list val :=
  match v with
  | Ref l =>
      match h !! l with
      | Some (Arr elems) => default Undefined <$> elems
      | _ => []
      end
  | _ => []
  end.

Fixpoint proto_get (pr : prototype) (p : string) : option val :=
  match pr with
  | ProtoNull => None
  | Proto _ members parent =>
      match members !! p with
      | Some v => Some v
      | None => proto_get parent p
      end
  end.

(* the property p of the object at l, own or inherited *)
Definition get_property (h : heap) (l : loc) (p : string) : option val :=
  match h !! l with
  | Some (Obj proto _ props) =>
      match props !! p with
      | Some v => Some v
      | None => proto_get proto p
      end
  | _ => None
  end.

(* p in v: a TypeError when v is not an object *)
Definition has_property (p : string) (v : val) : M bool :=
  fun h =>
    match v with
    | Ref l => (Returns (bool_decide (is_Some (get_property h l p))), h)
    | _ => (Throws TypeError, h)
    end.

(* v.p *)
Definition read (h : heap) (v : val) (p : string) : val :=
  match v with
  | Ref l => default Undefined (get_property h l p)
  | _ => Undefined
  end.

(* typeof v === "object" && v !== null && !Array.isArray(v) *)
Definition is_record (h : heap) (v : val) : bool :=
  typeof_object h v && negb (bool_decide (v = Null)) && negb (isArray h v).

(* the own enumerable properties of v, as the spread {...v} and
   Object.assign read them *)
Definition own_props (h : heap) (v : val) : gmap string val :=
  match v with
  | Ref l => match h !! l with Some (Obj _ _ props) => props | _ => ∅ end
  | _ => ∅
  end.

Definition getPrototypeOf (h : heap) (v : val) : prototype :=
  match v with
  | Ref l =>
      match h !! l with Some (Obj proto _ _) => proto | _ => ProtoNull end
  | _ => ProtoNull
  end.

(* delete v[field]: a TypeError on undefined and null *)
Definition delete_field (v : val) (field : string) : M unit :=
  fun h =>
    match v with
    | Ref l =>
        match h !! l with
        | Some (Obj proto callable props) =>
            (Returns tt, <[l := Obj proto callable (delete field props)]> h)
        | _ => (Returns tt, h)
        end
    | Undefined | Null => (Throws TypeError, h)
    | _ => (Returns tt, h)
    end.

Definition delete_all (fields : list string) (props : gmap string val)
  : gmap string val :=
  foldl (fun m field => delete field m) props fields.

(** *** The configuration (lines 118-120) *)

(* keyof ValidationTargets *)
Inductive target := json | form | query | param | header | cookie.

Global Instance target_eq_dec : EqDecision target.
Proof. solve_decision. Defined.

Definition RESTRICTED_DATA_FIELDS : list (target * list string) :=
  [ (header, ["cookie"]) ].

(* RESTRICTED_DATA_FIELDS[t], when t in RESTRICTED_DATA_FIELDS *)
Definition restricted (t : target) : option (list string) :=
  snd <$> List.find (fun e => bool_decide (fst e = t)) RESTRICTED_DATA_FIELDS.

(** *** sanitizeArktypeIssues (lines 164-188) *)

Definition sanitizeArktypeIssue (restrictedFields : list string) (issue : val)
  : M val :=
  fun h =>
    if truthy issue && typeof_object h issue then
      (do has_data <- has_property "data" issue ;
       fun h =>
         if has_data && is_record h (read h issue "data") then
           (* const dataCopy = { ...issue.data }, less the restricted fields *)
           (do dataCopy <-
              alloc (Obj Object_prototype false
                       (delete_all restrictedFields
                          (own_props h (read h issue "data")))) ;
            (* Object.create(Object.getPrototypeOf(issue)), then
               Object.assign(sanitizedIssue, issue, { data: dataCopy }) *)
            alloc (Obj (getPrototypeOf h issue) false
                     (<["data" := dataCopy]> (own_props h issue)))) h
         else (Returns issue, h)) h
    else (Returns issue, h).

(* issues.map(f): a TypeError when issues is not an array *)
Definition array_map (f : val -> M val) (issues : val) : M val :=
  fun h =>
    match issues with
    | Ref l =>
        match h !! l with
        | Some (Arr elems) =>
            (do elems' <- map_elems f elems ; alloc (Arr elems')) h
        | _ => (Throws TypeError, h)
        end
    | _ => (Throws TypeError, h)
    end.

Definition sanitizeArktypeIssues (issues : val) (restrictedFields : list string)
  : M val :=
  array_map (sanitizeArktypeIssue restrictedFields) issues.

(** *** sanitizeValibotIssues (lines 190-212) *)

Definition sanitizeValibotPath (restrictedFields : list string) (path : val)
  : M unit :=
  fun h =>
    if typeof_object h path then
      (do has_input <- has_property "input" path ;
       fun h =>
         if has_input && is_record h (read h path "input")
         then for_of restrictedFields
                (fun field h => delete_field (read h path "input") field h) h
         else (Returns tt, h)) h
    else (Returns tt, h).

Definition sanitizeValibotIssue (restrictedFields : list string) (issue : val)
  : M val :=
  fun h =>
    if truthy issue && typeof_object h issue then
      (do has_path <- has_property "path" issue ;
       fun h =>
         if has_path && isArray h (read h issue "path") then
           (do _ <- for_of (elements h (read h issue "path"))
                      (sanitizeValibotPath restrictedFields) ;
            ret issue) h
         else (Returns issue, h)) h
    else (Returns issue, h).

Definition sanitizeValibotIssues (issues : val) (restrictedFields : list string)
  : M val :=
  array_map (sanitizeValibotIssue restrictedFields) issues.

(** *** sanitizeIssues (lines 141-162) *)

Definition sanitizeIssues (issues : val) (vendor : string) (t : target)
  : M val :=
  match restricted t with
  | None => ret issues
  | Some restrictedFields =>
      if bool_decide (vendor = "arktype")
      then sanitizeArktypeIssues issues restrictedFields
      else if bool_decide (vendor = "valibot")
      then sanitizeValibotIssues issues restrictedFields
      else ret issues
  end.

End Sanitizer.


(** ** The session object: [flash] and the methods of [useSession]

    The session middleware keeps the data of the session in [store], a
    Map from strings to values, and hands out the session object, whose
    methods close over [store].  A method is a
    function from the store before the call to the value returned and the
    store after it.  None of the methods depends on the order in which a
    Map keeps its entries; the store is the finite map of its entries. *)

Module Session.
Import Sanitizer.

(* `__flash_${key}__` *)
Definition flash (key : string) : string := "__flash_" +:+ key +:+ "__".

Abbreviation store := (gmap string val).

(* has: store.has(key) || store.has(flash(key)) *)
Definition has (key : string) (s : store) : bool :=
  bool_decide (is_Some (s !! key)) || bool_decide (is_Some (s !! flash key)).

(* get: the value under key; failing that, the value under flash(key),
   which is deleted; failing that, undefined *)
Definition get (key : string) (s : store) : val * store :=
  match s !! key with
  | Some value => (value, s)
  | None =>
      match s !! flash key with
      | Some value => (value, delete (flash key) s)
      | None => (Undefined, s)
      end
  end.

(* set: store.set(key, value) *)
Definition set (key : string) (value : val) (s : store) : store :=
  <[key := value]> s.

(* flash: store.set(flash(key), value); named set_flash here, beside the
   function flash of the module *)
Definition set_flash (key : string) (value : val) (s : store) : store :=
  <[flash key := value]> s.

(* unset: store.delete(key) *)
Definition unset (key : string) (s : store) : store := delete key s.

End Session.

(** ** The CSRF token: how [useCsrf] makes it

    For the methods GET, HEAD and OPTIONS the middleware draws 64 random
    bytes and turns each into a character of [chars]:
    [Array.from(bytes).map((b) => chars.charAt(b % chars.length)).join("")].
    The bytes are the input here. *)

Module Csrf.

Definition chars : string :=
  "ABCDEFGHIJKLMNOPQRSTUVWXYZabcdefghijklmnopqrstuvwxyz0123456789".

(* s.charAt(pos): the character at pos, the empty string past the end *)
Definition charAt (s : string) (pos : nat) : string :=
  match String.get pos s with
  | Some c => String c ""
  | None => ""
  end.

(* (b) => chars.charAt(b % chars.length) *)
Definition token_char (b : Byte.byte) : string :=
  charAt chars (Byte.to_nat b mod String.length chars).

(* .map(...).join("") *)
Definition token (bytes : list Byte.byte) : string :=
  foldr String.append "" (token_char <$> bytes).

(* the 256 values of a byte *)
Definition all_bytes : list Byte.byte := omap Byte.of_nat (seq 0 256).

(* the number of byte values that give the character c *)
Definition byte_values_for (c : ascii) : nat :=
  length (filter (fun b => token_char b = String c "") all_bytes).

End Csrf.

(** ** The validator middleware: the handler of [useValidator]

    [useValidator(target, schema, hook)] hands to Hono's [validator] the
    function embedded here as [handler].  The schema's [validate], the
    hook and [c.json] belong to the caller: [validate] and the hook are
    parameters, and a call of [c.json] is recorded in the reply.

    The payload is an object of the heap, as the issues are: the handler
    passes one reference to [validate], to the hook and to [c.json], so
    that an issue may hold the payload, as the [input] of a path entry,
    and what [sanitizeIssues] deletes there is deleted from the [data] of
    the body.  [reify] makes the objects of the tree that the decoder
    returns.  An [await] is the sequencing of the monad: what other code
    does to the heap in between is not embedded. *)

Module Validator.
Import Sanitizer.

(* Response.prototype *)
Definition Response_prototype : prototype := Proto 2 ∅ Object_prototype.

Definition prototype_id (pr : prototype) : option nat :=
  match pr with
  | ProtoNull => None
  | Proto id _ _ => Some id
  end.

Fixpoint in_chain (pr : prototype) (id : nat) : bool :=
  match pr with
  | ProtoNull => false
  | Proto id' _ parent => bool_decide (id' = id) || in_chain parent id
  end.

(* v instanceof C, for a constructor whose prototype property is pr *)
Definition instanceof (h : heap) (v : val) (pr : prototype) : bool :=
  match v, prototype_id pr with
  | Ref l, Some id =>
      match h !! l with
      | Some (Obj proto _ _) => in_chain proto id
      | _ => false
      end
  | _, _ => false
  end.

(* the tree that the decoder has built, as objects of the heap: an object
   for every object and every array of the tree *)
Fixpoint reify (v : Decoder.value) : M val :=
  match v with
  | Decoder.VUndefined => ret Undefined
  | Decoder.VNull => ret Null
  | Decoder.VBool b => ret (Bool b)
  | Decoder.VNumber x => ret (Num x)
  | Decoder.VString s => ret (Str s)
  | Decoder.VObject props =>
      do props' <-
        map_fold (fun k c (acc : M (gmap string val)) =>
                    do m <- acc ; do r <- reify c ; ret (<[k := r]> m))
          (ret ∅) props ;
      alloc (Obj Object_prototype false props')
  | Decoder.VArray elems _ =>
      do elems' <-
        (fix each (es : list (option Decoder.value)) : M (list (option val)) :=
           match es with
           | [] => ret []
           | None :: es' => do r <- each es' ; ret (None :: r)
           | Some c :: es' =>
               do x <- reify c ; do r <- each es' ; ret (Some x :: r)
           end) elems ;
      alloc (Arr elems')
  end.

Section handler.
(* the output of the schema *)
Variable Out : Type.

(* what schema["~standard"].validate(payload) resolves to: result.issues
   is undefined when the value is valid *)
Record result := { issues : val; value : Out }.

(* the first argument of the hook *)
Record hook_argument := {
  data : val;
  error : option val;
  success : bool;
  target_of : target
}.

(* what the handler returns to Hono's validator *)
Inductive reply :=
| Response (response : val)
| Json (body_data : val) (body_error : val) (body_success : bool)
       (status : Z)
| Validated (output : Out).

Variable t : target.
Variable vendor : string.
Variable validate : val -> M result.
Variable hook : option (hook_argument -> M val).

(* lines 456-470: the response the hook asks for, if any *)
Definition run_hook (payload : val) (r : result) : M (option val) :=
  match hook with
  | Some hook =>
      do hookResult <-
        hook (if truthy (issues r)
              then {| data := payload; error := Some (issues r);
                      success := false; target_of := t |}
              else {| data := payload; error := None;
                      success := true; target_of := t |}) ;
      if truthy hookResult then
        fun h =>
          if instanceof h hookResult Response_prototype
          then (Returns (Some hookResult), h)
          else (do has_response <- has_property "response" hookResult ;
                fun h =>
                  if has_response
                  then (Returns (Some (read h hookResult "response")), h)
                  else (Returns None, h)) h
      else ret None
  | None => ret None
  end.

(* async (value, c) => { ... }, lines 449-478 *)
Definition handler (flatObject : list (string * Decoder.value)) : M reply :=
  fun h =>
    match Decoder.flattenToNestedObject flatObject with
    | Returns tree =>
        (do payload <- reify tree ;
         do r <- validate payload ;
         do response <- run_hook payload r ;
         match response with
         | Some response => ret (Response response)
         | None =>
             if truthy (issues r) then
               do processedIssues <- sanitizeIssues (issues r) vendor t ;
               ret (Json payload processedIssues false 400)
             else ret (Validated (value r))
         end) h
    | Throws e => (Throws e, h)
    | Escapes => (Escapes, h)
    end.

End handler.

(* a schema in the manner of valibot: it rejects every payload with one
   issue, whose path has one entry, with the payload as its input *)
Definition rejecting_schema (payload : val) : M (result unit) :=
  do entry <- alloc (Obj Object_prototype false {[ "input" := payload ]}) ;
  do path <- alloc (Arr [Some entry]) ;
  do issue <- alloc (Obj Object_prototype false
                       {[ "message" := Str "Invalid header";
                          "path" := path ]}) ;
  do issues <- alloc (Arr [Some issue]) ;
  ret {| issues := issues; value := tt |}.

Arguments issues {Out} _.
Arguments value {Out} _.
Arguments Response {Out} _.
Arguments Json {Out} _ _ _ _.
Arguments Validated {Out} _.

(* the heap after the handler has made the payload of
   { cookie: "secret", authorization: "token" }, and after that schema has
   rejected it *)
Definition payload_heap : heap :=
  <[ 1%positive := Obj Object_prototype false
                     (<[ "cookie" := Str "secret" ]>
                      (<[ "authorization" := Str "token" ]> ∅)) ]> ∅.

Definition rejected_heap : heap :=
  <[ 5%positive := Arr [Some (Ref 4%positive)] ]>
  (<[ 4%positive := Obj Object_prototype false
                      (<[ "message" := Str "Invalid header" ]>
                       (<[ "path" := Ref 3%positive ]> ∅)) ]>
  (<[ 3%positive := Arr [Some (Ref 2%positive)] ]>
  (<[ 2%positive := Obj Object_prototype false
                      (<[ "input" := Ref 1%positive ]> ∅) ]>
   payload_heap))).

End Validator.
(** * The claims in the specification's words

    Definitions that follow the specification, to be compared with the
    ones above, which follow the source. *)

Module Spec.
Import JSNumber Decoder.


(** "removing only positions that were never assigned (true holes)" *)
Definition remove_holes (elems : list (option value)) : list value :=
  omap id elems.

(** "two path-strings requiring incompatible structural kinds (Mapping vs
    Sequence) at the same tree position": the two lists of segments have a
    common prefix, not empty since the root is always a Mapping, after which
    one goes on with a strict index and the other with a name. *)
Fixpoint conflicting (s1 s2 : list string) : bool :=
  match s1, s2 with
  | k1 :: r1, k2 :: r2 =>
      bool_decide (k1 = k2)
      && (match r1, r2 with
          | n1 :: _, n2 :: _ =>
              negb (bool_decide (isStrictIndex n1 = isStrictIndex n2))
          | _, _ => false
          end
          || conflicting r1 r2)
  | _, _ => false
  end.

(** "no entry's path is a prefix of another's": the paths that end at, or
    run through, the position where another path ends *)
Fixpoint is_prefix (s1 s2 : list string) : bool :=
  match s1, s2 with
  | [], _ => true
  | k1 :: r1, k2 :: r2 => bool_decide (k1 = k2) && is_prefix r1 r2
  | _ :: _, [] => false
  end.

(* R holds between every two elements at different positions of l,
   the earlier one on the left *)
Fixpoint pairwise {A : Type} (R : A -> A -> Prop) (l : list A) : Prop :=
  match l with
  | [] => True
  | x :: l' => Forall (R x) l' /\ pairwise R l'
  end.

(* R holds between two elements of l, the earlier one on the left *)
Fixpoint some_pair {A : Type} (R : A -> A -> Prop) (l : list A) : Prop :=
  match l with
  | [] => False
  | x :: l' => Exists (R x) l' \/ some_pair R l'
  end.

(** "two paths in the flat map require incompatible structural kinds at
    the same non-terminal tree position" *)
Definition has_conflict (flatObject : list (string * value)) : Prop :=
  some_pair (fun e1 e2 => conflicting (tokenize e1.1) (tokenize e2.1) = true)
    flatObject.

(** "a flat map with no structurally conflicting paths" *)
Definition no_conflicts (flatObject : list (string * value)) : Prop :=
  pairwise (fun e1 e2 => conflicting (tokenize e1.1) (tokenize e2.1) = false)
    flatObject.

End Spec.

(** * The part of JavaScript the embedding follows

    [plain s]: no segment of [s] names a member of Object.prototype, and the
    strict indices among them are below 2^53.  On such paths a run of the
    decoder never ends in [Escapes]. *)

Module Fragment.
Import JSNumber Decoder.

Definition plain_key (k : string) : bool :=
  negb (bool_decide (k ∈ Object_prototype_names))
  && (negb (isStrictIndex k) || (magnitude (Number k) <? two53)).

Definition plain (s : list string) : bool := forallb plain_key s.

(* the property name through which the traversal reads and writes segment
   k of the node t: current[kAsNumber] or current[k] *)
Definition slot (t : value) (k : string) : option string :=
  if isStrictIndex k && isArray t then integer_toString (Number k)
  else Some k.

(* the node as the traversal leaves it before it descends: segment k is
   there, and so is the element the array is read at *)
Definition prepared (t : value) (k p : string) (n : string) : value :=
  let t1 :=
    match get_own t k with
    | Some _ => t
    | None => set_own t k (empty_of (expectedType (Some n)))
    end in
  if isStrictIndex k && isArray t then
    if truthy (default VUndefined (get_own t1 p)) then t1
    else set_own t1 p (empty_of (expectedType (Some n)))
  else t1.

(* a node that has no property yet *)
Definition vacant (t : value) : Prop := forall q, get_own t q = None.

(* an array is entered with a strict index *)
Definition head_strict (t : value) (s : list string) : Prop :=
  isArray t = true ->
  match s with k :: _ => isStrictIndex k = true | [] => True end.

(* a strict index written as the array index it is: decimal digits
   without sign or leading zero, below 2^32 - 1 *)
Definition canonical_key (k : string) : bool :=
  negb (isStrictIndex k) || bool_decide (is_Some (array_index k)).

Definition canonical (s : list string) : bool := forallb canonical_key s.

(* two paths that neither end at the same position, nor one at a position
   the other runs through *)
Definition separate (s1 s2 : list string) : bool :=
  negb (Spec.is_prefix s1 s2) && negb (Spec.is_prefix s2 s1).

(* separate paths that agree on the kinds of the nodes *)
Definition compatible (s1 s2 : list string) : bool :=
  separate s1 s2 && negb (Spec.conflicting s1 s2).

(* the paths the embedding follows: no member of Object.prototype, indices
   below 2^53, and after the first segment indices written as array
   indices *)
Definition regular (s : list string) : bool :=
  plain s && canonical (tail s).

(** The flat maps whose decoding does not depend on the order. *)
Definition admissible (flatObject : list (string * value)) : Prop :=
  Forall (fun e => regular (tokenize e.1) = true) flatObject
  /\ Spec.pairwise
       (fun e1 e2 => compatible (tokenize e1.1) (tokenize e2.1) = true)
       flatObject.

(* the tree with the value v at the end of the path s *)
Fixpoint ins (v : value) (s : list string) (t : value) : value :=
  match s with
  | [] => t
  | k :: rest =>
      match rest with
      | [] => set_own t k v
      | n :: _ =>
          set_own t k
            (ins v rest
               (default (empty_of (expectedType (Some n))) (get_own t k)))
      end
  end.

(* the nodes of t along s, as far as they exist, are containers of the
   kinds s asks for *)
Fixpoint fits (s : list string) (t : value) : Prop :=
  match s with
  | [] => True
  | k :: rest =>
      isContainer t = true
      /\ (isArray t = true ->
          isStrictIndex k = true /\ is_Some (array_index k))
      /\ match rest with
         | [] => True
         | n :: _ =>
             match get_own t k with
             | None => True
             | Some c =>
                 isArray c = isStrictIndex n /\ isContainer c = true
                 /\ fits rest c
             end
         end
  end.

(* the path s runs in t into a container of the other kind *)
Fixpoint clash (s : list string) (t : value) : Prop :=
  match s with
  | [] => False
  | k :: rest =>
      match rest with
      | [] => False
      | n :: _ =>
          isContainer t = true
          /\ (isArray t = true ->
              isStrictIndex k = true /\ is_Some (array_index k))
          /\ match get_own t k with
             | None => False
             | Some c =>
                 isArray c <> isStrictIndex n
                 \/ (isArray c = isStrictIndex n /\ isContainer c = true
                     /\ clash rest c)
             end
      end
  end.

(* the nodes of t along s, as far as they exist, are there for a path of P
   that goes on from them, and are of the kind that path asks for; pre is
   the path from the root to t *)
Fixpoint backed (P : list (list string)) (pre s : list string) (t : value)
  : Prop :=
  match s with
  | [] => True
  | k :: rest =>
      match get_own t k with
      | None => True
      | Some c =>
          (exists n' rest',
              (pre ++ k :: n' :: rest') ∈ P /\ isArray c = isStrictIndex n')
          /\ backed P (pre ++ [k]) rest c
      end
  end.

(* one entry put into the tree *)
Definition put (t : value) (e : string * value) : value :=
  ins e.2 (tokenize e.1) t.

(* an entry whose path the tree admits, or runs into a conflict *)
Definition meets (t : value) (e : string * value) : Prop :=
  fits (tokenize e.1) t \/ clash (tokenize e.1) t.

End Fragment.


(** * The input of the sanitizer, and what it is compared with *)

Module Issues.
Import JSNumber Sanitizer.

(** The declared type of the first parameter, [readonly
    StandardSchemaV1.Issue[]], with
    [Issue = { message: string; path?: ReadonlyArray<PropertyKey |
    PathSegment> | undefined }] and [PathSegment = { key: PropertyKey }],
    as far as the sanitizer looks at it: an array of objects; the entries
    of a [path] that is an array are property keys or objects.  An object
    may have more properties than its type names, and the tests of the
    repository leave [key] out. *)

Definition PropertyKey (v : val) : Prop :=
  match v with Str _ | Num _ | Sym _ => True | _ => False end.

Definition PathSegment (h : heap) (v : val) : Prop :=
  exists l, v = Ref l /\ is_Some (h !! l).

Definition PathEntry (h : heap) (e : option val) : Prop :=
  exists v, e = Some v /\ (PropertyKey v \/ PathSegment h v).

Definition Issue (h : heap) (v : val) : Prop :=
  exists l proto props,
    v = Ref l /\ h !! l = Some (Obj proto false props)
    /\ forall lp entries,
         read h v "path" = Ref lp -> h !! lp = Some (Arr entries) ->
         Forall (PathEntry h) entries.

Definition IssueArray (h : heap) (issues : val) : Prop :=
  exists l elems,
    issues = Ref l /\ h !! l = Some (Arr elems)
    /\ Forall (fun e => exists v, e = Some v /\ Issue h v) elems.

(** No reference dangles: what an object of the heap refers to, through
    its properties, its elements or its prototypes, is in the heap. *)
Definition val_ok (h : heap) (v : val) : Prop :=
  match v with Ref l => is_Some (h !! l) | _ => True end.

Fixpoint proto_ok (h : heap) (pr : prototype) : Prop :=
  match pr with
  | ProtoNull => True
  | Proto _ members parent =>
      map_Forall (fun _ v => val_ok h v) members /\ proto_ok h parent
  end.

Definition object_ok (h : heap) (o : object) : Prop :=
  match o with
  | Obj proto _ props =>
      proto_ok h proto /\ map_Forall (fun _ v => val_ok h v) props
  | Arr elems => Forall (fun e => forall v, e = Some v -> val_ok h v) elems
  end.

Definition closed (h : heap) : Prop := map_Forall (fun _ o => object_ok h o) h.

(** *** What the claims speak of *)

(* "an issue carrying a plain-object payload": the test of lines 169-176 *)
Definition carries_payload (h : heap) (issue : val) : bool :=
  truthy issue && typeof_object h issue
  && match issue with
     | Ref l => bool_decide (is_Some (get_property h l "data"))
     | _ => false
     end
  && is_record h (read h issue "data").

(* the path entries of an issue that the valibot branch visits:
   the test of line 195 *)
Definition issue_paths (h : heap) (issue : val) : list val :=
  if truthy issue && typeof_object h issue
     && match issue with
        | Ref l => bool_decide (is_Some (get_property h l "path"))
        | _ => false
        end
     && isArray h (read h issue "path")
  then elements h (read h issue "path") else [].

(* the input object of a path entry, when the entry has one:
   the test of lines 197-203 *)
Definition path_input (h : heap) (path : val) : option loc :=
  match path with
  | Ref lp =>
      if typeof_object h path
         && bool_decide (is_Some (get_property h lp "input"))
         && is_record h (read h path "input")
      then match read h path "input" with Ref x => Some x | _ => None end
      else None
  | _ => None
  end.

(* the input objects of all path entries of all issues *)
Definition inputs (h : heap) (elems : list (option val)) : list loc :=
  e ← elems;
  match e with
  | Some issue => omap (path_input h) (issue_paths h issue)
  | None => []
  end.

(* an object less the restricted fields *)
Definition strip (fields : list string) (o : object) : object :=
  match o with
  | Obj proto callable props => Obj proto callable (delete_all fields props)
  | Arr elems => Arr elems
  end.

(* h' is h with the objects at the locations in S stripped, in place *)
Definition stripped (fields : list string) (S : list loc) (h h' : heap)
  : Prop :=
  forall x, h' !! x
            = (fun o => if bool_decide (x ∈ S) then strip fields o else o)
                <$> h !! x.

(* "derived from the input issue": a new object with the prototype and the
   properties of the issue, but for [data] *)
Definition derived (h h' : heap) (e e' : option val) : Prop :=
  exists li li' proto props props',
    e = Some (Ref li) /\ e' = Some (Ref li')
    /\ h !! li = Some (Obj proto false props)
    /\ h !! li' = None
    /\ h' !! li' = Some (Obj proto false props')
    /\ forall p, p <> "data" -> props' !! p = props !! p.

(* what the arktype branch returns for the element e of the input: the
   element itself, or a new issue with a new payload *)
Definition arktype_copy (fields : list string) (h h' : heap)
    (e e' : option val) : Prop :=
  match e with
  | None => e' = None
  | Some issue =>
      if carries_payload h issue then
        exists li proto props ld dproto dprops li' ld',
          issue = Ref li /\ h !! li = Some (Obj proto false props)
          /\ read h issue "data" = Ref ld
          /\ h !! ld = Some (Obj dproto false dprops)
          /\ e' = Some (Ref li') /\ h !! li' = None /\ h !! ld' = None
          /\ h' !! li' = Some (Obj proto false (<["data" := Ref ld']> props))
          /\ h' !! ld'
             = Some (Obj Object_prototype false (delete_all fields dprops))
      else e' = Some issue
  end.

(** *** The heaps of the repository's tests *)

(* class CustomIssue { constructor(public data, public message) {} } *)
Definition CustomIssue : prototype := Proto 1 ∅ Object_prototype.

(* [issue], with issue = new CustomIssue({ cookie: "secret",
   authorization: "token" }, "Invalid header") *)
Definition arktype_heap : heap :=
  <[ 1%positive := Arr [Some (Ref 2%positive)] ]>
  (<[ 2%positive := Obj CustomIssue false
                      (<[ "data" := Ref 3%positive ]>
                       (<[ "message" := Str "Invalid header" ]> ∅)) ]>
  (<[ 3%positive := Obj Object_prototype false
                      (<[ "cookie" := Str "secret" ]>
                       (<[ "authorization" := Str "token" ]> ∅)) ]> ∅)).

(* [issue], with issue = { message: "Invalid header", path: [pathEntry] }
   and pathEntry = { input: { cookie: "secret", authorization: "token" } } *)
Definition valibot_heap : heap :=
  <[ 1%positive := Arr [Some (Ref 2%positive)] ]>
  (<[ 2%positive := Obj Object_prototype false
                      (<[ "message" := Str "Invalid header" ]>
                       (<[ "path" := Ref 4%positive ]> ∅)) ]>
  (<[ 3%positive := Obj Object_prototype false
                      (<[ "cookie" := Str "secret" ]>
                       (<[ "authorization" := Str "token" ]> ∅)) ]>
  (<[ 4%positive := Arr [Some (Ref 5%positive)] ]>
  (<[ 5%positive := Obj Object_prototype false
                      (<[ "input" := Ref 3%positive ]> ∅) ]> ∅)))).



End Issues.

(** * Further notions the properties of the decoder are stated with *)

Module Paths.
Import JSNumber Decoder.

(** A key in the notation the decoder reads: a first segment, and then
    segments in dot notation ([.name]) or in bracket notation ([[name]]). *)
Inductive step :=
| Dot (k : string)
| Bracket (k : string).

Definition segment (s : step) : string :=
  match s with Dot k | Bracket k => k end.

Definition step_string (s : step) : string :=
  match s with
  | Dot k => "." +:+ k
  | Bracket k => "[" +:+ k +:+ "]"
  end.

Definition path_string (first : string) (rest : list step) : string :=
  first +:+ foldr String.append "" (step_string <$> rest).

(* the characters of a step: as written, after the first replacement, and
   after the second *)
Definition step_chars (s : step) : list ascii :=
  list_ascii_of_string (step_string s).

Definition step_digits_replaced (s : step) : list ascii :=
  match s with
  | Dot k => "."%char :: list_ascii_of_string k
  | Bracket k =>
      if forallb is_digit (list_ascii_of_string k)
      then "."%char :: list_ascii_of_string k
      else "["%char :: list_ascii_of_string k ++ ["]"%char]
  end.

Definition step_replaced (s : step) : list ascii :=
  "."%char :: list_ascii_of_string (segment s).

(* a segment that the notation can carry: not empty, and without dot and
   brackets *)
Definition notation_char (c : ascii) : bool :=
  bool_decide (c = "."%char) || bool_decide (c = "["%char)
  || bool_decide (c = "]"%char).

Definition simple (k : string) : bool :=
  negb (bool_decide (k = ""))
  && forallb (fun c => negb (notation_char c)) (list_ascii_of_string k).

(* a key without dot and opening bracket *)
Definition flat_key (k : string) : bool :=
  negb (bool_decide (k = ""))
  && forallb (fun c => negb (bool_decide (c = "."%char))
                       && negb (bool_decide (c = "["%char)))
       (list_ascii_of_string k).

(* the properties that the entries give to an object, a later entry
   replacing an earlier one with the same key *)
Definition entries_map (props : gmap string value)
    (flatObject : list (string * value)) : gmap string value :=
  foldl (fun m e => <[e.1 := e.2]> m) props flatObject.

(* the value at the end of the path s in the tree t *)
Fixpoint get_path (s : list string) (t : value) : option value :=
  match s with
  | [] => Some t
  | k :: rest => c ← get_own t k; get_path rest c
  end.

(* the property of the root that the entry e is about: the first segment
   of its key *)
Definition top_segment (e : string * value) : option string :=
  head (tokenize e.1).

(* the entry e assigns the position n of the array at the property l of
   the root: its key is l followed by the array index n *)
Definition at_index (l : string) (e : string * value) (n : nat) : Prop :=
  exists i, tokenize e.1 = [l; i] /\ array_index i = Some n.



(* a path of names: not empty, no segment a strict index or the name of a
   member of Object.prototype *)
Definition named_path (s : list string) : bool :=
  negb (bool_decide (s = []))
  && forallb (fun k => negb (isStrictIndex k)
                       && negb (bool_decide (k ∈ Object_prototype_names))) s.

(* the path s leads in t, through objects, to v *)
Fixpoint leads (s : list string) (t v : value) : Prop :=
  match s with
  | [] => t = v
  | k :: rest =>
      match t with
      | VObject props =>
          match props !! k with
          | Some c => leads rest c v
          | None => False
          end
      | _ => False
      end
  end.

(** A tree whose arrays, at every depth, have neither holes nor elements
    that are [undefined], nor properties besides their elements. *)
Inductive dense : value -> Prop :=
| dense_scalar (v : value) : isContainer v = false -> dense v
| dense_object (props : gmap string value) :
    map_Forall (fun _ v => dense v) props -> dense (VObject props)
| dense_array (elems : list value) :
    Forall (fun v => v <> VUndefined /\ dense v) elems ->
    dense (VArray (Some <$> elems) ∅).

(* the number of nodes of a tree *)
Fixpoint value_size (v : value) : nat :=
  match v with
  | VObject props => S (map_fold (fun _ c n => (value_size c + n)%nat) 0%nat props)
  | VArray elems named =>
      S (foldr (fun e n => (match e with
                            | Some c => value_size c
                            | None => 0
                            end + n)%nat) 0%nat elems
         + map_fold (fun _ c n => (value_size c + n)%nat) 0%nat named)
  | _ => 1%nat
  end.

End Paths.
(** * Properties of the decoder *)

Import JSNumber Decoder Spec Fragment.

(** ** Strict indices *)














(** ** Compaction *)

Lemma compactArrays_undefined (v : value) :
  compactArrays v = VUndefined ↔ v = VUndefined.
Proof. destruct v; simpl; split; intros H; try discriminate; auto. Qed.

Lemma compact_elems (elems : list (option value)) :
  filter (fun val => val ≠ VUndefined)
    (omap id ((fun e => match e with
                        | Some v => Some (compactArrays v)
                        | None => None
                        end) <$> elems))
  = compactArrays <$> filter (fun val => val ≠ VUndefined) (remove_holes elems).
Proof.
  induction elems as [|[v|] elems IH]; simpl; auto.
  rewrite !filter_cons. 
  destruct (decide (compactArrays v ≠ VUndefined)) as [Hc|Hc];
    destruct (decide (v ≠ VUndefined)) as [Hv|Hv]; simpl.
  - f_equal. exact IH.
  - exfalso. apply Hc. apply compactArrays_undefined. by apply dec_stable.
  - exfalso. apply Hc. intros Hu. apply Hv. by apply compactArrays_undefined.
  - exact IH.
Qed.

(** ** Containers as property maps *)

Lemma isArray_set_own (o : value) (p : string) (v : value) :
  isArray (set_own o p v) = isArray o.
Proof. destruct o; cbn; try reflexivity. by destruct (array_index p). Qed.

Lemma isContainer_set_own (o : value) (p : string) (v : value) :
  isContainer (set_own o p v) = isContainer o.
Proof. destruct o; cbn; try reflexivity. by destruct (array_index p). Qed.

Lemma array_index_name (k : string) (n : nat) :
  array_index k = Some n ->
  k = NilZero.string_of_uint (N.to_uint (N.of_nat n)).
Proof.
  unfold array_index, integer_toString.
  destruct (isInteger (Number k) && ge_zero (Number k)
            && (magnitude (Number k) <? 2 ^ 32 - 1)); [|discriminate].
  cbn [andb]. case_bool_decide as Hk; [|discriminate].
  intros [= <-]. destruct (magnitude (Number k) <? two53); [|discriminate].
  injection Hk as Hk. rewrite <- Hk at 1. by rewrite Z_nat_N.
Qed.

Lemma array_index_inj (k k' : string) (n : nat) :
  array_index k = Some n -> array_index k' = Some n -> k = k'.
Proof.
  intros H1%array_index_name H2%array_index_name. congruence.
Qed.

Lemma set_index_lookup (n : nat) (v : value) (elems : list (option value))
    (i : nat) :
  set_index n v elems !! i
  = if decide (i = n) then Some (Some v)
    else if decide (i < length elems)%nat then elems !! i
    else if decide (i < n)%nat then Some None else None.
Proof.
  unfold set_index. destruct (decide (n < length elems)%nat) as [Hn|Hn].
  - destruct (decide (i = n)) as [->|Hi].
    + by apply list_lookup_insert_eq.
    + rewrite list_lookup_insert_ne by done.
      destruct (decide (i < length elems)%nat) as [|Hge]; [done|].
      rewrite lookup_ge_None_2 by lia.
      destruct (decide (i < n)%nat); [lia | done].
  - destruct (decide (i < length elems)%nat) as [Hi|Hi].
    + rewrite lookup_app_l by done.
      destruct (decide (i = n)); [lia | done].
    + rewrite lookup_app_r by lia.
      destruct (decide (i = n)) as [->|Hne].
      * rewrite lookup_app_r by (rewrite length_replicate; lia).
        rewrite length_replicate. by rewrite Nat.sub_diag.
      * destruct (decide (i < n)%nat) as [Hlt|Hlt].
        -- rewrite lookup_app_l by (rewrite length_replicate; lia).
           apply lookup_replicate_2. lia.
        -- apply lookup_ge_None_2. rewrite length_app, length_replicate. cbn. lia.
Qed.

Lemma set_index_length (n : nat) (v : value) (elems : list (option value)) :
  length (set_index n v elems) = Nat.max (length elems) (S n).
Proof.
  unfold set_index. destruct (decide (n < length elems)%nat).
  - rewrite length_insert. lia.
  - rewrite !length_app, length_replicate. cbn. lia.
Qed.

Lemma set_index_set_index (n : nat) (a b : value) (elems : list (option value)) :
  set_index n a (set_index n b elems) = set_index n a elems.
Proof.
  apply list_eq. intros i. rewrite !set_index_lookup, set_index_length.
  repeat case_decide; try done; try lia.
Qed.

Lemma set_index_commute (n m : nat) (a b : value) (elems : list (option value)) :
  n <> m ->
  set_index n a (set_index m b elems) = set_index m b (set_index n a elems).
Proof.
  intros Hne. apply list_eq. intros i.
  rewrite !set_index_lookup, !set_index_length.
  repeat case_decide; try done; try lia.
Qed.

Lemma get_set_own_eq (o : value) (p : string) (v : value) :
  isContainer o = true -> get_own (set_own o p v) p = Some v.
Proof.
  destruct o; try discriminate; intros _; cbn.
  - apply lookup_insert_eq.
  - destruct (array_index p) as [n|] eqn:Hp; cbn; rewrite Hp.
    + rewrite set_index_lookup. by rewrite decide_True.
    + apply lookup_insert_eq.
Qed.

Lemma get_set_own_ne (o : value) (p q : string) (v : value) :
  p <> q -> get_own (set_own o p v) q = get_own o q.
Proof.
  intros Hne. destruct o; try reflexivity; cbn.
  - by apply lookup_insert_ne.
  - destruct (array_index p) as [n|] eqn:Hp; cbn;
      destruct (array_index q) as [m|] eqn:Hq; try reflexivity.
    + assert (n <> m) as Hnm.
      { intros ->. apply Hne. by eapply array_index_inj. }
      rewrite set_index_lookup. rewrite decide_False by done.
      destruct (decide (m < length elems)%nat) as [|Hge]; [done|].
      rewrite (lookup_ge_None_2 elems m) by lia.
      by destruct (decide (m < n)%nat).
    + by apply lookup_insert_ne.
Qed.

Lemma set_set_own_eq (o : value) (p : string) (a b : value) :
  set_own (set_own o p b) p a = set_own o p a.
Proof.
  destruct o; try reflexivity; cbn.
  - by rewrite insert_insert_eq.
  - destruct (array_index p) as [n|] eqn:Hp; cbn; rewrite Hp.
    + by rewrite set_index_set_index.
    + by rewrite insert_insert_eq.
Qed.

Lemma set_set_own_ne (o : value) (p q : string) (a b : value) :
  p <> q -> set_own (set_own o p a) q b = set_own (set_own o q b) p a.
Proof.
  intros Hne. destruct o; try reflexivity; cbn.
  - f_equal. by apply insert_insert_ne.
  - destruct (array_index p) as [n|] eqn:Hp; cbn;
      destruct (array_index q) as [m|] eqn:Hq; cbn; rewrite ?Hp, ?Hq;
      try reflexivity.
    + f_equal. apply set_index_commute. intros ->. apply Hne.
      by eapply array_index_inj.
    + f_equal. by apply insert_insert_ne.
Qed.

(** ** One step of the traversal *)

Lemma strict_not_builtin (k : string) :
  isStrictIndex k = true ->
  (k ∉ Object_prototype_names) /\ (k ∉ Array_prototype_names).
Proof.
  intros Hk. split; intros Hin;
    repeat (apply elem_of_cons in Hin as [->|Hin];
            [vm_compute in Hk; discriminate|]);
    by apply elem_of_nil in Hin.
Qed.

Lemma plain_key_slot (t : value) (k : string) :
  plain_key k = true -> exists p, slot t k = Some p.
Proof.
  unfold plain_key, slot, integer_toString. intros [_ Hk]%andb_prop.
  destruct (isStrictIndex k); cbn in *; [|eauto].
  destruct (isArray t); [|eauto]. rewrite Hk. eauto.
Qed.

(* in a node of a fresh path the check of the built-in names passes *)
Lemma plain_key_not_builtin (t : value) (k : string) :
  plain_key k = true -> (isArray t = true -> isStrictIndex k = true) ->
  builtin_name t k = false.
Proof.
  unfold plain_key, builtin_name. intros [Hk _]%andb_prop Harr.
  apply negb_true_iff in Hk. rewrite Hk. cbn.
  destruct (isArray t); [|reflexivity]. cbn.
  apply bool_decide_eq_false. by apply strict_not_builtin, Harr.
Qed.

Lemma assign_last (key : string) (v : value) (k : string) (t : value)
    (p : string) :
  isContainer t = true ->
  (get_own t k = None -> builtin_name t k = false) ->
  slot t k = Some p ->
  assign key v [k] t = Returns (set_own t p v).
Proof.
  intros Ht Hb Hp. cbn [assign]. rewrite Ht. cbn [negb].
  destruct (get_own t k) as [c|] eqn:Hk.
  - rewrite bool_decide_eq_true_2 by eauto. cbn [negb andb].
    rewrite bool_decide_eq_true_2 by done. cbn [negb andb].
    unfold slot in Hp. destruct (isStrictIndex k && isArray t).
    + by rewrite Hp.
    + by injection Hp as ->.
  - rewrite bool_decide_eq_false_2 by (by intros [? ?]).
    rewrite (Hb eq_refl). cbn [negb andb].
    unfold slot in Hp. destruct (isStrictIndex k && isArray t).
    + by rewrite Hp.
    + by injection Hp as ->.
Qed.

Lemma assign_descend (key : string) (v : value) (k n : string)
    (rest : list string) (t : value) (p : string) :
  isContainer t = true ->
  (get_own t k = None -> builtin_name t k = false) ->
  (forall c, get_own t k = Some c -> isArray c = isStrictIndex n) ->
  slot t k = Some p ->
  assign key v (k :: n :: rest) t
  = (child <- assign key v (n :: rest)
                (default VUndefined (get_own (prepared t k p n) p)) ;;
     Returns (set_own (prepared t k p n) p child)).
Proof.
  intros Ht Hb Hkind Hp. cbn [assign]. rewrite Ht. cbn [negb head].
  assert (Hempty : (if nextIsStrictIndex (Some n) then VArray [] ∅ else VObject ∅)
                   = empty_of (expectedType (Some n))).
  { unfold expectedType. by destruct (nextIsStrictIndex (Some n)). }
  rewrite Hempty. unfold prepared.
  rewrite (bool_decide_eq_false_2 (n :: rest = [])) by done. cbn [negb andb].
  destruct (get_own t k) as [c|] eqn:Hk.
  - rewrite bool_decide_eq_true_2 by eauto. cbn [negb andb].
    rewrite bool_decide_eq_true_2.
    2:{ unfold expectedType. cbn [nextIsStrictIndex].
        rewrite (Hkind c eq_refl). by destruct (isStrictIndex n). }
    cbn [negb]. unfold slot in Hp. destruct (isStrictIndex k && isArray t).
    + rewrite Hp. reflexivity.
    + injection Hp as ->. reflexivity.
  - rewrite bool_decide_eq_false_2 by (by intros [? ?]).
    rewrite (Hb eq_refl). cbn [negb andb].
    unfold slot in Hp. destruct (isStrictIndex k && isArray t).
    + rewrite Hp. reflexivity.
    + injection Hp as ->. reflexivity.
Qed.

(** ** A path through a node that has none of its segments yet *)

Lemma vacant_empty_of (t : kind) : vacant (empty_of t).
Proof.
  intros q. destruct t; cbn; [|apply lookup_empty].
  destruct (array_index q); [reflexivity | apply lookup_empty].
Qed.

Lemma isArray_empty_of (n : string) :
  isArray (empty_of (expectedType (Some n))) = isStrictIndex n.
Proof. unfold expectedType. cbn. by destruct (isStrictIndex n). Qed.

Lemma isContainer_empty_of (t : kind) : isContainer (empty_of t) = true.
Proof. by destruct t. Qed.

Lemma truthy_container (t : value) : isContainer t = true -> truthy t = true.
Proof. by destruct t. Qed.

Lemma isArray_isContainer (t : value) : isArray t = true -> isContainer t = true.
Proof. by destruct t. Qed.

Lemma slot_isArray (t t' : value) (k : string) :
  isArray t = isArray t' -> slot t k = slot t' k.
Proof. unfold slot. by intros ->. Qed.

Lemma slot_ne_named (t : value) (k p : string) :
  slot t k = Some p -> p <> k -> isArray t = true /\ array_index k = None.
Proof.
  unfold slot. intros Hp Hne.
  destruct (isStrictIndex k) eqn:Hk; cbn in Hp; [|congruence].
  destruct (isArray t); [|congruence]. split; [reflexivity|].
  unfold array_index. rewrite Hp.
  rewrite (bool_decide_eq_false_2 (Some p = Some k)) by congruence.
  by rewrite andb_false_r.
Qed.

Lemma prepared_vacant (t : value) (k p n : string) :
  vacant t -> isContainer t = true -> slot t k = Some p ->
  let E := empty_of (expectedType (Some n)) in
  prepared t k p n
  = (if decide (p = k) then set_own t k E else set_own (set_own t k E) p E).
Proof.
  intros Hv Ht Hp E. unfold prepared. rewrite (Hv k). fold E.
  destruct (decide (p = k)) as [->|Hne].
  - rewrite get_set_own_eq by done. cbn [from_option id].
    rewrite truthy_container by apply isContainer_empty_of.
    by destruct (isStrictIndex k && isArray t).
  - destruct (slot_ne_named _ _ _ Hp Hne) as [Harr _].
    unfold slot in Hp. rewrite Harr in *.
    destruct (isStrictIndex k); cbn in *; [|congruence].
    rewrite get_set_own_ne by done. by rewrite (Hv p).
Qed.

Lemma prepared_vacant_get (t : value) (k p n : string) :
  vacant t -> isContainer t = true -> slot t k = Some p ->
  get_own (prepared t k p n) p = Some (empty_of (expectedType (Some n))).
Proof.
  intros Hv Ht Hp. rewrite prepared_vacant by done.
  destruct (decide (p = k)) as [->|Hne]; apply get_set_own_eq;
    by rewrite ?isContainer_set_own.
Qed.

Lemma prepared_vacant_kind (t : value) (k p n : string) :
  vacant t -> isContainer t = true -> slot t k = Some p ->
  isArray (prepared t k p n) = isArray t
  /\ isContainer (prepared t k p n) = true.
Proof.
  intros Hv Ht Hp. rewrite prepared_vacant by done.
  destruct (decide (p = k)); by rewrite ?isArray_set_own, ?isContainer_set_own.
Qed.

(* the segment k of the node, once the path went through it, holds a
   container of the kind the next segment asked for *)
Lemma prepared_vacant_segment (t : value) (k p n : string) (child : value) :
  vacant t -> isContainer t = true -> slot t k = Some p ->
  isArray child = isStrictIndex n ->
  exists c, get_own (set_own (prepared t k p n) p child) k = Some c
            /\ isArray c = isStrictIndex n.
Proof.
  intros Hv Ht Hp Hc. rewrite prepared_vacant by done.
  destruct (decide (p = k)) as [->|Hne].
  - exists child. split; [|done].
    apply get_set_own_eq. by rewrite isContainer_set_own.
  - exists (empty_of (expectedType (Some n))). split; [|apply isArray_empty_of].
    rewrite !get_set_own_ne by done. by apply get_set_own_eq.
Qed.

(* a node the path went through is found prepared by the next path *)
Lemma prepared_again (t : value) (k p n : string) (c child : value) :
  get_own t k = Some c -> get_own t p = Some child ->
  isContainer child = true ->
  prepared t k p n = t.
Proof.
  intros Hk Hp Hc. unfold prepared. rewrite Hk, Hp. cbn [from_option id].
  rewrite (truthy_container _ Hc). by destruct (isStrictIndex k && isArray t).
Qed.

Lemma fresh_returns (key : string) (v : value) (s : list string) :
  forall t, plain s = true -> vacant t -> isContainer t = true ->
            head_strict t s ->
  exists t', assign key v s t = Returns t'
             /\ isArray t' = isArray t /\ isContainer t' = true.
Proof.
  induction s as [|k [|n rest] IH]; intros t Hs Hv Ht Hh.
  - exists t. by repeat split.
  - cbn in Hs. rewrite andb_true_r in Hs.
    destruct (plain_key_slot t k Hs) as [p Hp].
    exists (set_own t p v). rewrite isArray_set_own, isContainer_set_own.
    repeat split; [|done].
    apply assign_last; [done| |done].
    intros _. by apply plain_key_not_builtin.
  - change (plain (k :: n :: rest)) with (plain_key k && plain (n :: rest)) in Hs.
    apply andb_prop in Hs as [Hk Hs].
    destruct (plain_key_slot t k Hk) as [p Hp].
    rewrite (assign_descend key v k n rest t p); [|done| | |done].
    2:{ intros _. by apply plain_key_not_builtin. }
    2:{ intros c Hc. by rewrite (Hv k) in Hc. }
    rewrite prepared_vacant_get by done. cbn [from_option id].
    destruct (IH (empty_of (expectedType (Some n))) Hs) as (c & Hc & Hca & Hcc).
    { apply vacant_empty_of. }
    { apply isContainer_empty_of. }
    { intros Ha. by rewrite isArray_empty_of in Ha. }
    rewrite Hc. cbn [bind]. eexists. split; [reflexivity|].
    rewrite isArray_set_own, isContainer_set_own.
    by apply prepared_vacant_kind.
Qed.

(** ** A path through a scalar *)

(** C1 (the code departs from the claim).  The claim: decoding returns a
    nested value or fails with the key-conflict error, also when a path
    descends through a position that holds a scalar.  When an entry has put
    a value that is no object at the property [a] of the root, and a later
    path goes on from [a] with a name, the later entry reaches that value
    as [current] and [k in current] raises a TypeError.  So it is on the
    entries "a" = "x" and "a.b" = "y", in this order. *)
Theorem C1_scalar_leaf_raises_TypeError :
  (forall (key1 key2 : string) (v1 v2 : value) (a k : string)
          (rest : list string),
      tokenize key1 = [a] -> tokenize key2 = a :: k :: rest ->
      plain_key a = true -> isStrictIndex k = false ->
      isContainer v1 = false ->
      flattenToNestedObject [(key1, v1); (key2, v2)] = Throws TypeError)
  /\ flattenToNestedObject [("a", VString "x"); ("a.b", VString "y")]
     = Throws TypeError.
Proof.
  split; [|vm_compute; reflexivity].
  intros key1 key2 v1 v2 a k rest H1 H2 Ha Hk Hv.
  unfold flattenToNestedObject. cbn [build bind]. rewrite H1, H2.
  rewrite (assign_last key1 v1 a (VObject ∅) a); [|done| |].
  2:{ intros _. by apply plain_key_not_builtin. }
  2:{ unfold slot. cbn [isArray]. by rewrite andb_false_r. }
  cbn [bind].
  assert (Hg : get_own (set_own (VObject ∅) a v1) a = Some v1)
    by (by apply get_set_own_eq).
  rewrite (assign_descend key2 v2 a k rest (set_own (VObject ∅) a v1) a);
    [|done|congruence| |].
  2:{ intros c Hc. rewrite Hg in Hc. injection Hc as <-.
      rewrite Hk. by destruct v1. }
  2:{ unfold slot. cbn [set_own isArray]. by rewrite andb_false_r. }
  unfold prepared. rewrite Hg. cbn [set_own isArray].
  rewrite andb_false_r.
  change (VObject (<[a:=v1]> ∅)) with (set_own (VObject ∅) a v1).
  rewrite Hg. cbn [from_option id assign]. rewrite Hv. reflexivity.
Qed.

Lemma C1_witness :
  tokenize "a" = ["a"] /\ tokenize "a.b" = ["a"; "b"]
  /\ plain_key "a" = true /\ isStrictIndex "b" = false
  /\ isContainer (VString "x") = false
  /\ flattenToNestedObject [("a", VString "x"); ("a.b", VString "y")]
     = Throws TypeError.
Proof.
  assert (H1 : tokenize "a" = ["a"]) by (vm_compute; reflexivity).
  assert (H2 : tokenize "a.b" = ["a"; "b"]) by (vm_compute; reflexivity).
  assert (H3 : plain_key "a" = true) by (vm_compute; reflexivity).
  assert (H4 : isStrictIndex "b" = false) by (vm_compute; reflexivity).
  assert (H5 : isContainer (VString "x") = false) by reflexivity.
  refine (conj H1 (conj H2 (conj H3 (conj H4 (conj H5 _))))).
  exact (proj1 C1_scalar_leaf_raises_TypeError
           "a" "a.b" (VString "x") (VString "y") "a" "b" [] H1 H2 H3 H4 H5).
Defined.

(** ** Compaction and assignment *)

Lemma compactArrays_named (elems : list (option value))
    (named named' : gmap string value) :
  compactArrays (VArray elems named) = compactArrays (VArray elems named').
Proof. reflexivity. Qed.

(* a property of an array that is not an element is lost in compaction *)
Lemma compactArrays_set_named (t : value) (k : string) (v : value) :
  isArray t = true -> array_index k = None ->
  compactArrays (set_own t k v) = compactArrays t.
Proof.
  destruct t; try discriminate. intros _ Hk. cbn [set_own]. by rewrite Hk.
Qed.

Lemma compactArrays_set_own (t : value) (p : string) (a b : value) :
  compactArrays a = compactArrays b ->
  compactArrays (set_own t p a) = compactArrays (set_own t p b).
Proof.
  intros Hab. destruct t; try reflexivity; cbn [set_own].
  - cbn [compactArrays]. by rewrite !fmap_insert, Hab.
  - destruct (array_index p) as [n|]; [|reflexivity].
    cbn [compactArrays]. do 4 f_equal.
    unfold set_index. destruct (decide (n < length elems)%nat).
    + rewrite !list_fmap_insert. cbn beta iota. by rewrite Hab.
    + rewrite !fmap_app. do 2 f_equal. cbn. by rewrite Hab.
Qed.

(** ** Two entries, the first on a path that runs through the end of the
    second *)

Lemma overwrite_fresh (key1 key2 : string) (v1 v2 : value)
    (s2 r : list string) :
  forall t, s2 <> [] -> r <> [] -> plain (s2 ++ r) = true ->
            vacant t -> isContainer t = true -> head_strict t s2 ->
  exists t1 t12 t2,
    assign key1 v1 (s2 ++ r) t = Returns t1
    /\ isArray t1 = isArray t
    /\ assign key2 v2 s2 t1 = Returns t12
    /\ assign key2 v2 s2 t = Returns t2
    /\ compactArrays t12 = compactArrays t2.
Proof.
  induction s2 as [|k [|n s2'] IH]; intros t Hne Hr Hs Hv Ht Hh; [done| |].
  - (* the last segment of the second path *)
    destruct r as [|n rest]; [done|]. clear Hne Hr.
    change (plain ([k] ++ n :: rest))
      with (plain_key k && plain (n :: rest)) in Hs.
    apply andb_prop in Hs as [Hk Hs].
    destruct (plain_key_slot t k Hk) as [p Hp].
    assert (Hb : builtin_name t k = false) by by apply plain_key_not_builtin.
    cbn [app].
    rewrite (assign_descend key1 v1 k n rest t p); [|done|done| |done].
    2:{ intros c Hc. by rewrite (Hv k) in Hc. }
    rewrite prepared_vacant_get by done. cbn [from_option id].
    destruct (fresh_returns key1 v1 (n :: rest)
                (empty_of (expectedType (Some n))) Hs) as (c & Hc & Hca & Hcc).
    { apply vacant_empty_of. }
    { apply isContainer_empty_of. }
    { intros Ha. by rewrite isArray_empty_of in Ha. }
    rewrite Hc. cbn [bind].
    destruct (prepared_vacant_kind t k p n Hv Ht Hp) as [HPa HPc].
    set (P := prepared t k p n) in *.
    exists (set_own P p c), (set_own P p v2), (set_own t p v2).
    split; [reflexivity|]. split; [by rewrite isArray_set_own|].
    split; [|split].
    + rewrite (assign_last key2 v2 k (set_own P p c) p).
      * by rewrite set_set_own_eq.
      * by rewrite isContainer_set_own.
      * intros _. apply plain_key_not_builtin; [done|].
        rewrite isArray_set_own, HPa. exact Hh.
      * rewrite <- Hp. apply slot_isArray. by rewrite isArray_set_own.
    + by apply assign_last.
    + subst P. rewrite prepared_vacant by done.
      destruct (decide (p = k)) as [->|Hpk].
      * by rewrite set_set_own_eq.
      * destruct (slot_ne_named _ _ _ Hp Hpk) as [Harr Hidx].
        rewrite set_set_own_eq, set_set_own_ne by done.
        apply compactArrays_set_named; [|done]. by rewrite isArray_set_own.
  - (* both paths go on *)
    clear Hne.
    change (plain ((k :: n :: s2') ++ r))
      with (plain_key k && plain ((n :: s2') ++ r)) in Hs.
    apply andb_prop in Hs as [Hk Hs].
    destruct (plain_key_slot t k Hk) as [p Hp].
    assert (Hb : builtin_name t k = false) by by apply plain_key_not_builtin.
    cbn [app].
    rewrite (assign_descend key1 v1 k n (s2' ++ r) t p); [|done|done| |done].
    2:{ intros c Hc. by rewrite (Hv k) in Hc. }
    rewrite (assign_descend key2 v2 k n s2' t p); [|done|done| |done].
    2:{ intros c Hc. by rewrite (Hv k) in Hc. }
    rewrite prepared_vacant_get by done. cbn [from_option id].
    destruct (IH (empty_of (expectedType (Some n))))
      as (c1 & c12 & c2 & Hc1 & Hc1a & Hc12 & Hc2 & Hcc);
      [done|done|done|apply vacant_empty_of|apply isContainer_empty_of| |].
    { intros Ha. by rewrite isArray_empty_of in Ha. }
    cbn [app] in Hc1. rewrite Hc1, Hc2. cbn [bind].
    destruct (prepared_vacant_kind t k p n Hv Ht Hp) as [HPa HPc].
    assert (Hc1k : isArray c1 = isStrictIndex n)
      by by rewrite Hc1a, isArray_empty_of.
    destruct (prepared_vacant_segment t k p n c1 Hv Ht Hp Hc1k)
      as (c & Hck & Hcn).
    set (P := prepared t k p n) in *.
    assert (Hc1c : isContainer c1 = true).
    { destruct (fresh_returns key1 v1 ((n :: s2') ++ r)
                  (empty_of (expectedType (Some n))) Hs) as (c' & Hc' & _ & Hcc').
      - apply vacant_empty_of.
      - apply isContainer_empty_of.
      - intros Ha. by rewrite isArray_empty_of in Ha.
      - cbn [app] in Hc'. congruence. }
    exists (set_own P p c1), (set_own P p c12), (set_own P p c2).
    split; [reflexivity|]. split; [by rewrite isArray_set_own|].
    split; [|split; [reflexivity|]].
    + rewrite (assign_descend key2 v2 k n s2' (set_own P p c1) p).
      * rewrite (prepared_again _ k p n c c1); [|done| |done].
        2:{ apply get_set_own_eq. done. }
        rewrite get_set_own_eq by done. cbn [from_option id].
        rewrite Hc12. cbn [bind]. by rewrite set_set_own_eq.
      * by rewrite isContainer_set_own.
      * intros _. apply plain_key_not_builtin; [done|].
        rewrite isArray_set_own, HPa. exact Hh.
      * intros c' Hc'. congruence.
      * rewrite <- Hp. apply slot_isArray. by rewrite isArray_set_own.
    + by apply compactArrays_set_own.
Qed.

(** ** Two entries whose paths part on the kind of a node *)

Lemma conflict_fresh (key1 key2 : string) (v1 v2 : value)
    (k1 k2 : string) (r1 r2 : list string) (p : list string) :
  isStrictIndex k1 <> isStrictIndex k2 ->
  forall t, p <> [] -> plain (p ++ k1 :: r1) = true ->
            vacant t -> isContainer t = true -> head_strict t p ->
  exists t1,
    assign key1 v1 (p ++ k1 :: r1) t = Returns t1
    /\ isArray t1 = isArray t
    /\ assign key2 v2 (p ++ k2 :: r2) t1
       = Throws (Error (conflict_message (default "" (last p))
                          (expectedType (Some k1)) k2
                          (expectedType (Some k2)) key2)).
Proof.
  intros Hkinds.
  induction p as [|k [|n p'] IH]; intros t Hne Hs Hv Ht Hh; [done| |].
  - (* the node where the two paths part *)
    clear Hne.
    change (plain ([k] ++ k1 :: r1))
      with (plain_key k && plain (k1 :: r1)) in Hs.
    apply andb_prop in Hs as [Hk Hs].
    destruct (plain_key_slot t k Hk) as [q Hq].
    assert (Hb : builtin_name t k = false) by by apply plain_key_not_builtin.
    cbn [app].
    rewrite (assign_descend key1 v1 k k1 r1 t q); [|done|done| |done].
    2:{ intros c Hc. by rewrite (Hv k) in Hc. }
    rewrite prepared_vacant_get by done. cbn [from_option id].
    destruct (fresh_returns key1 v1 (k1 :: r1)
                (empty_of (expectedType (Some k1))) Hs) as (c & Hc & Hca & Hcc).
    { apply vacant_empty_of. }
    { apply isContainer_empty_of. }
    { intros Ha. by rewrite isArray_empty_of in Ha. }
    rewrite Hc. cbn [bind].
    assert (Hck : isArray c = isStrictIndex k1)
      by by rewrite Hca, isArray_empty_of.
    destruct (prepared_vacant_segment t k q k1 c Hv Ht Hq Hck)
      as (c' & Hc' & Hc'k).
    destruct (prepared_vacant_kind t k q k1 Hv Ht Hq) as [HPa HPc].
    set (P := prepared t k q k1) in *.
    exists (set_own P q c). split; [reflexivity|].
    split; [by rewrite isArray_set_own|].
    cbn [assign]. rewrite isContainer_set_own, HPc. cbn [negb].
    rewrite Hc'. rewrite bool_decide_eq_true_2 by eauto. cbn [negb andb].
    rewrite (bool_decide_eq_false_2 (k2 :: r2 = [])) by done. cbn [negb andb head].
    rewrite Hc'k.
    assert (Hexp : forall n, expectedType (Some n)
                             = if isStrictIndex n then KArray else KObject)
      by reflexivity.
    rewrite !Hexp.
    rewrite bool_decide_eq_false_2; [reflexivity|].
    destruct (isStrictIndex k1), (isStrictIndex k2); congruence.
  - (* a node the two paths share *)
    clear Hne.
    change (plain ((k :: n :: p') ++ k1 :: r1))
      with (plain_key k && plain ((n :: p') ++ k1 :: r1)) in Hs.
    apply andb_prop in Hs as [Hk Hs].
    destruct (plain_key_slot t k Hk) as [q Hq].
    assert (Hb : builtin_name t k = false) by by apply plain_key_not_builtin.
    cbn [app].
    rewrite (assign_descend key1 v1 k n (p' ++ k1 :: r1) t q);
      [|done|done| |done].
    2:{ intros c Hc. by rewrite (Hv k) in Hc. }
    rewrite prepared_vacant_get by done. cbn [from_option id].
    destruct (IH (empty_of (expectedType (Some n))))
      as (c1 & Hc1 & Hc1a & Hc12);
      [done|done|apply vacant_empty_of|apply isContainer_empty_of| |].
    { intros Ha. by rewrite isArray_empty_of in Ha. }
    cbn [app] in Hc1, Hc12. rewrite Hc1. cbn [bind].
    destruct (prepared_vacant_kind t k q n Hv Ht Hq) as [HPa HPc].
    assert (Hc1k : isArray c1 = isStrictIndex n)
      by by rewrite Hc1a, isArray_empty_of.
    destruct (prepared_vacant_segment t k q n c1 Hv Ht Hq Hc1k)
      as (c & Hck & Hcn).
    set (P := prepared t k q n) in *.
    assert (Hc1c : isContainer c1 = true).
    { destruct (fresh_returns key1 v1 ((n :: p') ++ k1 :: r1)
                  (empty_of (expectedType (Some n))) Hs) as (c' & Hc' & _ & Hcc').
      - apply vacant_empty_of.
      - apply isContainer_empty_of.
      - intros Ha. by rewrite isArray_empty_of in Ha.
      - cbn [app] in Hc'. congruence. }
    exists (set_own P q c1). split; [reflexivity|].
    split; [by rewrite isArray_set_own|].
    rewrite (assign_descend key2 v2 k n (p' ++ k2 :: r2) (set_own P q c1) q).
    + rewrite (prepared_again _ k q n c c1); [|done| |done].
      2:{ by apply get_set_own_eq. }
      rewrite get_set_own_eq by done. cbn [from_option id].
      rewrite Hc12. reflexivity.
    + by rewrite isContainer_set_own.
    + intros _. apply plain_key_not_builtin; [done|].
      rewrite isArray_set_own, HPa. exact Hh.
    + intros c' Hc'. congruence.
    + rewrite <- Hq. apply slot_isArray. by rewrite isArray_set_own.
Qed.

Lemma root_vacant : vacant (VObject ∅).
Proof. intros q. apply lookup_empty. Qed.

Lemma root_head_strict (s : list string) : head_strict (VObject ∅) s.
Proof. intros Ha. discriminate. Qed.

(** C10.  The conflict check leaves the last segment alone: when an earlier
    entry has built a container where the path of a later entry ends, the
    later entry replaces the container by its value and nothing is thrown.
    For two entries, the path of the first running through the end of the
    path of the second, the result is the one of the second entry alone.
    At any node, the step for a last segment that finds a value there,
    container or not, returns the node with the new value in its place.
    "a.b.c" = 1 followed by "a.b" = 2 gives {a: {b: 2}}. *)
Theorem C10_terminal_assignment_overwrites :
  (forall (key1 key2 : string) (v1 v2 : value) (r : list string),
      tokenize key2 <> [] -> r <> [] ->
      tokenize key1 = tokenize key2 ++ r ->
      plain (tokenize key1) = true ->
      (exists t, flattenToNestedObject [(key2, v2)] = Returns t)
      /\ flattenToNestedObject [(key1, v1); (key2, v2)]
         = flattenToNestedObject [(key2, v2)])
  /\ (forall (key : string) (v : value) (k : string) (current c : value)
             (p : string),
         isContainer current = true -> get_own current k = Some c ->
         slot current k = Some p ->
         assign key v [k] current = Returns (set_own current p v)
         /\ get_own (set_own current p v) p = Some v)
  /\ flattenToNestedObject
       [("a.b.c", VNumber (Fin false 1 0)); ("a.b", VNumber (Fin false 2 0))]
     = Returns (VObject {[ "a" := VObject {[ "b" := VNumber (Fin false 2 0) ]} ]}).
Proof.
  split; [|split; [|vm_compute; reflexivity]].
  - intros key1 key2 v1 v2 r Hne Hr Htok Hplain.
    rewrite Htok in Hplain.
    destruct (overwrite_fresh key1 key2 v1 v2 (tokenize key2) r (VObject ∅))
      as (t1 & t12 & t2 & H1 & _ & H12 & H2 & Hc);
      [done|done|done|apply root_vacant|done|apply root_head_strict|].
    unfold flattenToNestedObject. cbn [build bind].
    rewrite Htok, H1. cbn [bind]. rewrite H12, H2. cbn [bind].
    split; [eauto | by rewrite Hc].
  - intros key v k current c p Hcur Hk Hp. split.
    + apply assign_last; [done| |done]. intros Hn. congruence.
    + by apply get_set_own_eq.
Qed.

Lemma C10_witness :
  let node := VObject {[ "b" := VObject {[ "c" := VString "x" ]} ]} in
  (tokenize "a.b" <> [] /\ ["c"] <> @nil string
   /\ tokenize "a.b.c" = tokenize "a.b" ++ ["c"]
   /\ plain (tokenize "a.b.c") = true
   /\ flattenToNestedObject [("a.b.c", VString "x"); ("a.b", VString "y")]
      = flattenToNestedObject [("a.b", VString "y")])
  /\ isContainer node = true
  /\ get_own node "b" = Some (VObject {[ "c" := VString "x" ]})
  /\ slot node "b" = Some "b"
  /\ assign "a.b" (VString "y") ["b"] node
     = Returns (set_own node "b" (VString "y")).
Proof.
  cbn zeta.
  assert (H1 : tokenize "a.b" <> []) by (vm_compute; discriminate).
  assert (H2 : ["c"] <> @nil string) by discriminate.
  assert (H3 : tokenize "a.b.c" = tokenize "a.b" ++ ["c"])
    by (vm_compute; reflexivity).
  assert (H4 : plain (tokenize "a.b.c") = true) by (vm_compute; reflexivity).
  assert (H5 : isContainer (VObject {[ "b" := VObject {[ "c" := VString "x" ]} ]})
               = true) by reflexivity.
  assert (H6 : get_own (VObject {[ "b" := VObject {[ "c" := VString "x" ]} ]}) "b"
               = Some (VObject {[ "c" := VString "x" ]}))
    by (vm_compute; reflexivity).
  assert (H7 : slot (VObject {[ "b" := VObject {[ "c" := VString "x" ]} ]}) "b"
               = Some "b") by (vm_compute; reflexivity).
  refine (conj (conj H1 (conj H2 (conj H3 (conj H4 _))))
            (conj H5 (conj H6 (conj H7 _)))).
  - exact (proj2 (proj1 C10_terminal_assignment_overwrites
                    "a.b.c" "a.b" (VString "x") (VString "y") ["c"]
                    H1 H2 H3 H4)).
  - exact (proj1 (proj1 (proj2 C10_terminal_assignment_overwrites)
                    "a.b" (VString "y") "b" _ _ "b" H5 H6 H7)).
Defined.

(** ** The order of the entries *)

Lemma array_index_toString (k : string) :
  is_Some (array_index k) -> integer_toString (Number k) = Some k.
Proof.
  unfold array_index. intros [n Hn].
  destruct (isInteger (Number k) && ge_zero (Number k)
            && (magnitude (Number k) <? 2 ^ 32 - 1)); [|discriminate].
  cbn [andb] in Hn. by case_bool_decide.
Qed.

Lemma fits_slot (k : string) (rest : list string) (t : value) :
  fits (k :: rest) t -> slot t k = Some k.
Proof.
  intros (_ & Harr & _). unfold slot.
  destruct (isStrictIndex k && isArray t) eqn:Hc; [|reflexivity].
  apply andb_prop in Hc as [_ Ha].
  destruct (Harr Ha) as [_ Hi]. by apply array_index_toString.
Qed.

Lemma fits_not_builtin (k : string) (rest : list string) (t : value) :
  plain_key k = true -> fits (k :: rest) t -> builtin_name t k = false.
Proof.
  intros Hk (_ & Harr & _). apply plain_key_not_builtin; [done|].
  intros Ha. by destruct (Harr Ha).
Qed.

Lemma fits_empty_of (n : string) (rest : list string) :
  canonical (n :: rest) = true ->
  fits (n :: rest) (empty_of (expectedType (Some n))).
Proof.
  intros Hc. cbn [canonical forallb] in Hc. apply andb_prop in Hc as [Hn _].
  split; [apply isContainer_empty_of|]. split.
  - rewrite isArray_empty_of. intros Hs. split; [done|].
    unfold canonical_key in Hn. rewrite Hs in Hn. cbn in Hn.
    by apply bool_decide_eq_true in Hn.
  - destruct rest; [done|]. by rewrite vacant_empty_of.
Qed.

Lemma prepared_absent (t : value) (k n : string) :
  isContainer t = true -> get_own t k = None ->
  prepared t k k n = set_own t k (empty_of (expectedType (Some n))).
Proof.
  intros Ht Hk. unfold prepared. rewrite Hk.
  rewrite get_set_own_eq by done. cbn [from_option id].
  rewrite truthy_container by apply isContainer_empty_of.
  by destruct (isStrictIndex k && isArray t).
Qed.

Lemma assign_ins (key : string) (v : value) (s : list string) :
  forall t, plain s = true -> canonical (tail s) = true -> fits s t ->
            assign key v s t = Returns (ins v s t).
Proof.
  induction s as [|k [|n rest] IH]; intros t Hp Hc Hf.
  - reflexivity.
  - cbn in Hp. rewrite andb_true_r in Hp.
    apply assign_last; [by destruct Hf| |by eapply fits_slot].
    intros _. by eapply fits_not_builtin.
  - change (plain (k :: n :: rest)) with (plain_key k && plain (n :: rest)) in Hp.
    apply andb_prop in Hp as [Hk Hp].
    change (tail (k :: n :: rest)) with (n :: rest) in Hc.
    assert (Hc' : canonical (tail (n :: rest)) = true).
    { cbn in Hc. by apply andb_prop in Hc as [_ Hc]. }
    pose proof Hf as (Ht & Harr & Hsub).
    rewrite (assign_descend key v k n rest t k);
      [|done| | |by eapply fits_slot].
    2:{ intros _. by eapply fits_not_builtin. }
    2:{ intros c Hk'. rewrite Hk' in Hsub. by destruct Hsub. }
    cbn [ins]. destruct (get_own t k) as [c|] eqn:Hkc.
    + destruct Hsub as (Hca & Hcc & Hcf).
      rewrite (prepared_again t k k n c c) by done.
      rewrite Hkc. cbn [from_option id].
      by rewrite (IH c Hp Hc' Hcf).
    + rewrite prepared_absent by done.
      rewrite get_set_own_eq by done. cbn [from_option id].
      rewrite (IH _ Hp Hc' (fits_empty_of n rest Hc)). cbn [bind].
      by rewrite set_set_own_eq.
Qed.

Lemma isArray_ins (v : value) (s : list string) (t : value) :
  isArray (ins v s t) = isArray t.
Proof. destruct s as [|k [|n rest]]; cbn; by rewrite ?isArray_set_own. Qed.

Lemma isContainer_ins (v : value) (s : list string) (t : value) :
  isContainer (ins v s t) = isContainer t.
Proof. destruct s as [|k [|n rest]]; cbn; by rewrite ?isContainer_set_own. Qed.

Lemma conflicting_sym (s1 : list string) :
  forall s2, conflicting s1 s2 = conflicting s2 s1.
Proof.
  induction s1 as [|k1 r1 IH]; intros [|k2 r2]; try reflexivity.
  cbn [conflicting]. rewrite (IH r2).
  rewrite (bool_decide_ext (k1 = k2) (k2 = k1)) by done.
  destruct r1 as [|n1 r1'], r2 as [|n2 r2']; try reflexivity.
  by rewrite (bool_decide_ext (isStrictIndex n1 = isStrictIndex n2)
                (isStrictIndex n2 = isStrictIndex n1)).
Qed.

Lemma compatible_sym (s1 s2 : list string) :
  compatible s1 s2 = compatible s2 s1.
Proof.
  unfold compatible, separate. rewrite (conflicting_sym s1 s2).
  by rewrite (andb_comm (negb (is_prefix s1 s2))).
Qed.

Lemma compatible_nil_r (s : list string) : compatible s [] = false.
Proof. unfold compatible, separate. destruct s; reflexivity. Qed.

Lemma compatible_nil_l (s : list string) : compatible [] s = false.
Proof. reflexivity. Qed.

(* two compatible paths start with different segments, or with the same
   segment and go on, compatibly, with segments of the same class *)
Lemma compatible_cons (k1 k2 : string) (r1 r2 : list string) :
  compatible (k1 :: r1) (k2 :: r2) = true ->
  k1 <> k2
  \/ (k1 = k2
      /\ exists n1 r1' n2 r2',
           r1 = n1 :: r1' /\ r2 = n2 :: r2'
           /\ isStrictIndex n1 = isStrictIndex n2
           /\ compatible r1 r2 = true).
Proof.
  destruct (decide (k1 = k2)) as [->|Hne]; [|by left]. right.
  split; [done|]. unfold compatible, separate in *.
  cbn [is_prefix conflicting] in H.
  rewrite bool_decide_eq_true_2 in H by done. cbn [andb] in H.
  destruct r1 as [|n1 r1']; [discriminate|].
  destruct r2 as [|n2 r2']; [by rewrite andb_false_r in H|].
  exists n1, r1', n2, r2'. repeat split.
  - apply andb_prop in H as [_ H]. apply negb_true_iff in H.
    apply orb_false_elim in H as [H _]. apply negb_false_iff in H.
    by apply bool_decide_eq_true in H.
  - apply andb_prop in H as [H1 H2]. rewrite H1. cbn [andb].
    apply negb_true_iff in H2. apply orb_false_elim in H2 as [_ H2].
    by rewrite H2.
Qed.

Lemma set_own_scalar (t : value) (k : string) (v : value) :
  isContainer t = false -> set_own t k v = t.
Proof. by destruct t. Qed.

Lemma ins_descend (v : value) (k n : string) (rest : list string) (t : value) :
  ins v (k :: n :: rest) t
  = set_own t k (ins v (n :: rest)
                   (default (empty_of (expectedType (Some n))) (get_own t k))).
Proof. reflexivity. Qed.

Lemma ins_commute (v1 v2 : value) (s1 : list string) :
  forall s2 t, compatible s1 s2 = true ->
               ins v1 s1 (ins v2 s2 t) = ins v2 s2 (ins v1 s1 t).
Proof.
  induction s1 as [|k1 r1 IH]; intros [|k2 r2] t Hc;
    try (by rewrite ?compatible_nil_r in Hc).
  destruct (isContainer t) eqn:Ht.
  2:{ destruct r1, r2; cbn [ins]; by rewrite !(set_own_scalar t) by done. }
  apply compatible_cons in Hc
    as [Hne|(<- & n1 & r1' & n2 & r2' & -> & -> & Hn & Hc)].
  - (* the paths part at this node *)
    assert (H1 : forall v r t',
      ins v (k1 :: r) (set_own t k2 t')
      = set_own (set_own t k2 t') k1
          (match r with
           | [] => v
           | n :: _ => ins v r (default (empty_of (expectedType (Some n)))
                                  (get_own t k1))
           end)).
    { intros v r t'. destruct r; cbn [ins]; [done|].
      by rewrite get_set_own_ne. }
    assert (H2 : forall v r t',
      ins v (k2 :: r) (set_own t k1 t')
      = set_own (set_own t k1 t') k2
          (match r with
           | [] => v
           | n :: _ => ins v r (default (empty_of (expectedType (Some n)))
                                  (get_own t k2))
           end)).
    { intros v r t'. destruct r; cbn [ins]; [done|].
      by rewrite get_set_own_ne. }
    assert (H0 : forall v k r,
      ins v (k :: r) t
      = set_own t k
          (match r with
           | [] => v
           | n :: _ => ins v r (default (empty_of (expectedType (Some n)))
                                  (get_own t k))
           end)).
    { intros v k r. by destruct r. }
    rewrite (H0 v2 k2 r2), H1, (H0 v1 k1 r1), H2.
    by apply set_set_own_ne.
  - (* the paths share this node *)
    assert (He : empty_of (expectedType (Some n2))
                 = empty_of (expectedType (Some n1))).
    { unfold expectedType. cbn. by rewrite Hn. }
    rewrite !ins_descend. rewrite !get_set_own_eq by done. cbn [from_option id].
    rewrite !set_set_own_eq, He. f_equal. by apply IH.
Qed.

Lemma fits_ins (v1 : value) (s1 : list string) :
  forall s2 t,
    compatible s1 s2 = true ->
    canonical (tail s1) = true -> canonical (tail s2) = true ->
    fits s1 t -> fits s2 t -> fits s2 (ins v1 s1 t).
Proof.
  induction s1 as [|k1 r1 IH]; intros [|k2 r2] t Hc Hc1 Hc2 Hf1 Hf2;
    try (by rewrite ?compatible_nil_r in Hc).
  destruct Hf1 as (Ht & Harr1 & Hsub1), Hf2 as (_ & Harr2 & Hsub2).
  split; [by rewrite isContainer_ins|].
  split; [by rewrite isArray_ins|].
  destruct r2 as [|n2 r2']; [done|].
  apply compatible_cons in Hc
    as [Hne|(<- & n1 & r1' & n2' & r2'' & -> & [= <- <-] & Hn & Hc)].
  - assert (Hget : get_own (ins v1 (k1 :: r1) t) k2 = get_own t k2).
    { destruct r1; cbn [ins]; by rewrite get_set_own_ne. }
    by rewrite Hget.
  - cbn [tail] in Hc1, Hc2.
    assert (Hc1' : canonical (tail (n1 :: r1')) = true).
    { cbn in Hc1. by apply andb_prop in Hc1 as [_ ?]. }
    assert (Hc2' : canonical (tail (n2 :: r2')) = true).
    { cbn in Hc2. by apply andb_prop in Hc2 as [_ ?]. }
    rewrite ins_descend. rewrite get_set_own_eq by done.
    rewrite isArray_ins, isContainer_ins.
    destruct (get_own t k1) as [c|] eqn:Hk; cbn [from_option id].
    + destruct Hsub1 as (Ha1 & Hcc & Hf1), Hsub2 as (Ha2 & _ & Hf2).
      split; [done|]. split; [done|]. by apply IH.
    + rewrite isArray_empty_of, isContainer_empty_of.
      split; [done|]. split; [done|].
      apply IH; try done.
      * by apply fits_empty_of.
      * assert (He : empty_of (expectedType (Some n1))
                     = empty_of (expectedType (Some n2))).
        { unfold expectedType. cbn. by rewrite Hn. }
        rewrite He. by apply fits_empty_of.
Qed.

Lemma fits_root (s : list string) : fits s (VObject ∅).
Proof.
  destruct s as [|k [|n rest]]; [done| |]; repeat split; try discriminate.
Qed.

Lemma build_put (flatObject : list (string * value)) :
  forall t,
    Forall (fun e => regular (tokenize e.1) = true) flatObject ->
    pairwise (fun e1 e2 => compatible (tokenize e1.1) (tokenize e2.1) = true)
      flatObject ->
    Forall (fun e => fits (tokenize e.1) t) flatObject ->
    build flatObject t = Returns (foldl put t flatObject).
Proof.
  induction flatObject as [|[key v] m IH]; intros t Hwf Hpw Hfit; [done|].
  apply Forall_cons in Hwf as [[Hp Hc]%andb_prop Hwf].
  apply Forall_cons in Hfit as [Hf Hfit].
  destruct Hpw as [Hfirst Hpw].
  cbn [build foldl]. cbn [fst] in *.
  rewrite (assign_ins key v _ t Hp Hc Hf). cbn [bind].
  apply IH; [done|done|].
  rewrite Forall_forall in *. intros [key' v'] Hin. cbn [fst].
  destruct (andb_prop _ _ (Hwf _ Hin)) as [_ Hc'].
  apply fits_ins; try done.
  - exact (Hfirst _ Hin).
  - exact (Hfit _ Hin).
Qed.

Lemma pairwise_perm {A : Type} (R : A -> A -> Prop) (l l' : list A) :
  (forall x y, R x y -> R y x) ->
  Permutation l l' -> pairwise R l -> pairwise R l'.
Proof.
  intros Hsym Hperm. induction Hperm as [|x l l' Hp IH|x y l|l l' l'' _ IH1 _ IH2].
  - done.
  - intros [Hx Hl]. split; [|by apply IH].
    rewrite Forall_forall in *. intros z Hz. apply Hx.
    rewrite list_elem_of_In in *. eapply Permutation_in; [|exact Hz].
    by symmetry.
  - intros [Hy [Hx Hl]]. apply Forall_cons in Hy as [Hyx Hy].
    repeat split; try done. constructor; [by apply Hsym|done].
  - intros H. apply IH2, IH1, H.
Qed.

Lemma foldl_perm {A B : Type} (f : B -> A -> B) (R : A -> A -> Prop)
    (l l' : list A) :
  (forall x y, R x y -> R y x) ->
  (forall t x y, R x y -> f (f t x) y = f (f t y) x) ->
  Permutation l l' -> pairwise R l ->
  forall t, foldl f t l' = foldl f t l.
Proof.
  intros Hsym Hcomm Hperm.
  induction Hperm as [|x l l' Hp IH|x y l|l l' l'' H1 IH1 H2 IH2]; intros Hpw t.
  - done.
  - destruct Hpw as [_ Hl]. cbn. by apply IH.
  - destruct Hpw as [Hy _]. apply Forall_cons in Hy as [Hyx _].
    cbn. f_equal. by apply Hcomm, Hsym.
  - rewrite IH2; [by apply IH1|]. by eapply pairwise_perm.
Qed.

Lemma put_commute (t : value) (e1 e2 : string * value) :
  compatible (tokenize e1.1) (tokenize e2.1) = true ->
  put (put t e1) e2 = put (put t e2) e1.
Proof. intros Hc. unfold put. by apply ins_commute; rewrite compatible_sym. Qed.

Lemma admissible_returns (flatObject : list (string * value)) :
  admissible flatObject ->
  flattenToNestedObject flatObject
  = Returns (compactArrays (foldl put (VObject ∅) flatObject)).
Proof.
  intros [Hwf Hpw]. unfold flattenToNestedObject.
  rewrite (build_put flatObject (VObject ∅) Hwf Hpw); [done|].
  apply Forall_forall. intros e _. apply fits_root.
Qed.

Lemma admissible_perm (m m' : list (string * value)) :
  Permutation m m' -> admissible m -> admissible m'.
Proof.
  intros Hperm [Hwf Hpw]. split.
  - rewrite Forall_forall in *. intros e He. apply Hwf.
    rewrite list_elem_of_In in *. eapply Permutation_in; [|exact He].
    by symmetry.
  - eapply pairwise_perm; [|exact Hperm|exact Hpw].
    intros x y H. cbn beta in *. by rewrite compatible_sym.
Qed.

(** C2 (counterexample).  The keys "a.b" and "a[b]" are different keys of
    a flat map without conflicting paths, and they name one position: the
    entry processed last wins, so the two orders decode to different
    trees. *)
Lemma C2_counterexample :
  let m := [("a.b", VString "1"); ("a[b]", VString "2")] in
  let m' := [("a[b]", VString "2"); ("a.b", VString "1")] in
  NoDup m.*1 /\ no_conflicts m /\ Permutation m m'
  /\ flattenToNestedObject m
     = Returns (VObject {[ "a" := VObject {[ "b" := VString "2" ]} ]})
  /\ flattenToNestedObject m'
     = Returns (VObject {[ "a" := VObject {[ "b" := VString "1" ]} ]})
  /\ flattenToNestedObject m' <> flattenToNestedObject m.
Proof.
  cbn zeta. split; [|split; [|split; [|split; [|split]]]].
  - apply NoDup_cons. split.
    + intros [H|H]%elem_of_cons; [discriminate | by apply elem_of_nil in H].
    + apply NoDup_cons. split; [apply not_elem_of_nil | apply NoDup_nil_2].
  - repeat split; repeat constructor.
  - apply perm_swap.
  - vm_compute. reflexivity.
  - vm_compute. reflexivity.
  - vm_compute. discriminate.
Qed.

(** C2 (amended).  For a flat map in which no path is a prefix of another
    (so no two entries name one position and no path runs through the end
    of another), no two paths conflict, the index segments after the first
    are written as array indices, no segment names a member of
    Object.prototype: decoding returns a tree, and decoding any permutation
    of the entries returns the same tree. *)
Theorem C2_decoding_is_order_independent
    (flatObject permuted : list (string * value)) :
  admissible flatObject -> Permutation flatObject permuted ->
  (exists t, flattenToNestedObject flatObject = Returns t)
  /\ flattenToNestedObject permuted = flattenToNestedObject flatObject.
Proof.
  intros Hadm Hperm.
  rewrite (admissible_returns flatObject Hadm).
  rewrite (admissible_returns permuted (admissible_perm _ _ Hperm Hadm)).
  split; [eauto|]. do 2 f_equal.
  destruct Hadm as [_ Hpw].
  eapply (foldl_perm put _ flatObject permuted); [| |exact Hperm|exact Hpw].
  - intros x y H. cbn beta in *. by rewrite compatible_sym.
  - intros t x y. apply put_commute.
Qed.

Lemma C2_witness :
  let m := [("user.name", VString "Alice"); ("roles[1]", VString "b");
            ("roles[0]", VString "a"); ("user.details.email", VString "e")] in
  let m' := [("roles[0]", VString "a"); ("user.details.email", VString "e");
             ("user.name", VString "Alice"); ("roles[1]", VString "b")] in
  admissible m /\ Permutation m m'
  /\ flattenToNestedObject m' = flattenToNestedObject m.
Proof.
  cbn zeta.
  assert (Ha : admissible
    [("user.name", VString "Alice"); ("roles[1]", VString "b");
     ("roles[0]", VString "a"); ("user.details.email", VString "e")]).
  { split.
    - repeat (apply Forall_cons; split; [vm_compute; reflexivity|]).
      apply Forall_nil_2.
    - cbn [pairwise].
      repeat (split;
              [repeat (apply Forall_cons; split; [vm_compute; reflexivity|]);
               apply Forall_nil_2|]).
      exact I. }
  assert (Hp : Permutation
    [("user.name", VString "Alice"); ("roles[1]", VString "b");
     ("roles[0]", VString "a"); ("user.details.email", VString "e")]
    [("roles[0]", VString "a"); ("user.details.email", VString "e");
     ("user.name", VString "Alice"); ("roles[1]", VString "b")]).
  { apply (Permutation_app_comm
             [("user.name", VString "Alice"); ("roles[1]", VString "b")]
             [("roles[0]", VString "a"); ("user.details.email", VString "e")]). }
  refine (conj Ha (conj Hp _)).
  exact (proj2 (C2_decoding_is_order_independent _ _ Ha Hp)).
Defined.

(** ** Lists of entries *)

Lemma build_app (m1 m2 : list (string * value)) :
  forall t, build (m1 ++ m2) t = (t' <- build m1 t ;; build m2 t').
Proof.
  induction m1 as [|[key v] m1 IH]; intros t; [done|].
  cbn [app build]. destruct (assign key v (tokenize key) t); cbn [bind]; auto.
Qed.

Lemma separate_nil_l (s : list string) : separate [] s = false.
Proof. done. Qed.

Lemma separate_nil_r (s : list string) : separate s [] = false.
Proof. unfold separate. cbn. by rewrite andb_false_r. Qed.

Lemma some_pair_or_pairwise {A : Type} (c : A -> A -> bool) (l : list A) :
  some_pair (fun x y => c x y = true) l
  \/ pairwise (fun x y => c x y = false) l.
Proof.
  induction l as [|x l IH]; [by right|].
  cbn [some_pair pairwise].
  destruct IH as [IH|IH]; [by left; right|].
  assert (H : Exists (fun y => c x y = true) l
              \/ Forall (fun y => c x y = false) l).
  { clear IH. induction l as [|y l IH]; [by right|].
    destruct (c x y) eqn:Hy; [left; by apply Exists_cons_hd|].
    destruct IH as [IH|IH]; [left; by apply Exists_cons_tl|right].
    by constructor. }
  destruct H as [H|H]; [by left; left|by right].
Qed.

Lemma pairwise_not_some_pair {A : Type} (c : A -> A -> bool) (l : list A) :
  pairwise (fun x y => c x y = false) l ->
  ~ some_pair (fun x y => c x y = true) l.
Proof.
  induction l as [|x l IH]; [by intros _ []|].
  intros [Hx Hl] [H|H]; [|by apply IH].
  rewrite Forall_forall in Hx. apply Exists_exists in H as (y & Hy & Hc).
  rewrite (Hx y Hy) in Hc. discriminate.
Qed.

Lemma pairwise_and {A : Type} (R S : A -> A -> Prop) (l : list A) :
  pairwise R l -> pairwise S l -> pairwise (fun x y => R x y /\ S x y) l.
Proof.
  induction l as [|x l IH]; [done|].
  intros [Hr Hrl] [Hs Hsl]. split; [|by apply IH].
  rewrite Forall_forall in *. intros y Hy. split; auto.
Qed.

Lemma pairwise_impl {A : Type} (R S : A -> A -> Prop) (l : list A) :
  (forall x y, R x y -> S x y) -> pairwise R l -> pairwise S l.
Proof.
  intros HRS. induction l as [|x l IH]; [done|].
  intros [Hr Hrl]. split; [|by apply IH].
  eapply Forall_impl; [exact Hr|]. apply HRS.
Qed.

Lemma conflict_or_admissible (flatObject : list (string * value)) :
  Forall (fun e => regular (tokenize e.1) = true) flatObject ->
  pairwise (fun e1 e2 => separate (tokenize e1.1) (tokenize e2.1) = true)
    flatObject ->
  has_conflict flatObject
  \/ (~ has_conflict flatObject /\ admissible flatObject).
Proof.
  intros Hreg Hsep.
  destruct (some_pair_or_pairwise
              (fun e1 e2 : string * value =>
                 conflicting (tokenize e1.1) (tokenize e2.1)) flatObject)
    as [Hc|Hn]; [by left|right].
  split; [by apply pairwise_not_some_pair|].
  split; [done|].
  eapply pairwise_impl; [|exact (pairwise_and _ _ _ Hsep Hn)].
  intros x y [H1 H2]. unfold compatible. cbn beta in *. by rewrite H1, H2.
Qed.

Lemma fits_ins_same (v : value) (s : list string) :
  forall t, canonical (tail s) = true -> fits s t -> fits s (ins v s t).
Proof.
  induction s as [|k [|n r] IH]; intros t Hc Hf; [done| |].
  - destruct Hf as (Ht & Ha & _). cbn [ins].
    split; [by rewrite isContainer_set_own|].
    split; [by rewrite isArray_set_own|done].
  - destruct Hf as (Ht & Ha & Hsub). rewrite ins_descend.
    split; [by rewrite isContainer_set_own|].
    split; [by rewrite isArray_set_own|].
    rewrite get_set_own_eq by done.
    rewrite isArray_ins, isContainer_ins.
    cbn [tail] in Hc.
    assert (Hc' : canonical (tail (n :: r)) = true).
    { cbn [tail canonical forallb] in *. by apply andb_prop in Hc as [_ ?]. }
    destruct (get_own t k) as [c|]; cbn [from_option id].
    + destruct Hsub as (H1 & H2 & H3).
      split; [done|]. split; [done|]. by apply IH.
    + split; [apply isArray_empty_of|].
      split; [apply isContainer_empty_of|].
      apply IH; [done|]. by apply fits_empty_of.
Qed.

(** ** Conflicting paths among separate ones *)

Lemma separate_cons (k : string) (r1 r2 : list string) :
  separate (k :: r1) (k :: r2) = true ->
  exists n1 r1' n2 r2',
    r1 = n1 :: r1' /\ r2 = n2 :: r2' /\ separate r1 r2 = true.
Proof.
  unfold separate. cbn [is_prefix].
  rewrite bool_decide_eq_true_2 by done. cbn [andb]. intros H.
  destruct r1 as [|n1 r1']; [discriminate|].
  destruct r2 as [|n2 r2']; [by rewrite andb_false_r in H|].
  by exists n1, r1', n2, r2'.
Qed.

Lemma separate_sym (s1 s2 : list string) : separate s1 s2 = separate s2 s1.
Proof. unfold separate. apply andb_comm. Qed.

Lemma conflicting_cons (k1 k2 n1 n2 : string) (r1 r2 : list string) :
  conflicting (k1 :: n1 :: r1) (k2 :: n2 :: r2) = true ->
  k1 = k2
  /\ (isStrictIndex n1 <> isStrictIndex n2
      \/ (isStrictIndex n1 = isStrictIndex n2
          /\ conflicting (n1 :: r1) (n2 :: r2) = true)).
Proof.
  cbn [conflicting]. intros [Hk H]%andb_prop.
  apply bool_decide_eq_true in Hk. split; [done|].
  destruct (decide (isStrictIndex n1 = isStrictIndex n2)) as [He|Hne];
    [|by left].
  right. split; [done|]. rewrite (bool_decide_eq_true_2 _ He) in H.
  exact H.
Qed.

Lemma clash_slot (k n : string) (rest : list string) (t : value) :
  clash (k :: n :: rest) t -> slot t k = Some k.
Proof.
  intros (_ & Harr & _). unfold slot.
  destruct (isStrictIndex k && isArray t) eqn:Hc; [|reflexivity].
  apply andb_prop in Hc as [_ Ha].
  destruct (Harr Ha) as [_ Hi]. by apply array_index_toString.
Qed.

(* a path that clashes with the tree raises the key-conflict error *)
Lemma assign_clash (key : string) (v : value) (s : list string) :
  forall t, clash s t ->
  exists k existingType nextKey,
    existingType <> expectedType (Some nextKey)
    /\ assign key v s t
       = Throws (Error (conflict_message k existingType nextKey
                          (expectedType (Some nextKey)) key)).
Proof.
  induction s as [|k [|n rest] IH]; intros t Hcl; [done|done|].
  pose proof (clash_slot _ _ _ _ Hcl) as Hslot.
  destruct Hcl as (Ht & Harr & Hsub).
  destruct (get_own t k) as [c|] eqn:Hk; [|done].
  destruct Hsub as [Hne|(Heq & Hc & Hcl)].
  - exists k, (if isArray c then KArray else KObject), n.
    assert (Hdiff : (if isArray c then KArray else KObject)
                    <> expectedType (Some n)).
    { unfold expectedType. cbn [nextIsStrictIndex].
      destruct (isArray c), (isStrictIndex n); congruence. }
    split; [done|].
    cbn [assign]. rewrite Ht. cbn [negb]. rewrite Hk.
    rewrite bool_decide_eq_true_2 by eauto. cbn [negb andb].
    rewrite (bool_decide_eq_false_2 (n :: rest = [])) by done.
    cbn [negb andb head]. by rewrite bool_decide_eq_false_2.
  - destruct (IH c Hcl) as (k' & e' & n' & Hd & Hrun).
    exists k', e', n'. split; [done|].
    rewrite (assign_descend key v k n rest t k); [|done| |congruence|done].
    2:{ intros H. congruence. }
    rewrite (prepared_again t k k n c c) by done.
    rewrite Hk. cbn [from_option id]. by rewrite Hrun.
Qed.

(* putting a path into the tree makes the conflicting paths clash *)
Lemma ins_clash (v1 : value) (s1 : list string) :
  forall s t,
    conflicting s1 s = true -> separate s1 s = true ->
    canonical (tail s1) = true -> canonical (tail s) = true ->
    fits s1 t -> fits s t -> clash s (ins v1 s1 t).
Proof.
  induction s1 as [|k1 r1 IH]; intros [|k r] t Hcf Hsep Hc1 Hc Hf1 Hf;
    try discriminate.
  assert (k1 = k) as ->.
  { cbn in Hcf. apply andb_prop in Hcf as [Hk _].
    by apply bool_decide_eq_true in Hk. }
  destruct (separate_cons _ _ _ Hsep)
    as (n1 & r1' & n & r' & -> & -> & Hsep').
  apply conflicting_cons in Hcf as [_ Hcf].
  cbn [tail] in Hc1, Hc.
  assert (Hc1' : canonical (tail (n1 :: r1')) = true).
  { cbn in Hc1. by apply andb_prop in Hc1 as [_ ?]. }
  assert (Hc' : canonical (tail (n :: r')) = true).
  { cbn in Hc. by apply andb_prop in Hc as [_ ?]. }
  destruct Hf1 as (Ht & Harr1 & Hsub1), Hf as (_ & Harr & Hsub).
  rewrite ins_descend. split; [by rewrite isContainer_set_own|].
  split; [by rewrite isArray_set_own|].
  rewrite get_set_own_eq by done. rewrite isArray_ins, isContainer_ins.
  destruct (get_own t k) as [c|] eqn:Hk; cbn [from_option id].
  - destruct Hsub1 as (Ha1 & Hcc & Hf1), Hsub as (Ha & _ & Hf).
    destruct Hcf as [Hne|[He Hcf]]; [congruence|].
    right. split; [done|]. split; [done|]. by apply IH.
  - rewrite isArray_empty_of, isContainer_empty_of.
    destruct Hcf as [Hne|[He Hcf]]; [by left|].
    right. split; [done|]. split; [done|].
    apply IH; try done.
    + by apply fits_empty_of.
    + assert (Hee : empty_of (expectedType (Some n1))
                    = empty_of (expectedType (Some n))).
      { unfold expectedType. cbn. by rewrite He. }
      rewrite Hee. by apply fits_empty_of.
Qed.

(* a path that clashes goes on clashing when a separate path is put in *)
Lemma clash_ins (v' : value) (s' : list string) :
  forall s t,
    separate s' s = true -> fits s' t -> clash s t ->
    clash s (ins v' s' t).
Proof.
  induction s' as [|k' r' IH]; intros [|k [|n r]] t Hsep Hf' Hcl;
    try done.
  destruct Hcl as (Ht & Harr & Hsub).
  split; [by rewrite isContainer_ins|]. split; [by rewrite isArray_ins|].
  destruct (decide (k' = k)) as [->|Hne].
  - destruct (separate_cons _ _ _ Hsep)
      as (n' & r'' & n2 & r2 & -> & [= <- <-] & Hsep').
    rewrite ins_descend. rewrite get_set_own_eq by done.
    destruct (get_own t k) as [c|] eqn:Hk; [|done]. cbn [from_option id].
    rewrite isArray_ins, isContainer_ins.
    destruct Hsub as [Hd|(He & Hc & Hcl)]; [by left|].
    right. split; [done|]. split; [done|].
    apply IH; try done.
    destruct Hf' as (_ & _ & Hf'). rewrite Hk in Hf'. by destruct Hf' as (_ & _ & ?).
  - assert (Hget : get_own (ins v' (k' :: r') t) k = get_own t k).
    { destruct r'; cbn [ins]; by rewrite get_set_own_ne. }
    by rewrite Hget.
Qed.

Lemma some_pair_perm {A : Type} (R : A -> A -> Prop) (l l' : list A) :
  (forall x y, R x y -> R y x) ->
  Permutation l l' -> some_pair R l -> some_pair R l'.
Proof.
  intros Hsym Hperm.
  induction Hperm as [|x l l' Hp IH|x y l|l l' l'' _ IH1 _ IH2].
  - done.
  - intros [Hx|Hl]; [left|right; by apply IH].
    rewrite Exists_exists in *. destruct Hx as (z & Hz & HR).
    exists z. split; [|done]. rewrite list_elem_of_In in *.
    by eapply Permutation_in.
  - cbn [some_pair]. intros [Hy|[Hx|Hl]].
    + apply Exists_cons in Hy as [Hyx|Hy].
      * left. apply Exists_cons. left. by apply Hsym.
      * right. by left.
    + left. apply Exists_cons. by right.
    + right. by right.
  - intros H. apply IH2, IH1, H.
Qed.

(* the entries still to come that conflict with the entry put in clash,
   and those that clash go on clashing *)
Lemma meets_put (t : value) (e0 : string * value)
    (m : list (string * value)) :
  regular (tokenize e0.1) = true -> fits (tokenize e0.1) t ->
  Forall (fun e => regular (tokenize e.1) = true) m ->
  Forall (fun e => separate (tokenize e0.1) (tokenize e.1) = true) m ->
  Forall (meets t) m ->
  Forall (meets (put t e0)) m
  /\ (forall e, e ∈ m ->
        clash (tokenize e.1) t
        \/ conflicting (tokenize e0.1) (tokenize e.1) = true ->
        clash (tokenize e.1) (put t e0)).
Proof.
  intros [Hp0 Hc0]%andb_prop Hf0 Hreg Hsep Hmeets.
  assert (Hstep : forall e, e ∈ m ->
    (clash (tokenize e.1) t
     \/ conflicting (tokenize e0.1) (tokenize e.1) = true ->
     clash (tokenize e.1) (put t e0))
    /\ meets (put t e0) e).
  { intros e He. rewrite Forall_forall in Hreg, Hsep, Hmeets.
    destruct (andb_prop _ _ (Hreg _ He)) as [_ Hc].
    pose proof (Hsep _ He) as Hs. unfold put.
    destruct (Hmeets _ He) as [Hf|Hcl].
    - destruct (conflicting (tokenize e0.1) (tokenize e.1)) eqn:Hcf.
      + assert (clash (tokenize e.1) (ins e0.2 (tokenize e0.1) t))
          by by apply ins_clash.
        split; [done | by right].
      + split.
        * intros [Hcl|?]; [|done]. by apply clash_ins.
        * left. apply fits_ins; try done.
          unfold compatible. by rewrite Hs, Hcf.
    - assert (clash (tokenize e.1) (ins e0.2 (tokenize e0.1) t))
        by by apply clash_ins.
      split; [done | by right]. }
  split.
  - apply Forall_forall. intros e He. by apply Hstep.
  - intros e He. by apply Hstep.
Qed.

Lemma build_doomed (m : list (string * value)) :
  forall t,
    Forall (fun e => regular (tokenize e.1) = true) m ->
    pairwise (fun e1 e2 => separate (tokenize e1.1) (tokenize e2.1) = true) m ->
    Forall (meets t) m ->
    Exists (fun e => clash (tokenize e.1) t) m \/ has_conflict m ->
    exists key v k existingType nextKey,
      (key, v) ∈ m
      /\ existingType <> expectedType (Some nextKey)
      /\ build m t
         = Throws (Error (conflict_message k existingType nextKey
                            (expectedType (Some nextKey)) key)).
Proof.
  induction m as [|[key0 v0] m IH]; intros t Hreg Hsep Hmeets Hdoom.
  { destruct Hdoom as [H|H]; [by apply Exists_nil in H | done]. }
  apply Forall_cons in Hreg as [Hr0 Hreg].
  apply Forall_cons in Hmeets as [Hm0 Hmeets].
  destruct Hsep as [Hsep0 Hsep].
  assert (Hthrows : clash (tokenize key0) t ->
    exists key v k existingType nextKey,
      (key, v) ∈ (key0, v0) :: m
      /\ existingType <> expectedType (Some nextKey)
      /\ build ((key0, v0) :: m) t
         = Throws (Error (conflict_message k existingType nextKey
                            (expectedType (Some nextKey)) key))).
  { intros Hcl.
    destruct (assign_clash key0 v0 _ t Hcl) as (k & e & n & Hd & Hrun).
    exists key0, v0, k, e, n. split; [apply list_elem_of_here|].
    split; [done|]. cbn [build]. by rewrite Hrun. }
  destruct Hm0 as [Hf0|Hcl0]; [|by apply Hthrows].
  destruct (meets_put t (key0, v0) m Hr0 Hf0 Hreg Hsep0 Hmeets)
    as [Hmeets' Hclash'].
  assert (Hdoom' : Exists (fun e => clash (tokenize e.1) (put t (key0, v0))) m
                   \/ has_conflict m).
  { destruct Hdoom as [Hex|[Hex|Hpair]].
    - apply Exists_cons in Hex as [Hcl0|Hex].
      + (* the head fits and clashes: it throws all the same *)
        exfalso. clear -Hf0 Hcl0. cbn [fst] in *.
        revert t Hf0 Hcl0. generalize (tokenize key0) as s.
        induction s as [|k [|n rest] IHs]; intros t Hf Hcl; [done|done|].
        destruct Hf as (_ & _ & Hf), Hcl as (_ & _ & Hcl).
        destruct (get_own t k) as [c|]; [|done].
        destruct Hf as (Ha & _ & Hf), Hcl as [Hne|(_ & _ & Hcl)]; [done|].
        by eapply IHs.
      + left. rewrite Exists_exists in *. destruct Hex as (e & He & Hcl).
        exists e. split; [done|]. apply Hclash'; [done | by left].
    - left. rewrite Exists_exists in *. destruct Hex as (e & He & Hcf).
      exists e. split; [done|]. apply Hclash'; [done | by right].
    - by right. }
  destruct (IH _ Hreg Hsep Hmeets' Hdoom')
    as (key & v & k & e & n & Hin & Hd & Hrun).
  exists key, v, k, e, n. split; [by apply list_elem_of_further|].
  split; [done|]. cbn [build].
  apply andb_prop in Hr0 as [Hp0 Hc0]. cbn [fst] in Hp0, Hc0, Hf0.
  rewrite (assign_ins key0 v0 _ t Hp0 Hc0 Hf0). cbn [bind]. exact Hrun.
Qed.

(** ** The entry that fails, and what the message names *)

Lemma backed_mono (P P' : list (list string)) (s : list string) :
  (forall x, x ∈ P -> x ∈ P') ->
  forall pre t, backed P pre s t -> backed P' pre s t.
Proof.
  intros Hsub. induction s as [|k rest IH]; intros pre t Hb; [done|].
  cbn [backed] in *. destruct (get_own t k) as [c|]; [|done].
  destruct Hb as [(n' & rest' & Hin & Hkind) Hb].
  split; [|by apply IH]. exists n', rest'. split; [by apply Hsub|done].
Qed.

Lemma backed_vacant (P : list (list string)) (pre s : list string) (t : value) :
  vacant t -> backed P pre s t.
Proof. intros Hv. destruct s as [|k rest]; [done|]. cbn. by rewrite (Hv k). Qed.

(* a separate path put into the tree backs the nodes it makes *)
Lemma backed_ins (v2 : value) (s2 : list string) :
  forall s pre t P,
    separate s2 s = true -> backed P pre s t ->
    backed ((pre ++ s2) :: P) pre s (ins v2 s2 t).
Proof.
  induction s2 as [|k2 r2 IH]; intros [|k r] pre t P Hsep Hb; try done.
  assert (Hmono : forall pre' s' t',
    backed P pre' s' t' -> backed ((pre ++ k2 :: r2) :: P) pre' s' t').
  { intros pre' s' t'. apply backed_mono. intros x Hx.
    by apply list_elem_of_further. }
  destruct (decide (k2 = k)) as [->|Hne].
  - destruct (separate_cons _ _ _ Hsep)
      as (n2 & r2' & n & r' & -> & -> & Hsep').
    rewrite ins_descend.
    destruct (isContainer t) eqn:Ht.
    2:{ rewrite set_own_scalar by done. by apply Hmono. }
    cbn [backed]. rewrite get_set_own_eq by done.
    cbn [backed] in Hb.
    assert (Hstep : backed (((pre ++ [k]) ++ n2 :: r2') :: P) (pre ++ [k])
                      (n :: r')
                      (ins v2 (n2 :: r2')
                         (default (empty_of (expectedType (Some n2)))
                            (get_own t k)))).
    { apply IH; [done|].
      destruct (get_own t k) as [c|]; cbn [from_option id]; [by destruct Hb|].
      apply backed_vacant, vacant_empty_of. }
    rewrite <- app_assoc in Hstep. cbn [app] in Hstep.
    split; [|exact Hstep]. rewrite isArray_ins.
    destruct (get_own t k) as [c|]; cbn [from_option id].
    + destruct Hb as [(n' & rest' & Hin & Hkind) _].
      exists n', rest'. split; [by apply list_elem_of_further|done].
    + exists n2, r2'. split; [apply list_elem_of_here|].
      apply isArray_empty_of.
  - assert (Hget : get_own (ins v2 (k2 :: r2) t) k = get_own t k).
    { destruct r2; cbn [ins]; by rewrite get_set_own_ne. }
    cbn [backed] in *. rewrite Hget.
    destruct (get_own t k) as [c|]; [|done].
    destruct Hb as [(n' & rest' & Hin & Hkind) Hb].
    split; [|by apply Hmono].
    exists n', rest'. split; [by apply list_elem_of_further|done].
Qed.

Lemma backed_foldl (s : list string) (before : list (string * value)) :
  forall t P,
    Forall (fun e => separate (tokenize e.1) s = true) before ->
    backed P [] s t ->
    backed (((fun e => tokenize e.1) <$> before) ++ P) [] s
      (foldl put t before).
Proof.
  induction before as [|e before IH]; intros t P Hsep Hb; [done|].
  apply Forall_cons in Hsep as [He Hsep]. cbn [foldl].
  eapply backed_mono; [|apply (IH (put t e) (tokenize e.1 :: P) Hsep)].
  - intros x Hx. cbn [fmap list_fmap app].
    apply elem_of_app in Hx as [Hx|Hx].
    + apply list_elem_of_further, elem_of_app. by left.
    + apply elem_of_cons in Hx as [->|Hx]; [apply list_elem_of_here|].
      apply list_elem_of_further, elem_of_app. by right.
  - exact (backed_ins e.2 (tokenize e.1) s [] t P He Hb).
Qed.

(* a path that clashes with a tree whose nodes are backed fails at the
   first node of the other kind, and the message names that node, the kind
   the path behind it asked for, and the next segment; above that node
   the paths of the tree ask for the kinds the path asks for *)
Lemma clash_backed (key : string) (v : value) (P : list (list string))
    (s : list string) :
  forall pre t,
    clash s t -> backed P pre s t ->
    (forall s' tl, s' ∈ P -> s' = pre ++ tl -> fits tl t) ->
    exists p k n rest n' rest',
      s = p ++ k :: n :: rest
      /\ (pre ++ p ++ k :: n' :: rest') ∈ P
      /\ isStrictIndex n' <> isStrictIndex n
      /\ (forall s' q k2 m r m' r',
            s' ∈ P -> s = q ++ k2 :: m :: r ->
            s' = pre ++ q ++ k2 :: m' :: r' ->
            (length q < length p)%nat ->
            isStrictIndex m' = isStrictIndex m)
      /\ assign key v s t
         = Throws (Error (conflict_message k (expectedType (Some n')) n
                            (expectedType (Some n)) key)).
Proof.
  induction s as [|k [|n rest] IH]; intros pre t Hcl Hb Hfits; [done|done|].
  pose proof (clash_slot _ _ _ _ Hcl) as Hslot.
  destruct Hcl as (Ht & Harr & Hsub).
  cbn [backed] in Hb.
  destruct (get_own t k) as [c|] eqn:Hk; [|done].
  destruct Hb as [(n' & rest' & Hin & Hkind) Hb].
  destruct Hsub as [Hne|(Heq & Hc & Hcl)].
  - exists [], k, n, rest, n', rest'. split; [done|]. split; [done|].
    split; [congruence|].
    split; [intros s' q k2 m r m' r' _ _ _ Hlt; cbn in Hlt; lia|].
    assert (Hexisting : (if isArray c then KArray else KObject)
                        = expectedType (Some n')).
    { unfold expectedType. cbn [nextIsStrictIndex]. by rewrite Hkind. }
    rewrite <- Hexisting.
    cbn [assign]. rewrite Ht. cbn [negb]. rewrite Hk.
    rewrite bool_decide_eq_true_2 by eauto. cbn [negb andb].
    rewrite (bool_decide_eq_false_2 (n :: rest = [])) by done.
    cbn [negb andb head]. rewrite bool_decide_eq_false_2; [done|].
    unfold expectedType. cbn [nextIsStrictIndex].
    destruct (isArray c), (isStrictIndex n); congruence.
  - assert (Hfits' : forall s' tl,
      s' ∈ P -> s' = (pre ++ [k]) ++ tl -> fits tl c).
    { intros s' tl Hs' Heq'. rewrite <- app_assoc in Heq'. cbn [app] in Heq'.
      pose proof (Hfits s' (k :: tl) Hs' Heq') as Hf.
      destruct tl as [|n2 tl]; [done|].
      destruct Hf as (_ & _ & Hf). rewrite Hk in Hf. by destruct Hf as (_ & _ & ?). }
    destruct (IH (pre ++ [k]) c Hcl Hb Hfits')
      as (p & k' & m & rest0 & m' & rest0' & Hs & Hin' & Hd & Hmin & Hrun).
    exists (k :: p), k', m, rest0, m', rest0'.
    split; [cbn [app]; by rewrite Hs|].
    split; [by rewrite <- app_assoc in Hin'|]. split; [done|].
    split.
    + intros s' q k2 m2 r2 m2' r2' Hs' Hq Hq' Hlt.
      destruct q as [|k0 q].
      * cbn [app] in Hq, Hq'. injection Hq as <- <- <-.
        pose proof (Hfits s' _ Hs' Hq') as Hf.
        destruct Hf as (_ & _ & Hf). rewrite Hk in Hf.
        destruct Hf as (Hf & _). congruence.
      * cbn [app] in Hq. injection Hq as <- Hq.
        apply (Hmin s' q k2 m2 r2 m2' r2' Hs' Hq).
        -- by rewrite <- app_assoc.
        -- cbn [length] in Hlt. lia.
    + rewrite (assign_descend key v k n rest t k); [|done| |congruence|done].
      2:{ intros H. congruence. }
      rewrite (prepared_again t k k n c c) by done.
      rewrite Hk. cbn [from_option id]. by rewrite Hrun.
Qed.

(* the entries put into a tree they fit are all found there *)
Lemma fits_foldl (s : list string) (m : list (string * value)) :
  forall t,
    canonical (tail s) = true ->
    Forall (fun e => regular (tokenize e.1) = true) m ->
    pairwise (fun e1 e2 => compatible (tokenize e1.1) (tokenize e2.1) = true) m ->
    Forall (fun e => compatible (tokenize e.1) s = true) m ->
    Forall (fun e => fits (tokenize e.1) t) m ->
    fits s t -> fits s (foldl put t m).
Proof.
  induction m as [|e m IH]; intros t Hc Hreg Hpw Hcomp Hfit Hf; [done|].
  apply Forall_cons in Hreg as [[_ Hce]%andb_prop Hreg].
  apply Forall_cons in Hcomp as [Hes Hcomp].
  apply Forall_cons in Hfit as [Hfe Hfit].
  destruct Hpw as [Hfirst Hpw]. cbn [foldl].
  apply IH; try done.
  - rewrite Forall_forall in *. intros e1 Hin.
    destruct (andb_prop _ _ (Hreg _ Hin)) as [_ Hc1].
    apply fits_ins; try done; [exact (Hfirst _ Hin) | exact (Hfit _ Hin)].
  - by apply fits_ins.
Qed.

Lemma fits_foldl_all (m : list (string * value)) :
  forall t,
    Forall (fun e => regular (tokenize e.1) = true) m ->
    pairwise (fun e1 e2 => compatible (tokenize e1.1) (tokenize e2.1) = true) m ->
    Forall (fun e => fits (tokenize e.1) t) m ->
    Forall (fun e => fits (tokenize e.1) (foldl put t m)) m.
Proof.
  induction m as [|e m IH]; intros t Hreg Hpw Hfit; [by constructor|].
  apply Forall_cons in Hreg as [Hre Hreg].
  apply Forall_cons in Hfit as [Hfe Hfit].
  destruct Hpw as [Hfirst Hpw]. cbn [foldl].
  destruct (andb_prop _ _ Hre) as [_ Hce].
  assert (Hfit' : Forall (fun e0 => fits (tokenize e0.1) (put t e)) m).
  { rewrite Forall_forall in *. intros e1 Hin.
    destruct (andb_prop _ _ (Hreg _ Hin)) as [_ Hc1].
    apply fits_ins; try done; [exact (Hfirst _ Hin) | exact (Hfit _ Hin)]. }
  constructor; [|by apply IH].
  apply fits_foldl; try done.
  - eapply Forall_impl; [exact Hfirst|]. intros e1 H. cbn beta in *.
    by rewrite compatible_sym.
  - by apply fits_ins_same.
Qed.

(* the tree of the entries before makes the entry that conflicts with one
   of them clash *)
Lemma clash_foldl (e : string * value) (before : list (string * value)) :
  forall t,
    regular (tokenize e.1) = true ->
    Forall (fun e0 => regular (tokenize e0.1) = true) before ->
    Forall (fun e0 => separate (tokenize e0.1) (tokenize e.1) = true) before ->
    pairwise (fun e1 e2 => compatible (tokenize e1.1) (tokenize e2.1) = true)
      before ->
    Forall (fun e0 => fits (tokenize e0.1) t) before ->
    meets t e ->
    clash (tokenize e.1) t
    \/ Exists (fun e0 => conflicting (tokenize e0.1) (tokenize e.1) = true)
         before ->
    clash (tokenize e.1) (foldl put t before).
Proof.
  induction before as [|e0 before IH];
    intros t Hr Hreg Hsep Hpw Hfit Hmeets Hdoom.
  { destruct Hdoom as [H|H]; [done | by apply Exists_nil in H]. }
  apply Forall_cons in Hreg as [Hr0 Hreg].
  apply Forall_cons in Hsep as [Hs0 Hsep].
  apply Forall_cons in Hfit as [Hf0 Hfit].
  destruct Hpw as [Hfirst Hpw]. cbn [foldl].
  destruct (meets_put t e0 [e] Hr0 Hf0) as [Hmeets' Hclash'].
  { by constructor. }
  { by constructor. }
  { by constructor. }
  apply IH; try done.
  - rewrite Forall_forall in *. intros e1 Hin.
    destruct (andb_prop _ _ (Hreg _ Hin)) as [_ Hc1].
    destruct (andb_prop _ _ Hr0) as [_ Hc0].
    apply fits_ins; try done; [exact (Hfirst _ Hin) | exact (Hfit _ Hin)].
  - by apply Forall_cons in Hmeets' as [? _].
  - destruct Hdoom as [Hcl|Hex].
    + left. apply Hclash'; [apply list_elem_of_here | by left].
    + apply Exists_cons in Hex as [Hcf|Hex]; [|by right].
      left. apply Hclash'; [apply list_elem_of_here | by right].
Qed.

Lemma pairwise_app {A : Type} (R : A -> A -> Prop) (a b : list A) :
  pairwise R (a ++ b) ->
  pairwise R a /\ pairwise R b
  /\ forall x y, x ∈ a -> y ∈ b -> R x y.
Proof.
  induction a as [|x a IH]; cbn [app pairwise].
  - intros H. split; [done|]. split; [done|].
    intros x y Hx. by apply elem_of_nil in Hx.
  - intros [Hx Hp]. destruct (IH Hp) as (Ha & Hb & Hab).
    apply Forall_app in Hx as [Hxa Hxb].
    split; [done|]. split; [done|].
    intros x' y Hx' Hy. apply elem_of_cons in Hx' as [->|Hx'].
    + rewrite Forall_forall in Hxb. by apply Hxb.
    + by apply Hab.
Qed.

(* the first entry, in the order of processing, that conflicts with an
   entry before it *)
Lemma first_conflict {A : Type} (c : A -> A -> bool) (l : list A) :
  some_pair (fun x y => c x y = true) l ->
  exists before x after,
    l = before ++ x :: after
    /\ ~ some_pair (fun x y => c x y = true) before
    /\ Exists (fun y => c y x = true) before.
Proof.
  induction l as [|x l IH] using rev_ind; [done|].
  intros Hsome.
  destruct (some_pair_or_pairwise c l) as [Hl|Hl].
  - destruct (IH Hl) as (before & y & after & -> & Hnone & Hex).
    exists before, y, (after ++ [x]). split; [|done].
    by rewrite <- app_assoc.
  - exists l, x, []. split; [done|].
    split; [by apply pairwise_not_some_pair|].
    clear IH. induction l as [|y l IH]; cbn [app some_pair] in *.
    + destruct Hsome as [H|[]]. by apply Exists_nil in H.
    + destruct Hl as [Hy Hl].
      destruct Hsome as [H|H].
      * apply Exists_app in H as [H|H].
        -- exfalso. rewrite Forall_forall in Hy.
           apply Exists_exists in H as (z & Hz & Hc).
           rewrite (Hy z Hz) in Hc. discriminate.
        -- apply Exists_cons in H as [H|H]; [|by apply Exists_nil in H].
           by apply Exists_cons_hd.
      * apply Exists_cons_tl. by apply IH.
Qed.

Lemma first_conflict_fails (before after : list (string * value))
    (key : string) (v : value) :
  Forall (fun e => regular (tokenize e.1) = true)
    (before ++ (key, v) :: after) ->
  pairwise (fun e1 e2 => separate (tokenize e1.1) (tokenize e2.1) = true)
    (before ++ (key, v) :: after) ->
  ~ has_conflict before ->
  Exists (fun e => conflicting (tokenize e.1) (tokenize key) = true) before ->
  exists key' v' p k nextKey rest n' rest',
    (key', v') ∈ before
    /\ tokenize key = p ++ k :: nextKey :: rest
    /\ tokenize key' = p ++ k :: n' :: rest'
    /\ isStrictIndex n' <> isStrictIndex nextKey
    /\ (forall e q k2 m r m' r',
          e ∈ before -> tokenize key = q ++ k2 :: m :: r ->
          tokenize e.1 = q ++ k2 :: m' :: r' ->
          (length q < length p)%nat ->
          isStrictIndex m' = isStrictIndex m)
    /\ build (before ++ (key, v) :: after) (VObject ∅)
       = Throws (Error (conflict_message k (expectedType (Some n')) nextKey
                          (expectedType (Some nextKey)) key)).
Proof.
  intros Hreg Hsep Hnone Hex.
  apply Forall_app in Hreg as [Hregb Hrega].
  apply Forall_cons in Hrega as [Hr _]. cbn [fst] in Hr.
  destruct (pairwise_app _ _ _ Hsep) as (Hsepb & _ & Hcross).
  assert (Hseps : Forall (fun e0 => separate (tokenize e0.1) (tokenize key) = true)
                    before).
  { apply Forall_forall. intros e0 He0.
    apply (Hcross e0 (key, v) He0). apply list_elem_of_here. }
  destruct (conflict_or_admissible before Hregb Hsepb)
    as [Hc|[_ [_ Hpw]]]; [done|].
  assert (Hfit : Forall (fun e0 => fits (tokenize e0.1) (VObject ∅)) before).
  { apply Forall_forall. intros e0 _. apply fits_root. }
  pose proof (build_put before (VObject ∅) Hregb Hpw Hfit) as Hrun.
  pose proof (clash_foldl (key, v) before (VObject ∅) Hr Hregb Hseps Hpw Hfit
                (or_introl (fits_root _)) (or_intror Hex)) as Hcl.
  pose proof (backed_foldl (tokenize key) before (VObject ∅) [] Hseps
                (backed_vacant _ _ _ _ root_vacant)) as Hb.
  pose proof (fits_foldl_all before (VObject ∅) Hregb Hpw Hfit) as Hall.
  cbn [fst] in Hcl. rewrite app_nil_r in Hb.
  destruct (clash_backed key v _ _ [] _ Hcl Hb)
    as (p & k & n & rest & n' & rest' & Hs & Hin & Hd & Hmin & Hthrow).
  { intros s' tl Hs' ->. cbn [app] in Hs'.
    apply list_elem_of_fmap in Hs' as (e & -> & He).
    rewrite Forall_forall in Hall. by apply Hall. }
  cbn [app] in Hin.
  apply list_elem_of_fmap in Hin as ([key' v'] & Hkey' & Hin).
  cbn [fst] in Hkey'.
  exists key', v', p, k, n, rest, n', rest'.
  split; [done|]. split; [done|]. split; [done|]. split; [done|].
  split.
  - intros e q k2 m r m' r' He Hq Hq' Hlt.
    apply (Hmin (tokenize e.1) q k2 m r m' r'); try done.
    apply list_elem_of_fmap. by exists e.
  - rewrite build_app, Hrun. cbn [bind build]. by rewrite Hthrow.
Qed.

(** C3 (counterexample).  The paths "a[0][0]" and "a[0].n" ask for a
    Sequence and for a Mapping at the position a[0], and "u[0]" and "u.n" do
    at the position u; an entry processed in between puts another value at
    that position, and decoding returns a value. *)
Lemma C3_counterexample :
  (conflicting (tokenize "a[0][0]") (tokenize "a[0].n") = true
   /\ flattenToNestedObject
        [("a[0][0]", VString "x"); ("a[0]", VNumber (Fin false 0 0));
         ("a[0].n", VString "y")]
      = Returns (VObject {[ "a" :=
          VArray [Some (VObject {[ "n" := VString "y" ]})] ∅ ]}))
  /\ (conflicting (tokenize "u[0]") (tokenize "u.n") = true
      /\ flattenToNestedObject
           [("u[0]", VString "x"); ("u", VObject ∅); ("u.n", VString "y")]
         = Returns (VObject {[ "u" := VObject {[ "n" := VString "y" ]} ]})).
Proof. repeat split; vm_compute; reflexivity. Qed.

(** C3 (amended).  In a flat map in which no path is a prefix of another,
    as soon as two paths go on, after a common prefix that is not empty, one
    with a strict index and the other with a name, decoding fails with the
    key-conflict error, in every order of the entries.  The entry that
    fails is the first, in the order of processing, that conflicts with an
    entry before it: the message names the last segment [k] of a prefix
    the failing key shares with the key of such an entry, the kind that
    entry asks for behind [k], the next segment of the failing key, the
    kind it expects, and the failing key in full; and that prefix is the
    shortest behind which the failing key and an entry before it ask for
    different kinds.  For two entries the
    message is the one of the entry processed second, at the last segment
    of the common prefix.  So do "user.name" and "user[0]" fail in both
    orders. *)
Theorem C3_conflicting_paths_raise :
  (forall (flatObject permuted : list (string * value)),
      Forall (fun e => regular (tokenize e.1) = true) flatObject ->
      pairwise (fun e1 e2 => separate (tokenize e1.1) (tokenize e2.1) = true)
        flatObject ->
      has_conflict flatObject -> Permutation flatObject permuted ->
      exists before after key v key' v' p k nextKey rest n' rest',
        permuted = before ++ (key, v) :: after
        /\ ~ has_conflict before
        /\ (key', v') ∈ before
        /\ tokenize key = p ++ k :: nextKey :: rest
        /\ tokenize key' = p ++ k :: n' :: rest'
        /\ isStrictIndex n' <> isStrictIndex nextKey
        /\ (forall e q k2 m r m' r',
              e ∈ before -> tokenize key = q ++ k2 :: m :: r ->
              tokenize e.1 = q ++ k2 :: m' :: r' ->
              (length q < length p)%nat ->
              isStrictIndex m' = isStrictIndex m)
        /\ flattenToNestedObject permuted
           = Throws (Error (conflict_message k (expectedType (Some n')) nextKey
                              (expectedType (Some nextKey)) key)))
  /\ (forall (key1 key2 : string) (v1 v2 : value)
             (p : list string) (k1 k2 : string) (r1 r2 : list string),
         p <> [] ->
         tokenize key1 = p ++ k1 :: r1 -> tokenize key2 = p ++ k2 :: r2 ->
         isStrictIndex k1 <> isStrictIndex k2 ->
         plain (tokenize key1) = true -> plain (tokenize key2) = true ->
         flattenToNestedObject [(key1, v1); (key2, v2)]
         = Throws (Error (conflict_message (default "" (last p))
                            (expectedType (Some k1)) k2
                            (expectedType (Some k2)) key2))
         /\ flattenToNestedObject [(key2, v2); (key1, v1)]
            = Throws (Error (conflict_message (default "" (last p))
                               (expectedType (Some k2)) k1
                               (expectedType (Some k1)) key1)))
  /\ flattenToNestedObject
       [("user.name", VString "Alice"); ("user[0]", VString "first")]
     = Throws (Error "Key conflict: 'user' is already defined as an object, but next key '0' expects an array. Full key: user[0]")
  /\ flattenToNestedObject
       [("user[0]", VString "first"); ("user.name", VString "Alice")]
     = Throws (Error "Key conflict: 'user' is already defined as an array, but next key 'name' expects an object. Full key: user.name").
Proof.
  split; [|split; [|split; vm_compute; reflexivity]].
  - intros m m' Hreg Hsep Hconf Hperm.
    assert (Hreg' : Forall (fun e => regular (tokenize e.1) = true) m').
    { rewrite Forall_forall in *. intros e He. apply Hreg.
      rewrite list_elem_of_In in *. eapply Permutation_in; [|exact He].
      by symmetry. }
    assert (Hsep' : pairwise
      (fun e1 e2 => separate (tokenize e1.1) (tokenize e2.1) = true) m').
    { eapply pairwise_perm; [|exact Hperm|exact Hsep].
      intros x y H. cbn beta in *. by rewrite separate_sym. }
    assert (Hconf' : has_conflict m').
    { eapply some_pair_perm; [|exact Hperm|exact Hconf].
      intros x y H. cbn beta in *. by rewrite conflicting_sym. }
    destruct (first_conflict
                (fun e1 e2 : string * value =>
                   conflicting (tokenize e1.1) (tokenize e2.1)) m' Hconf')
      as (before & [key v] & after & -> & Hnone & Hex).
    destruct (first_conflict_fails before after key v Hreg' Hsep' Hnone Hex)
      as (key' & v' & p & k & n & rest & n' & rest' & Hin & Hk & Hk' & Hd
          & Hmin & Hrun).
    exists before, after, key, v, key', v', p, k, n, rest, n', rest'.
    repeat (split; [done|]).
    unfold flattenToNestedObject. by rewrite Hrun.
  - intros key1 key2 v1 v2 p k1 k2 r1 r2 Hp Ht1 Ht2 Hk Hp1 Hp2.
    assert (Hone : forall keya keyb va vb ka kb ra rb,
      tokenize keya = p ++ ka :: ra -> tokenize keyb = p ++ kb :: rb ->
      isStrictIndex ka <> isStrictIndex kb -> plain (tokenize keya) = true ->
      flattenToNestedObject [(keya, va); (keyb, vb)]
      = Throws (Error (conflict_message (default "" (last p))
                         (expectedType (Some ka)) kb
                         (expectedType (Some kb)) keyb))).
    { intros keya keyb va vb ka kb ra rb Ha Hb Hab Hpa.
      rewrite Ha in Hpa.
      destruct (conflict_fresh keya keyb va vb ka kb ra rb p Hab (VObject ∅))
        as (t1 & H1 & _ & H2);
        [done|done|apply root_vacant|done|apply root_head_strict|].
      unfold flattenToNestedObject. cbn [build bind].
      rewrite Ha, H1. cbn [bind]. rewrite Hb, H2. reflexivity. }
    split; [by eapply Hone | eapply Hone; eauto].
Qed.

Lemma C3_witness :
  let m := [("id", VString "7"); ("user.name", VString "Alice");
            ("user[0]", VString "first")] in
  let m' := [("user[0]", VString "first"); ("id", VString "7");
             ("user.name", VString "Alice")] in
  (Forall (fun e => regular (tokenize e.1) = true) m
   /\ pairwise (fun e1 e2 => separate (tokenize e1.1) (tokenize e2.1) = true) m
   /\ has_conflict m /\ Permutation m m'
   /\ exists before after key v key' v' p k nextKey rest n' rest',
        m' = before ++ (key, v) :: after
        /\ ~ has_conflict before
        /\ (key', v') ∈ before
        /\ tokenize key = p ++ k :: nextKey :: rest
        /\ tokenize key' = p ++ k :: n' :: rest'
        /\ isStrictIndex n' <> isStrictIndex nextKey
        /\ (forall e q k2 m r m' r',
              e ∈ before -> tokenize key = q ++ k2 :: m :: r ->
              tokenize e.1 = q ++ k2 :: m' :: r' ->
              (length q < length p)%nat ->
              isStrictIndex m' = isStrictIndex m)
        /\ flattenToNestedObject m'
           = Throws (Error (conflict_message k (expectedType (Some n')) nextKey
                              (expectedType (Some nextKey)) key)))
  /\ ["user"] <> @nil string
  /\ tokenize "user.name" = ["user"] ++ "name" :: []
  /\ tokenize "user[0]" = ["user"] ++ "0" :: []
  /\ isStrictIndex "name" <> isStrictIndex "0"
  /\ plain (tokenize "user.name") = true
  /\ plain (tokenize "user[0]") = true
  /\ flattenToNestedObject
       [("user.name", VString "Alice"); ("user[0]", VString "first")]
     = Throws (Error (conflict_message "user" KObject "0" KArray "user[0]")).
Proof.
  cbn zeta.
  assert (Hr : Forall (fun e => regular (tokenize e.1) = true)
    [("id", VString "7"); ("user.name", VString "Alice");
     ("user[0]", VString "first")]).
  { repeat (apply Forall_cons; split; [vm_compute; reflexivity|]).
    apply Forall_nil_2. }
  assert (Hs : pairwise
    (fun e1 e2 => separate (tokenize e1.1) (tokenize e2.1) = true)
    [("id", VString "7"); ("user.name", VString "Alice");
     ("user[0]", VString "first")]).
  { cbn [pairwise].
    repeat (split;
            [repeat (apply Forall_cons; split; [vm_compute; reflexivity|]);
             apply Forall_nil_2|]).
    exact I. }
  assert (Hc : has_conflict
    [("id", VString "7"); ("user.name", VString "Alice");
     ("user[0]", VString "first")]).
  { unfold has_conflict. cbn [some_pair]. right. left.
    apply Exists_cons_hd. vm_compute. reflexivity. }
  assert (Hp : Permutation
    [("id", VString "7"); ("user.name", VString "Alice");
     ("user[0]", VString "first")]
    [("user[0]", VString "first"); ("id", VString "7");
     ("user.name", VString "Alice")]).
  { apply (Permutation_app_comm
             [("id", VString "7"); ("user.name", VString "Alice")]
             [("user[0]", VString "first")]). }
  assert (H1 : ["user"] <> @nil string) by discriminate.
  assert (H2 : tokenize "user.name" = ["user"] ++ "name" :: [])
    by (vm_compute; reflexivity).
  assert (H3 : tokenize "user[0]" = ["user"] ++ "0" :: [])
    by (vm_compute; reflexivity).
  assert (H4 : isStrictIndex "name" <> isStrictIndex "0")
    by (vm_compute; discriminate).
  assert (H5 : plain (tokenize "user.name") = true) by (vm_compute; reflexivity).
  assert (H6 : plain (tokenize "user[0]") = true) by (vm_compute; reflexivity).
  refine (conj (conj Hr (conj Hs (conj Hc (conj Hp _))))
            (conj H1 (conj H2 (conj H3 (conj H4 (conj H5 (conj H6 _))))))).
  - exact (proj1 C3_conflicting_paths_raise _ _ Hr Hs Hc Hp).
  - exact (proj1 (proj1 (proj2 C3_conflicting_paths_raise)
                    "user.name" "user[0]" (VString "Alice") (VString "first")
                    ["user"] "name" "0" [] [] H1 H2 H3 H4 H5 H6)).
Defined.

(** * Further properties of the decoder *)

Import Paths.

(** ** Keys and their segments *)

Lemma list_ascii_app (a b : string) :
  list_ascii_of_string (a +:+ b)
  = list_ascii_of_string a ++ list_ascii_of_string b.
Proof.
  induction a as [|c a IH]; [done|].
  change (c :: list_ascii_of_string (a +:+ b)
          = c :: (list_ascii_of_string a ++ list_ascii_of_string b)).
  by rewrite IH.
Qed.

Lemma list_ascii_nil (k : string) : list_ascii_of_string k = [] -> k = "".
Proof. by destruct k. Qed.

(* split_dots yields pieces without dot *)
Lemma split_dots_pieces (s piece : list ascii) :
  "."%char ∉ piece ->
  Forall (fun p => "."%char ∉ p) (split_dots piece s).
Proof.
  revert piece. induction s as [|c s IH]; intros piece Hp; cbn.
  - by constructor.
  - case_bool_decide as Hc.
    + constructor; [done|]. apply IH. apply not_elem_of_nil.
    + apply IH. rewrite elem_of_app, list_elem_of_singleton.
      intros [H|H]; [done|]. by subst.
Qed.

Lemma split_dots_clean (s piece : list ascii) :
  "."%char ∉ s -> split_dots piece s = [piece ++ s].
Proof.
  revert piece. induction s as [|c s IH]; intros piece Hs; cbn.
  - by rewrite app_nil_r.
  - apply not_elem_of_cons in Hs as [Hc Hs].
    rewrite bool_decide_eq_false_2 by done.
    rewrite IH by done. by rewrite <- app_assoc.
Qed.

Lemma split_dots_dot (s t piece : list ascii) :
  "."%char ∉ s ->
  split_dots piece (s ++ "."%char :: t) = (piece ++ s) :: split_dots [] t.
Proof.
  revert piece. induction s as [|c s IH]; intros piece Hs; cbn.
  - by rewrite app_nil_r.
  - apply not_elem_of_cons in Hs as [Hc Hs].
    rewrite bool_decide_eq_false_2 by done.
    rewrite IH by done. by rewrite <- app_assoc.
Qed.

(* outside the brackets both replacements copy *)
Lemma replace_digit_brackets_copy (s t : list ascii) :
  "["%char ∉ s ->
  replace_digit_brackets None (s ++ t) = s ++ replace_digit_brackets None t.
Proof.
  induction s as [|c s IH]; intros Hs; [done|].
  apply not_elem_of_cons in Hs as [Hc Hs]. cbn.
  rewrite bool_decide_eq_false_2 by done. by rewrite IH.
Qed.

Lemma replace_name_brackets_copy (s t : list ascii) :
  "["%char ∉ s ->
  replace_name_brackets None (s ++ t) = s ++ replace_name_brackets None t.
Proof.
  induction s as [|c s IH]; intros Hs; [done|].
  apply not_elem_of_cons in Hs as [Hc Hs]. cbn.
  rewrite bool_decide_eq_false_2 by done. by rewrite IH.
Qed.

(* inside the brackets: digits only, or something else *)
Lemma replace_digit_brackets_bracket (k t : list ascii) :
  forall ds,
    "["%char ∉ k -> "]"%char ∉ k -> ds ++ k <> [] ->
    replace_digit_brackets (Some ds) (k ++ "]"%char :: t)
    = (if forallb is_digit k then "."%char :: ds ++ k
       else "["%char :: ds ++ k ++ ["]"%char])
      ++ replace_digit_brackets None t.
Proof.
  induction k as [|c k IH]; intros ds Ho Hc Hne.
  - rewrite app_nil_r in *. cbn.
    rewrite (bool_decide_eq_false_2 (ds = [])) by done.
    reflexivity.
  - apply not_elem_of_cons in Ho as [Hco Ho].
    apply not_elem_of_cons in Hc as [Hcc Hc].
    cbn [app replace_digit_brackets forallb].
    destruct (is_digit c) eqn:Hd; cbn [andb].
    + rewrite (IH (ds ++ [c])); [|done|done|].
      2:{ rewrite <- app_assoc. by destruct ds. }
      rewrite <- !app_assoc. reflexivity.
    + rewrite (bool_decide_eq_false_2 (c = "]"%char)) by done.
      rewrite (bool_decide_eq_false_2 (c = "["%char)) by done.
      cbn [andb].
      replace (k ++ "]"%char :: t) with ((k ++ ["]"%char]) ++ t)
        by (by rewrite <- app_assoc).
      rewrite replace_digit_brackets_copy.
      2:{ rewrite elem_of_app, list_elem_of_singleton. intros [H|H]; done. }
      simpl. rewrite <- !app_assoc. simpl. by rewrite <- !app_assoc.
Qed.

Lemma replace_name_brackets_bracket (k t : list ascii) :
  forall cs,
    "]"%char ∉ k -> cs ++ k <> [] ->
    replace_name_brackets (Some cs) (k ++ "]"%char :: t)
    = "."%char :: cs ++ k ++ replace_name_brackets None t.
Proof.
  induction k as [|c k IH]; intros cs Hc Hne.
  - rewrite app_nil_r in Hne. cbn. destruct cs; [done|reflexivity].
  - apply not_elem_of_cons in Hc as [Hcc Hc].
    cbn [app replace_name_brackets].
    rewrite (bool_decide_eq_false_2 (c = "]"%char)) by done.
    rewrite (IH (cs ++ [c])); [|done|].
    2:{ rewrite <- app_assoc. by destruct cs. }
    by rewrite <- !app_assoc.
Qed.

Lemma simple_chars (k : string) :
  simple k = true ->
  list_ascii_of_string k <> []
  /\ ("."%char ∉ list_ascii_of_string k)
  /\ ("["%char ∉ list_ascii_of_string k)
  /\ ("]"%char ∉ list_ascii_of_string k).
Proof.
  unfold simple. intros [Hne Hall]%andb_prop.
  apply negb_true_iff, bool_decide_eq_false in Hne.
  split; [by intros ?%list_ascii_nil|].
  rewrite forallb_forall in Hall.
  repeat split; intros Hin%list_elem_of_In%Hall; by vm_compute in Hin.
Qed.

Lemma step_chars_bracket (k : string) :
  step_chars (Bracket k) = "["%char :: list_ascii_of_string k ++ ["]"%char].
Proof.
  unfold step_chars, step_string.
  change ("[" +:+ k +:+ "]") with (String "["%char (k +:+ "]")).
  cbn [list_ascii_of_string]. by rewrite list_ascii_app.
Qed.

Lemma path_chars (first : string) (rest : list step) :
  list_ascii_of_string (path_string first rest)
  = list_ascii_of_string first ++ concat (step_chars <$> rest).
Proof.
  unfold path_string. rewrite list_ascii_app. f_equal.
  induction rest as [|s rest IH]; [done|].
  cbn [fmap list_fmap foldr concat]. by rewrite list_ascii_app, IH.
Qed.

Lemma digits_replaced (rest : list step) :
  Forall (fun s => simple (segment s) = true) rest ->
  replace_digit_brackets None (concat (step_chars <$> rest))
  = concat (step_digits_replaced <$> rest).
Proof.
  induction 1 as [|s rest Hs _ IH]; [done|].
  apply simple_chars in Hs as (Hne & Hd & Ho & Hc).
  cbn [fmap list_fmap concat]. destruct s as [k|k]; cbn [segment] in *.
  - change (step_chars (Dot k)) with ("."%char :: list_ascii_of_string k).
    rewrite (replace_digit_brackets_copy ("."%char :: list_ascii_of_string k)).
    + by rewrite IH.
    + apply not_elem_of_cons. by split.
  - rewrite step_chars_bracket. cbn [app replace_digit_brackets].
    rewrite bool_decide_eq_true_2 by done.
    rewrite <- app_assoc. cbn [app].
    rewrite replace_digit_brackets_bracket by done.
    rewrite IH. cbn [step_digits_replaced app].
    by destruct (forallb is_digit (list_ascii_of_string k)).
Qed.

Lemma names_replaced (rest : list step) :
  Forall (fun s => simple (segment s) = true) rest ->
  replace_name_brackets None (concat (step_digits_replaced <$> rest))
  = concat (step_replaced <$> rest).
Proof.
  induction 1 as [|s rest Hs _ IH]; [done|].
  apply simple_chars in Hs as (Hne & Hd & Ho & Hc).
  cbn [fmap list_fmap concat].
  assert (Hdot : replace_name_brackets None
                   (("."%char :: list_ascii_of_string (segment s))
                    ++ concat (step_digits_replaced <$> rest))
                 = step_replaced s ++ concat (step_replaced <$> rest)).
  { rewrite replace_name_brackets_copy; [by rewrite IH|].
    apply not_elem_of_cons. by split. }
  destruct s as [k|k]; cbn [segment step_digits_replaced] in *; [exact Hdot|].
  destruct (forallb is_digit (list_ascii_of_string k)); [exact Hdot|].
  cbn [app replace_name_brackets]. rewrite bool_decide_eq_true_2 by done.
  rewrite <- app_assoc. cbn [app].
  rewrite replace_name_brackets_bracket by done.
  rewrite IH. reflexivity.
Qed.

Lemma split_replaced (rest : list step) :
  Forall (fun s => simple (segment s) = true) rest ->
  forall k piece,
    "."%char ∉ k ->
    split_dots piece (k ++ concat (step_replaced <$> rest))
    = (piece ++ k) :: (list_ascii_of_string ∘ segment <$> rest).
Proof.
  induction 1 as [|s rest Hs _ IH]; intros k piece Hk.
  - cbn. rewrite app_nil_r. by apply split_dots_clean.
  - apply simple_chars in Hs as (Hne & Hd & Ho & Hc).
    cbn [fmap list_fmap concat]. unfold step_replaced at 1.
    cbn [app]. rewrite split_dots_dot by done.
    rewrite IH by done. reflexivity.
Qed.

Lemma string_of_segments (ks : list string) :
  string_of_list_ascii <$> (list_ascii_of_string <$> ks) = ks.
Proof.
  induction ks as [|k ks IH]; [done|].
  cbn. by rewrite string_of_list_ascii_of_string, IH.
Qed.

Lemma filter_segments (rest : list step) :
  Forall (fun s => simple (segment s) = true) rest ->
  filter (fun k : list ascii => (0 < length k)%nat)
    (list_ascii_of_string ∘ segment <$> rest)
  = list_ascii_of_string <$> (segment <$> rest).
Proof.
  induction 1 as [|s rest Hs _ IH]; [done|].
  apply simple_chars in Hs as (Hne & _).
  cbn [fmap list_fmap]. rewrite filter_cons_True.
  - cbn [compose]. f_equal. exact IH.
  - cbn [compose]. destruct (list_ascii_of_string (segment s)); [done|cbn; lia].
Qed.

Lemma tokenize_steps (first : list ascii) (rest : list step) :
  "["%char ∉ first -> "."%char ∉ first ->
  Forall (fun s => simple (segment s) = true) rest ->
  split_dots []
    (replace_name_brackets None
       (replace_digit_brackets None
          (first ++ concat (step_chars <$> rest))))
  = first :: (list_ascii_of_string ∘ segment <$> rest).
Proof.
  intros Ho Hd Hrest.
  rewrite replace_digit_brackets_copy, digits_replaced by done.
  rewrite replace_name_brackets_copy, names_replaced by done.
  by rewrite split_replaced.
Qed.

(** X1.  A key written as a first segment followed by segments in dot
    notation or in bracket notation, the segments not empty and free of
    dots and brackets, is split into exactly these segments, in their
    order: "key[0].title" gives key, 0, title.  A key that starts with a
    bracket has the bracketed segment as its first. *)
Theorem X1_key_notation_splits_into_segments :
  (forall (first : string) (rest : list step),
      simple first = true ->
      Forall (fun s => simple (segment s) = true) rest ->
      tokenize (path_string first rest) = first :: (segment <$> rest))
  /\ (forall rest : list step,
         Forall (fun s => simple (segment s) = true) rest ->
         tokenize (path_string "" rest) = segment <$> rest).
Proof.
  split.
  - intros first rest Hfirst Hrest.
    destruct (simple_chars first Hfirst) as (Hne & Hd & Ho & _).
    unfold tokenize. rewrite path_chars, tokenize_steps by done.
    rewrite filter_cons_True.
    2:{ destruct (list_ascii_of_string first); [done|cbn; lia]. }
    rewrite filter_segments by done.
    cbn [fmap list_fmap].
    by rewrite string_of_list_ascii_of_string, string_of_segments.
  - intros rest Hrest.
    unfold tokenize. rewrite path_chars. cbn [list_ascii_of_string].
    rewrite tokenize_steps; [|apply not_elem_of_nil|apply not_elem_of_nil|done].
    rewrite filter_cons_False by (cbn; lia).
    rewrite filter_segments by done. by rewrite string_of_segments.
Qed.

Lemma X1_witness :
  simple "key" = true
  /\ Forall (fun s => simple (segment s) = true) [Bracket "0"; Dot "title"]
  /\ path_string "key" [Bracket "0"; Dot "title"] = "key[0].title"
  /\ tokenize "key[0].title" = ["key"; "0"; "title"].
Proof.
  assert (H1 : simple "key" = true) by (vm_compute; reflexivity).
  assert (H2 : Forall (fun s => simple (segment s) = true)
                 [Bracket "0"; Dot "title"]).
  { repeat (apply Forall_cons; split; [vm_compute; reflexivity|]).
    apply Forall_nil_2. }
  refine (conj H1 (conj H2 (conj eq_refl _))).
  exact (proj1 X1_key_notation_splits_into_segments
           "key" [Bracket "0"; Dot "title"] H1 H2).
Defined.

(** X2.  Whatever the key, none of its segments is empty and none contains
    a dot. *)
Theorem X2_segments_are_not_empty (key k : string) :
  k ∈ tokenize key -> k <> "" /\ ("."%char ∉ list_ascii_of_string k).
Proof.
  unfold tokenize. intros (p & -> & Hp)%list_elem_of_fmap.
  apply list_elem_of_filter in Hp as [Hlen Hp].
  rewrite list_ascii_of_string_of_list_ascii. split.
  - destruct p; [cbn in Hlen; lia|discriminate].
  - pose proof (split_dots_pieces
                  (replace_name_brackets None
                     (replace_digit_brackets None (list_ascii_of_string key)))
                  [] (not_elem_of_nil _)) as Hall.
    rewrite Forall_forall in Hall. by apply Hall.
Qed.

Lemma X2_witness :
  "b" ∈ tokenize "a..b"
  /\ "b" <> "" /\ ("."%char ∉ list_ascii_of_string "b").
Proof.
  assert (H : "b" ∈ tokenize "a..b").
  { vm_compute. apply list_elem_of_further, list_elem_of_here. }
  exact (conj H (X2_segments_are_not_empty "a..b" "b" H)).
Defined.

Lemma split_dots_only (s : list ascii) :
  Forall (fun c => c = "."%char) s ->
  Forall (fun p => p = []) (split_dots [] s).
Proof.
  induction 1 as [|c s -> _ IH]; cbn; [by repeat constructor|].
  by constructor.
Qed.


(** X3.  A key made of dots only, the empty key among them, has no
    segment; and an entry whose key has no segment is passed over: the
    flat object decodes as it does without the entry, wherever the entry
    stands. *)
Theorem X3_entry_without_segment_is_ignored :
  (forall key : string,
      Forall (fun c => c = "."%char) (list_ascii_of_string key) ->
      tokenize key = [])
  /\ (forall (before after : list (string * value)) (key : string) (v : value),
         tokenize key = [] ->
         flattenToNestedObject (before ++ (key, v) :: after)
         = flattenToNestedObject (before ++ after)).
Proof.
  split.
  - intros key Hdots. unfold tokenize.
    assert (Ho : "["%char ∉ list_ascii_of_string key).
    { intros Hin. rewrite Forall_forall in Hdots. by apply Hdots in Hin. }
    rewrite <- (app_nil_r (list_ascii_of_string key)).
    rewrite replace_digit_brackets_copy, replace_name_brackets_copy by done.
    cbn [replace_digit_brackets replace_name_brackets]. rewrite app_nil_r.
    apply split_dots_only in Hdots.
    induction Hdots as [|p l -> _ IH]; [done|].
    by rewrite filter_cons_False by (cbn; lia).
  - intros before after key v Hkey. unfold flattenToNestedObject.
    rewrite !build_app. cbn [build]. rewrite Hkey. reflexivity.
Qed.

Lemma X3_witness :
  Forall (fun c => c = "."%char) (list_ascii_of_string "..")
  /\ tokenize ".." = []
  /\ flattenToNestedObject [("a", VString "x"); ("..", VString "y")]
     = flattenToNestedObject [("a", VString "x")].
Proof.
  assert (H : Forall (fun c => c = "."%char) (list_ascii_of_string "..")).
  { repeat (apply Forall_cons; split; [reflexivity|]). apply Forall_nil_2. }
  pose proof (proj1 X3_entry_without_segment_is_ignored ".." H) as Ht.
  refine (conj H (conj Ht _)).
  exact (proj2 X3_entry_without_segment_is_ignored
           [("a", VString "x")] [] ".." (VString "y") Ht).
Defined.

(** ** Strict indices among the segments *)





(** ** Compaction, again *)

Lemma value_size_prop (m : gmap string value) (k : string) (c : value) :
  m !! k = Some c ->
  (value_size c <= map_fold (fun _ c n => value_size c + n) 0 m)%nat.
Proof.
  intros Hk. rewrite (map_fold_delete_L _ _ k c m); [lia| |done].
  intros. lia.
Qed.

Lemma value_size_elem (elems : list (option value)) (c : value) :
  Some c ∈ elems ->
  (value_size c <= foldr (fun e n => match e with
                                      | Some c => value_size c
                                      | None => 0
                                      end + n) 0 elems)%nat.
Proof.
  induction elems as [|e elems IH]; intros Hin.
  - by apply elem_of_nil in Hin.
  - apply elem_of_cons in Hin as [<-|Hin]; cbn [foldr]; [lia|].
    specialize (IH Hin). lia.
Qed.

(* induction on a tree, with the property at hand for its children *)
Lemma value_children_ind (P : value -> Prop) :
  (forall v, isContainer v = false -> P v) ->
  (forall props, map_Forall (fun _ c => P c) props -> P (VObject props)) ->
  (forall elems named,
      (forall c, Some c ∈ elems -> P c) ->
      map_Forall (fun _ c => P c) named -> P (VArray elems named)) ->
  forall v, P v.
Proof.
  intros Hs Ho Ha v.
  remember (value_size v) as n eqn:Hn. revert v Hn.
  induction n as [n IH] using lt_wf_ind. intros v ->.
  destruct v as [| | | | |props|elems named]; try (by apply Hs).
  - apply Ho. intros k c Hk. apply (IH (value_size c)); [|done].
    pose proof (value_size_prop props k c Hk). cbn [value_size]. lia.
  - apply Ha.
    + intros c Hc. apply (IH (value_size c)); [|done].
      pose proof (value_size_elem elems c Hc). cbn [value_size]. lia.
    + intros k c Hk. apply (IH (value_size c)); [|done].
      pose proof (value_size_prop named k c Hk). cbn [value_size]. lia.
Qed.

Lemma compactArrays_scalar (v : value) :
  isContainer v = false -> compactArrays v = v.
Proof. by destruct v. Qed.

Lemma remove_holes_elem (elems : list (option value)) (c : value) :
  c ∈ remove_holes elems -> Some c ∈ elems.
Proof.
  unfold remove_holes. intros ([c'|] & Hin & Hc)%list_elem_of_omap; [|done].
  cbn in Hc. by injection Hc as ->.
Qed.

Lemma compactArrays_dense (v : value) : dense (compactArrays v).
Proof.
  induction v as [v Hv|props IH|elems named IH _] using value_children_ind.
  - rewrite compactArrays_scalar by done. by apply dense_scalar.
  - cbn [compactArrays]. apply dense_object. intros k c Hk.
    rewrite lookup_fmap in Hk.
    destruct (props !! k) as [c'|] eqn:Hk'; [|done].
    injection Hk as <-. by eapply IH.
  - cbn [compactArrays]. rewrite compact_elems. apply dense_array.
    apply Forall_forall. intros c (c' & -> & Hc)%list_elem_of_fmap.
    apply list_elem_of_filter in Hc as [Hu Hc].
    split.
    + intros Hcu. apply Hu. by apply compactArrays_undefined.
    + by apply IH, remove_holes_elem.
Qed.

Lemma remove_holes_present (elems : list value) :
  remove_holes (Some <$> elems) = elems.
Proof.
  unfold remove_holes. induction elems as [|c elems IH]; [done|].
  cbn. f_equal. exact IH.
Qed.

Lemma dense_fixed (v : value) : dense v -> compactArrays v = v.
Proof.
  induction v as [v Hv|props IH|elems named IH _] using value_children_ind;
    intros Hd.
  - by apply compactArrays_scalar.
  - inversion Hd as [? Hs|? Hall|]; subst; [discriminate|].
    cbn [compactArrays]. f_equal. apply map_eq. intros k.
    rewrite lookup_fmap. destruct (props !! k) as [c|] eqn:Hk; [|done].
    cbn. f_equal. apply (IH k c Hk). exact (Hall k c Hk).
  - inversion Hd as [? Hs| |elems0 Hall]; subst; [discriminate|].
    cbn [compactArrays]. rewrite compact_elems, remove_holes_present.
    f_equal. f_equal.
    assert (Hkeep : filter (fun val => val <> VUndefined) elems0 = elems0).
    { clear IH Hd. induction Hall as [|c l [Hc _] _ IHl]; [done|].
      rewrite filter_cons_True by done. by f_equal. }
    rewrite Hkeep. clear Hkeep Hd.
    induction Hall as [|c l [_ Hc] Hall IHl]; [done|].
    cbn [fmap list_fmap]. f_equal.
    + apply IH; [|done]. cbn. apply list_elem_of_here.
    + apply IHl. intros c' Hin. apply IH. cbn. by apply list_elem_of_further.
Qed.

(** X4.  In what compaction returns, every array, at whatever depth, has
    its elements at consecutive positions, none of them [undefined], and
    no property besides them.  So has every tree that decoding returns. *)
Theorem X4_compacted_arrays_are_dense :
  (forall v : value, dense (compactArrays v))
  /\ (forall (flatObject : list (string * value)) (t : value),
         flattenToNestedObject flatObject = Returns t -> dense t).
Proof.
  split; [exact compactArrays_dense|].
  intros m t. unfold flattenToNestedObject.
  destruct (build m (VObject ∅)) as [data|e|]; cbn [bind]; [|done|done].
  intros [= <-]. apply compactArrays_dense.
Qed.

Lemma X4_witness :
  flattenToNestedObject [("list[1]", VNull); ("list[3]", VBool false)]
  = Returns (VObject {[ "list" := VArray [Some VNull; Some (VBool false)] ∅ ]})
  /\ dense (VObject {[ "list" := VArray [Some VNull; Some (VBool false)] ∅ ]}).
Proof.
  assert (H : flattenToNestedObject
                [("list[1]", VNull); ("list[3]", VBool false)]
              = Returns (VObject {[ "list" :=
                  VArray [Some VNull; Some (VBool false)] ∅ ]}))
    by (vm_compute; reflexivity).
  exact (conj H (proj2 X4_compacted_arrays_are_dense _ _ H)).
Defined.

(** X5.  Compaction is idempotent: a compacted tree is left as it is by a
    second compaction, and so is every tree whose arrays are dense. *)
Theorem X5_compaction_is_idempotent :
  (forall v : value, compactArrays (compactArrays v) = compactArrays v)
  /\ (forall v : value, dense v -> compactArrays v = v).
Proof.
  split; [|exact dense_fixed].
  intros v. apply dense_fixed, compactArrays_dense.
Qed.

Lemma X5_witness :
  dense (VArray [Some (VString "a"); Some VNull] ∅)
  /\ compactArrays (VArray [Some (VString "a"); Some VNull] ∅)
     = VArray [Some (VString "a"); Some VNull] ∅.
Proof.
  assert (H : dense (VArray [Some (VString "a"); Some VNull] ∅)).
  { apply (dense_array [VString "a"; VNull]).
    repeat (apply Forall_cons; split;
            [split; [discriminate|by apply dense_scalar]|]).
    apply Forall_nil_2. }
  exact (conj H (proj2 X5_compaction_is_idempotent _ H)).
Defined.

(** ** Flat objects whose keys carry no notation *)

Lemma flat_key_chars (key : string) :
  flat_key key = true ->
  key <> "" /\ ("."%char ∉ list_ascii_of_string key)
  /\ ("["%char ∉ list_ascii_of_string key).
Proof.
  unfold flat_key. intros [Hne Hall]%andb_prop.
  apply negb_true_iff, bool_decide_eq_false in Hne. split; [done|].
  rewrite forallb_forall in Hall.
  split; intros Hin%list_elem_of_In%Hall; by vm_compute in Hin.
Qed.

Lemma tokenize_flat_key (key : string) :
  flat_key key = true -> tokenize key = [key].
Proof.
  intros (Hne & Hd & Ho)%flat_key_chars. unfold tokenize.
  rewrite <- (app_nil_r (list_ascii_of_string key)).
  rewrite replace_digit_brackets_copy, replace_name_brackets_copy by done.
  cbn [replace_digit_brackets replace_name_brackets].
  rewrite app_nil_r, split_dots_clean by done. cbn [app].
  rewrite filter_cons_True.
  - cbn. by rewrite string_of_list_ascii_of_string.
  - destruct key; [done|cbn; lia].
Qed.


Lemma build_flat (flatObject : list (string * value)) :
  forall props,
    Forall (fun e => flat_key e.1 = true /\ e.1 ∉ Object_prototype_names)
      flatObject ->
    build flatObject (VObject props)
    = Returns (VObject (entries_map props flatObject)).
Proof.
  induction flatObject as [|[key v] m IH]; intros props Hall; [done|].
  apply Forall_cons in Hall as [[Hflat Hname] Hall]. cbn [fst] in *.
  cbn [build]. rewrite (tokenize_flat_key key Hflat).
  rewrite (assign_last key v key (VObject props) key); [|done| |].
  2:{ intros _. unfold builtin_name. cbn [isArray andb].
      rewrite orb_false_r. by apply bool_decide_eq_false. }
  2:{ unfold slot. cbn [isArray]. by rewrite andb_false_r. }
  cbn [bind set_own]. by rewrite IH.
Qed.

Lemma entries_map_list_to_map (flatObject : list (string * value)) :
  forall props,
    NoDup flatObject.*1 ->
    entries_map props flatObject = list_to_map flatObject ∪ props.
Proof.
  induction flatObject as [|[key v] m IH]; intros props Hnd.
  - cbn. by rewrite (left_id_L ∅ (∪)).
  - rewrite fmap_cons in Hnd. apply NoDup_cons in Hnd as [Hkey Hnd].
    cbn [entries_map foldl fst snd] in *.
    change (foldl _ ?a m) with (entries_map a m). rewrite (IH _ Hnd).
    cbn [list_to_map foldr fst snd uncurry].
    rewrite <- insert_union_l. symmetry.
    apply insert_union_r. by apply not_elem_of_list_to_map_1.
Qed.

(** X6.  A flat object whose keys are not empty, carry no notation (no
    dot, no opening bracket) and name no member of Object.prototype
    decodes to the object with the same keys, each value compacted. *)
Theorem X6_keys_without_notation_pass_through
    (flatObject : list (string * value)) :
  Forall (fun e => flat_key e.1 = true /\ e.1 ∉ Object_prototype_names)
    flatObject ->
  NoDup flatObject.*1 ->
  flattenToNestedObject flatObject
  = Returns (VObject (compactArrays <$> list_to_map flatObject)).
Proof.
  intros Hall Hnd. unfold flattenToNestedObject.
  rewrite (build_flat flatObject ∅ Hall). cbn [bind compactArrays].
  rewrite (entries_map_list_to_map flatObject ∅ Hnd).
  by rewrite (right_id_L ∅ (∪)).
Qed.

Lemma X6_witness :
  let m := [("name", VString "Alice");
            ("tags", VArray [Some (VString "a"); None; Some (VString "b")] ∅)] in
  Forall (fun e => flat_key e.1 = true /\ e.1 ∉ Object_prototype_names) m
  /\ NoDup m.*1
  /\ flattenToNestedObject m
     = Returns (VObject (compactArrays <$> list_to_map m)).
Proof.
  cbn zeta.
  assert (H1 : Forall
    (fun e => flat_key e.1 = true /\ e.1 ∉ Object_prototype_names)
    [("name", VString "Alice");
     ("tags", VArray [Some (VString "a"); None; Some (VString "b")] ∅)]).
  { repeat (apply Forall_cons; split;
            [split; [vm_compute; reflexivity|
                     apply (bool_decide_eq_false_1 _); vm_compute; reflexivity]|]).
    apply Forall_nil_2. }
  assert (H2 : NoDup
    [("name", VString "Alice");
     ("tags", VArray [Some (VString "a"); None; Some (VString "b")] ∅)].*1).
  { apply (bool_decide_eq_true_1 _). vm_compute. reflexivity. }
  exact (conj H1 (conj H2 (X6_keys_without_notation_pass_through _ H1 H2))).
Defined.

(** ** When decoding succeeds *)






(** X7.  On a flat object in which no path is a prefix of another (paths
    without names of Object.prototype, indices after the first segment
    written as array indices), decoding fails exactly when two paths ask
    for a Mapping and for a Sequence at one position, and the failure is
    the key-conflict error; otherwise it returns a tree.  It raises no
    TypeError. *)
Theorem X7_decoding_fails_exactly_on_conflicts
    (flatObject : list (string * value)) :
  Forall (fun e => regular (tokenize e.1) = true) flatObject ->
  pairwise (fun e1 e2 => separate (tokenize e1.1) (tokenize e2.1) = true)
    flatObject ->
  (has_conflict flatObject ->
   exists message, flattenToNestedObject flatObject = Throws (Error message))
  /\ (~ has_conflict flatObject ->
      exists t, flattenToNestedObject flatObject = Returns t)
  /\ flattenToNestedObject flatObject <> Throws TypeError.
Proof.
  intros Hreg Hsep.
  assert (Hthrows : has_conflict flatObject ->
    exists message, flattenToNestedObject flatObject = Throws (Error message)).
  { intros Hc.
    destruct (build_doomed flatObject (VObject ∅) Hreg Hsep)
      as (key & v & k & e & n & _ & _ & Hrun).
    { apply Forall_forall. intros e _. left. apply fits_root. }
    { by right. }
    eexists. unfold flattenToNestedObject. by rewrite Hrun. }
  assert (Hreturns : admissible flatObject ->
    exists t, flattenToNestedObject flatObject = Returns t).
  { intros Ha. eexists. by apply admissible_returns. }
  destruct (conflict_or_admissible flatObject Hreg Hsep) as [Hc|[Hn Ha]].
  - split; [done|]. split; [done|].
    destruct (Hthrows Hc) as [msg ->]. discriminate.
  - split; [done|]. split; [auto|].
    destruct (Hreturns Ha) as [t ->]. discriminate.
Qed.

Lemma X7_witness :
  let m := [("user.name", VString "Alice"); ("roles[0]", VString "admin")] in
  Forall (fun e => regular (tokenize e.1) = true) m
  /\ pairwise (fun e1 e2 => separate (tokenize e1.1) (tokenize e2.1) = true) m
  /\ ~ has_conflict m
  /\ exists t, flattenToNestedObject m = Returns t.
Proof.
  cbn zeta.
  assert (Hr : Forall (fun e => regular (tokenize e.1) = true)
    [("user.name", VString "Alice"); ("roles[0]", VString "admin")]).
  { repeat (apply Forall_cons; split; [vm_compute; reflexivity|]).
    apply Forall_nil_2. }
  assert (Hs : pairwise
    (fun e1 e2 => separate (tokenize e1.1) (tokenize e2.1) = true)
    [("user.name", VString "Alice"); ("roles[0]", VString "admin")]).
  { cbn [pairwise].
    repeat (split;
            [repeat (apply Forall_cons; split; [vm_compute; reflexivity|]);
             apply Forall_nil_2|]).
    exact I. }
  assert (Hn : ~ has_conflict
    [("user.name", VString "Alice"); ("roles[0]", VString "admin")]).
  { unfold has_conflict. cbn [some_pair].
    intros [H|[H|[]]]; apply Exists_exists in H as (y & Hy & Hc).
    - apply list_elem_of_singleton in Hy as ->. vm_compute in Hc. discriminate.
    - by apply elem_of_nil in Hy. }
  refine (conj Hr (conj Hs (conj Hn _))).
  exact (proj1 (proj2 (X7_decoding_fails_exactly_on_conflicts _ Hr Hs)) Hn).
Defined.

(** ** A value where a later path goes on *)

(** X8.  The conflict check takes every value that is not an array for an
    object.  When an entry has put a value at the property [a] of the
    root and a later path goes on from [a], with an index where the value
    is no array, or with a name where it is one, decoding fails with the
    key-conflict error; a string or a number at [a] is reported as "an
    object". *)
Theorem X8_value_on_a_path_is_checked_as_container
    (key1 key2 : string) (v1 v2 : value) (a k : string) (rest : list string) :
  tokenize key1 = [a] -> tokenize key2 = a :: k :: rest ->
  plain_key a = true -> isArray v1 <> isStrictIndex k ->
  flattenToNestedObject [(key1, v1); (key2, v2)]
  = Throws (Error (conflict_message a
                     (if isArray v1 then KArray else KObject) k
                     (expectedType (Some k)) key2)).
Proof.
  intros H1 H2 Ha Hk.
  unfold flattenToNestedObject. cbn [build bind]. rewrite H1, H2.
  rewrite (assign_last key1 v1 a (VObject ∅) a); [|done| |].
  2:{ intros _. by apply plain_key_not_builtin. }
  2:{ unfold slot. cbn [isArray]. by rewrite andb_false_r. }
  cbn [bind].
  assert (Hg : get_own (set_own (VObject ∅) a v1) a = Some v1)
    by (by apply get_set_own_eq).
  assert (Hc : isContainer (set_own (VObject ∅) a v1) = true) by done.
  cbn [assign]. rewrite Hc. cbn [negb]. rewrite Hg.
  rewrite bool_decide_eq_true_2 by eauto. cbn [negb andb].
  rewrite (bool_decide_eq_false_2 (k :: rest = [])) by done.
  cbn [negb andb head from_option id].
  rewrite bool_decide_eq_false_2; [done|].
  unfold expectedType. cbn [nextIsStrictIndex].
  destruct (isArray v1), (isStrictIndex k); congruence.
Qed.

Lemma X8_witness :
  tokenize "a" = ["a"] /\ tokenize "a[0]" = ["a"; "0"]
  /\ plain_key "a" = true /\ isArray (VString "x") <> isStrictIndex "0"
  /\ flattenToNestedObject [("a", VString "x"); ("a[0]", VString "y")]
     = Throws (Error "Key conflict: 'a' is already defined as an object, but next key '0' expects an array. Full key: a[0]").
Proof.
  assert (H1 : tokenize "a" = ["a"]) by (vm_compute; reflexivity).
  assert (H2 : tokenize "a[0]" = ["a"; "0"]) by (vm_compute; reflexivity).
  assert (H3 : plain_key "a" = true) by (vm_compute; reflexivity).
  assert (H4 : isArray (VString "x") <> isStrictIndex "0")
    by (vm_compute; discriminate).
  refine (conj H1 (conj H2 (conj H3 (conj H4 _)))).
  exact (X8_value_on_a_path_is_checked_as_container
           "a" "a[0]" (VString "x") (VString "y") "a" "0" [] H1 H2 H3 H4).
Defined.

(** ** Paths of names: what decoding puts is found *)

Lemma named_segments (s : list string) :
  named_path s = true ->
  s <> [] /\ Forall (fun k => isStrictIndex k = false
                              /\ k ∉ Object_prototype_names) s.
Proof.
  unfold named_path. intros [Hne Hall]%andb_prop.
  apply negb_true_iff, bool_decide_eq_false in Hne. split; [done|].
  apply Forall_forall. intros k Hk%list_elem_of_In.
  rewrite forallb_forall in Hall. apply Hall in Hk.
  apply andb_prop in Hk as [H1 H2].
  apply negb_true_iff in H1. apply negb_true_iff, bool_decide_eq_false in H2.
  done.
Qed.

Lemma named_regular (s : list string) :
  named_path s = true -> regular s = true.
Proof.
  intros [_ Hall]%named_segments. unfold regular, plain, canonical.
  apply andb_true_intro. split; apply forallb_forall; intros k Hk.
  - rewrite Forall_forall in Hall.
    destruct (Hall k (proj2 (list_elem_of_In _ _) Hk)) as [Hs Hn].
    unfold plain_key. rewrite Hs. cbn.
    rewrite andb_true_r. by apply negb_true_iff, bool_decide_eq_false.
  - assert (Hin : k ∈ s).
    { apply list_elem_of_In. destruct s; [done|]. cbn in Hk. by right. }
    rewrite Forall_forall in Hall. destruct (Hall k Hin) as [Hs _].
    unfold canonical_key. by rewrite Hs.
Qed.

Lemma named_not_conflicting (s1 : list string) :
  forall s2,
    Forall (fun k => isStrictIndex k = false) s1 ->
    Forall (fun k => isStrictIndex k = false) s2 ->
    conflicting s1 s2 = false.
Proof.
  induction s1 as [|k1 r1 IH]; intros [|k2 r2] H1 H2; try reflexivity.
  apply Forall_cons in H1 as [_ H1]. apply Forall_cons in H2 as [_ H2].
  cbn [conflicting]. rewrite (IH r2 H1 H2), orb_false_r.
  destruct r1 as [|n1 r1]; [by rewrite andb_false_r|].
  destruct r2 as [|n2 r2]; [by rewrite andb_false_r|].
  apply Forall_cons in H1 as [-> _]. apply Forall_cons in H2 as [-> _].
  rewrite (bool_decide_eq_true_2 (false = false)) by done.
  by rewrite andb_false_r.
Qed.

Lemma leads_ins (v : value) (s : list string) :
  forall t,
    s <> [] -> Forall (fun k => isStrictIndex k = false) s ->
    fits s t -> isArray t = false -> leads s (ins v s t) v.
Proof.
  induction s as [|k [|n rest] IH]; intros t Hne Hnames Hfit Harr; [done| |].
  - destruct Hfit as (Hc & _). destruct t; try discriminate.
    cbn. by rewrite lookup_insert_eq.
  - destruct Hfit as (Hc & _ & Hsub). destruct t as [| | | | |props|]; try discriminate.
    rewrite ins_descend. cbn [set_own leads get_own] in *.
    rewrite lookup_insert_eq.
    apply Forall_cons in Hnames as [_ Hnames].
    pose proof Hnames as Hn. apply Forall_cons in Hn as [Hn _].
    apply IH; [done|done| |].
    + destruct (props !! k) as [c|]; cbn [from_option id].
      * by destruct Hsub as (_ & _ & Hsub).
      * unfold expectedType. cbn [nextIsStrictIndex]. rewrite Hn.
        apply fits_root.
    + destruct (props !! k) as [c|]; cbn [from_option id].
      * destruct Hsub as (Hk & _). by rewrite Hk.
      * unfold expectedType. cbn [nextIsStrictIndex]. by rewrite Hn.
Qed.



Lemma leads_kept (v v' : value) (s : list string) :
  forall s' t,
    leads s t v -> separate s s' = true -> leads s (ins v' s' t) v.
Proof.
  induction s as [|k r IH]; intros s' t Hl Hsep.
  - by rewrite separate_nil_l in Hsep.
  - destruct s' as [|k' r']; [by rewrite separate_nil_r in Hsep|].
    destruct t as [| | | | |props|]; try done. cbn [leads] in Hl.
    destruct (props !! k) as [c|] eqn:Hk; [|done].
    destruct (decide (k = k')) as [<-|Hne].
    + apply separate_cons in Hsep as (n1 & r1 & n2 & r2 & -> & -> & Hsep).
      rewrite ins_descend. cbn [set_own get_own leads].
      rewrite lookup_insert_eq, Hk. cbn [from_option id]. by apply IH.
    + assert (Hset : exists x, ins v' (k' :: r') (VObject props)
                               = VObject (<[k' := x]> props)).
      { destruct r'; cbn; eauto. }
      destruct Hset as [x ->]. cbn [leads].
      rewrite lookup_insert_ne by done. by rewrite Hk.
Qed.

Lemma leads_foldl (s : list string) (v : value)
    (flatObject : list (string * value)) :
  forall t,
    leads s t v ->
    Forall (fun e => separate s (tokenize e.1) = true) flatObject ->
    leads s (foldl put t flatObject) v.
Proof.
  induction flatObject as [|e m IH]; intros t Hl Hall; [done|].
  apply Forall_cons in Hall as [He Hall]. cbn [foldl].
  apply IH; [|done]. unfold put. by apply leads_kept.
Qed.

Lemma leads_compactArrays (s : list string) (v : value) :
  forall t, leads s t v -> leads s (compactArrays t) (compactArrays v).
Proof.
  induction s as [|k r IH]; intros t Hl; [by rewrite Hl|].
  destruct t as [| | | | |props|]; try done. cbn [leads compactArrays] in *.
  rewrite lookup_fmap. destruct (props !! k) as [c|]; [|done].
  cbn. by apply IH.
Qed.

Lemma leads_get_path (s : list string) (v : value) :
  forall t, leads s t v -> get_path s t = Some v.
Proof.
  induction s as [|k r IH]; intros t Hl; [by rewrite Hl|].
  destruct t as [| | | | |props|]; try done. cbn [leads get_path get_own] in *.
  destruct (props !! k) as [c|]; [|done]. cbn. by apply IH.
Qed.

Lemma named_compatible (s1 s2 : list string) :
  named_path s1 = true -> named_path s2 = true -> separate s1 s2 = true ->
  compatible s1 s2 = true.
Proof.
  intros [_ H1]%named_segments [_ H2]%named_segments Hsep.
  unfold compatible. rewrite Hsep, named_not_conflicting; [done| |].
  - eapply Forall_impl; [exact H1|]. by intros k [? _].
  - eapply Forall_impl; [exact H2|]. by intros k [? _].
Qed.

Lemma leads_all (flatObject : list (string * value)) :
  forall t,
    isArray t = false ->
    Forall (fun e => named_path (tokenize e.1) = true) flatObject ->
    pairwise (fun e1 e2 => separate (tokenize e1.1) (tokenize e2.1) = true)
      flatObject ->
    Forall (fun e => fits (tokenize e.1) t) flatObject ->
    Forall (fun e => leads (tokenize e.1) (foldl put t flatObject) e.2)
      flatObject.
Proof.
  induction flatObject as [|e m IH]; intros t Harr Hnamed Hsep Hfit;
    [by constructor|].
  apply Forall_cons in Hnamed as [He Hnamed].
  apply Forall_cons in Hfit as [Hfe Hfit].
  destruct Hsep as [Hfirst Hsep]. cbn [foldl].
  destruct (named_segments _ He) as [Hne Hsegs].
  constructor.
  - apply leads_foldl; [|done]. unfold put. apply leads_ins; try done.
    eapply Forall_impl; [exact Hsegs|]. by intros k [? _].
  - apply IH; try done.
    + unfold put. by rewrite isArray_ins.
    + rewrite Forall_forall in *. intros e' Hin. unfold put.
      pose proof (named_regular _ He) as [_ Hc]%andb_prop.
      pose proof (named_regular _ (Hnamed e' Hin)) as [_ Hc']%andb_prop.
      apply fits_ins; try done; [|by apply Hfit].
      apply named_compatible; [done|by apply Hnamed|by apply Hfirst].
Qed.

(** X9.  On a flat object whose paths are made of names (no strict index,
    no name of Object.prototype) and in which no path is a prefix of
    another, decoding returns a tree, and the tree holds at the path of
    every entry the value of the entry, compacted. *)
Theorem X9_named_paths_hold_their_values
    (flatObject : list (string * value)) :
  Forall (fun e => named_path (tokenize e.1) = true) flatObject ->
  pairwise (fun e1 e2 => separate (tokenize e1.1) (tokenize e2.1) = true)
    flatObject ->
  exists t,
    flattenToNestedObject flatObject = Returns t
    /\ forall key v, (key, v) ∈ flatObject ->
                     get_path (tokenize key) t = Some (compactArrays v).
Proof.
  intros Hnamed Hsep.
  assert (Ha : admissible flatObject).
  { split.
    - eapply Forall_impl; [exact Hnamed|]. intros e. apply named_regular.
    - clear -Hnamed Hsep.
      induction flatObject as [|e m IH]; [done|].
      apply Forall_cons in Hnamed as [He Hnamed]. destruct Hsep as [Hf Hsep].
      split; [|by apply IH].
      rewrite Forall_forall in *. intros e' Hin.
      apply named_compatible; auto. }
  eexists. split; [by apply admissible_returns|].
  intros key v Hin.
  assert (Hfit : Forall (fun e => fits (tokenize e.1) (VObject ∅)) flatObject).
  { apply Forall_forall. intros e _. apply fits_root. }
  pose proof (leads_all flatObject (VObject ∅) eq_refl Hnamed Hsep Hfit) as Hall.
  rewrite Forall_forall in Hall.
  apply (leads_get_path (tokenize key)), leads_compactArrays.
  exact (Hall (key, v) Hin).
Qed.

Lemma X9_witness :
  let m := [("user.name", VString "Alice"); ("user.details.email", VString "e");
            ("title", VString "t")] in
  Forall (fun e => named_path (tokenize e.1) = true) m
  /\ pairwise (fun e1 e2 => separate (tokenize e1.1) (tokenize e2.1) = true) m
  /\ exists t,
       flattenToNestedObject m = Returns t
       /\ forall key v, (key, v) ∈ m ->
                        get_path (tokenize key) t = Some (compactArrays v).
Proof.
  cbn zeta.
  assert (Hn : Forall (fun e => named_path (tokenize e.1) = true)
    [("user.name", VString "Alice"); ("user.details.email", VString "e");
     ("title", VString "t")]).
  { repeat (apply Forall_cons; split; [vm_compute; reflexivity|]).
    apply Forall_nil_2. }
  assert (Hs : pairwise
    (fun e1 e2 => separate (tokenize e1.1) (tokenize e2.1) = true)
    [("user.name", VString "Alice"); ("user.details.email", VString "e");
     ("title", VString "t")]).
  { cbn [pairwise].
    repeat (split;
            [repeat (apply Forall_cons; split; [vm_compute; reflexivity|]);
             apply Forall_nil_2|]).
    exact I. }
  exact (conj Hn (conj Hs (X9_named_paths_hold_their_values _ Hn Hs))).
Defined.

(** ** Indexed keys: the values come in the order of the indices *)

Lemma array_index_strict (i : string) (n : nat) :
  array_index i = Some n ->
  isStrictIndex i = true /\ magnitude (Number i) < 2 ^ 32 - 1.
Proof.
  unfold array_index, isStrictIndex.
  destruct (isInteger (Number i) && ge_zero (Number i)); [|discriminate].
  destruct (Z.ltb_spec (magnitude (Number i)) (2 ^ 32 - 1)); [|discriminate].
  done.
Qed.

Lemma at_index_regular (l : string) (e : string * value) (n : nat) :
  plain_key l = true -> at_index l e n -> regular (tokenize e.1) = true.
Proof.
  intros Hl (i & -> & Hi). unfold regular, plain, canonical.
  cbn [forallb tail]. rewrite Hl. cbn [andb].
  destruct (array_index_strict i n Hi) as [Hs Hm].
  unfold plain_key, canonical_key. rewrite Hs. cbn [negb orb].
  rewrite (bool_decide_eq_false_2 (i ∈ Object_prototype_names)).
  2:{ by apply strict_not_builtin. }
  rewrite (bool_decide_eq_true_2 (is_Some (array_index i))) by eauto.
  cbn [negb andb]. rewrite !andb_true_r.
  apply Z.ltb_lt. unfold two53. lia.
Qed.

Lemma at_index_compatible (l : string) (e e' : string * value) (n n' : nat) :
  at_index l e n -> at_index l e' n' -> n <> n' ->
  compatible (tokenize e.1) (tokenize e'.1) = true.
Proof.
  intros (i & -> & Hi) (i' & -> & Hi') Hne.
  assert (Hii : i <> i') by congruence.
  destruct (array_index_strict i n Hi) as [Hs _].
  destruct (array_index_strict i' n' Hi') as [Hs' _].
  unfold compatible, separate. cbn [is_prefix conflicting].
  rewrite !(bool_decide_eq_true_2 (l = l)) by done.
  rewrite (bool_decide_eq_false_2 (i = i')) by done.
  rewrite (bool_decide_eq_false_2 (i' = i)) by done.
  rewrite Hs, Hs'. by rewrite (bool_decide_eq_true_2 (true = true)).
Qed.

Lemma indexed_admissible (l : string) (flatObject : list (string * value))
    (idx : list nat) :
  plain_key l = true -> Forall2 (at_index l) flatObject idx ->
  pairwise lt idx -> admissible flatObject.
Proof.
  intros Hl Hall Hsorted. split.
  - clear Hsorted.
    induction Hall as [|e n m idx He _ IH]; [by constructor|].
    constructor; [|done]. by eapply at_index_regular.
  - revert Hsorted. induction Hall as [|e n m idx He Hall IH]; [done|].
    intros [Hn Hsorted]. split; [|by apply IH].
    clear IH Hsorted. induction Hall as [|e' n' m idx He' Hall IH];
      [by constructor|].
    apply Forall_cons in Hn as [Hlt Hn]. constructor; [|by apply IH].
    eapply at_index_compatible; [done|done|lia].
Qed.

Lemma remove_holes_app (a b : list (option value)) :
  remove_holes (a ++ b) = remove_holes a ++ remove_holes b.
Proof. apply omap_app. Qed.

Lemma remove_holes_replicate (n : nat) : remove_holes (replicate n None) = [].
Proof. induction n; [done|]. exact IHn. Qed.

Lemma put_indexed (l : string) (props : gmap string value)
    (flatObject : list (string * value)) (idx : list nat) :
  Forall2 (at_index l) flatObject idx ->
  forall elems,
    pairwise lt idx -> Forall (fun n => (length elems <= n)%nat) idx ->
    exists elems',
      foldl put (VObject (<[l := VArray elems ∅]> props)) flatObject
      = VObject (<[l := VArray elems' ∅]> props)
      /\ remove_holes elems' = remove_holes elems ++ flatObject.*2.
Proof.
  induction 1 as [|[key v] n m idx (i & Hkey & Hi) _ IH]; intros elems Hs Hlen.
  - exists elems. by rewrite app_nil_r.
  - destruct Hs as [Hn Hs].
    apply Forall_cons in Hlen as [Hle Hlen].
    cbn [foldl fst snd fmap list_fmap] in *. unfold put at 2. cbn [fst snd].
    rewrite Hkey, ins_descend. cbn [get_own set_own ins].
    rewrite lookup_insert_eq. cbn [from_option id set_own]. rewrite Hi.
    rewrite insert_insert_eq.
    destruct (IH (set_index n v elems) Hs) as (elems' & Hrun & Hholes).
    { rewrite set_index_length.
      eapply Forall_impl; [exact Hn|]. intros n' Hlt. cbn beta in *. lia. }
    exists elems'. split; [exact Hrun|]. rewrite Hholes.
    unfold set_index. rewrite decide_False by lia.
    rewrite !remove_holes_app, remove_holes_replicate.
    cbn. by rewrite <- app_assoc.
Qed.

Lemma filter_defined (vs : list value) :
  Forall (fun v => v <> VUndefined) vs ->
  filter (fun val => val <> VUndefined) vs = vs.
Proof.
  induction 1 as [|v vs Hv _ IH]; [done|].
  rewrite filter_cons_True by done. by f_equal.
Qed.

(** X10.  Entries that assign positions of one array, given by increasing
    index and processed in any order, decode to the array of their values
    in the order of the indices, whatever gaps the indices leave; each
    value is compacted, and none of them is [undefined]. *)
Theorem X10_indexed_values_come_in_index_order
    (l : string) (flatObject permuted : list (string * value))
    (idx : list nat) :
  plain_key l = true -> flatObject <> [] ->
  Forall2 (at_index l) flatObject idx -> pairwise lt idx ->
  Forall (fun e => e.2 <> VUndefined) flatObject ->
  Permutation flatObject permuted ->
  flattenToNestedObject permuted
  = Returns (VObject {[ l :=
      VArray (Some <$> (compactArrays <$> flatObject.*2)) ∅ ]}).
Proof.
  intros Hl Hne Hall Hsorted Hdef Hperm.
  pose proof (indexed_admissible l flatObject idx Hl Hall Hsorted) as Ha.
  rewrite (admissible_returns permuted (admissible_perm _ _ Hperm Ha)).
  assert (Horder : foldl put (VObject ∅) permuted
                   = foldl put (VObject ∅) flatObject).
  { destruct Ha as [_ Hpw].
    eapply (foldl_perm put _ flatObject permuted); [| |exact Hperm|exact Hpw].
    - intros x y H. cbn beta in *. by rewrite compatible_sym.
    - intros t x y. apply put_commute. }
  rewrite Horder. clear Horder Hperm Ha. f_equal.
  destruct Hall as [|[key v] n m idx' (i & Hkey & Hi) Hall]; [done|].
  destruct Hsorted as [Hn Hsorted].
  cbn [foldl fst snd] in *. unfold put at 2. cbn [fst snd].
  rewrite Hkey, ins_descend. cbn [get_own set_own ins].
  rewrite lookup_empty. cbn [from_option id].
  destruct (array_index_strict i n Hi) as [Hs _].
  unfold expectedType. cbn [nextIsStrictIndex]. rewrite Hs.
  cbn [empty_of set_own]. rewrite Hi.
  destruct (put_indexed l ∅ m idx' Hall (set_index n v []) Hsorted)
    as (elems' & -> & Hholes).
  { rewrite set_index_length. cbn [length].
    eapply Forall_impl; [exact Hn|]. intros n' Hlt. cbn beta in *. lia. }
  cbn [compactArrays]. rewrite fmap_insert, fmap_empty, insert_empty.
  cbn [compactArrays]. rewrite compact_elems, Hholes.
  unfold set_index. cbn [length]. rewrite decide_False by lia.
  cbn [app]. rewrite remove_holes_app, remove_holes_replicate.
  change (remove_holes [Some v]) with [v]. cbn [app fmap list_fmap snd].
  apply Forall_cons in Hdef as [Hv Hdef]. cbn [snd] in Hv.
  rewrite filter_cons_True by done.
  rewrite filter_defined; [done|].
  apply Forall_fmap. exact Hdef.
Qed.

Lemma X10_witness :
  let m := [("list[1]", VString "a"); ("list[3]", VNull);
            ("list[10]", VBool false)] in
  let m' := [("list[10]", VBool false); ("list[1]", VString "a");
             ("list[3]", VNull)] in
  plain_key "list" = true /\ m <> []
  /\ Forall2 (at_index "list") m [1; 3; 10]%nat
  /\ pairwise lt [1; 3; 10]%nat
  /\ Forall (fun e => e.2 <> VUndefined) m
  /\ Permutation m m'
  /\ flattenToNestedObject m'
     = Returns (VObject {[ "list" :=
         VArray [Some (VString "a"); Some VNull; Some (VBool false)] ∅ ]}).
Proof.
  cbn zeta.
  assert (H1 : plain_key "list" = true) by (vm_compute; reflexivity).
  assert (H2 : [("list[1]", VString "a"); ("list[3]", VNull);
                ("list[10]", VBool false)] <> []) by discriminate.
  assert (H3 : Forall2 (at_index "list")
                 [("list[1]", VString "a"); ("list[3]", VNull);
                  ("list[10]", VBool false)] [1; 3; 10]%nat).
  { apply Forall2_cons. split; [exists "1"; split; vm_compute; reflexivity|].
    apply Forall2_cons. split; [exists "3"; split; vm_compute; reflexivity|].
    apply Forall2_cons. split; [exists "10"; split; vm_compute; reflexivity|].
    apply Forall2_nil_2. }
  assert (H4 : pairwise lt [1; 3; 10]%nat).
  { cbn [pairwise]. repeat split; repeat constructor. }
  assert (H5 : Forall (fun e : string * value => e.2 <> VUndefined)
                 [("list[1]", VString "a"); ("list[3]", VNull);
                  ("list[10]", VBool false)]).
  { repeat (apply Forall_cons; split; [discriminate|]). apply Forall_nil_2. }
  assert (H6 : Permutation
                 [("list[1]", VString "a"); ("list[3]", VNull);
                  ("list[10]", VBool false)]
                 [("list[10]", VBool false); ("list[1]", VString "a");
                  ("list[3]", VNull)]).
  { apply (Permutation_app_comm
             [("list[1]", VString "a"); ("list[3]", VNull)]
             [("list[10]", VBool false)]). }
  refine (conj H1 (conj H2 (conj H3 (conj H4 (conj H5 (conj H6 _)))))).
  exact (X10_indexed_values_come_in_index_order "list" _ _ _
           H1 H2 H3 H4 H5 H6).
Defined.

(** ** Positions that are no array indices *)

(** X11.  An array index is an integer below 2^32 - 1.  A value assigned
    to an array at an integer position that is no array index becomes a
    property of the array beside its elements, and compaction, which
    keeps the elements only, drops it: the entry decodes to an empty
    array. *)
Theorem X11_position_past_the_array_indices_is_lost
    (key l i p : string) (v : value) :
  tokenize key = [l; i] -> plain_key l = true -> isStrictIndex i = true ->
  integer_toString (Number i) = Some p -> array_index p = None ->
  flattenToNestedObject [(key, v)] = Returns (VObject {[ l := VArray [] ∅ ]}).
Proof.
  intros Hkey Hl Hi Hp Hnone.
  unfold flattenToNestedObject. cbn [build]. rewrite Hkey.
  rewrite (assign_descend key v l i [] (VObject ∅) l); [|done| | |].
  2:{ intros _. by apply plain_key_not_builtin. }
  2:{ intros c Hc. by rewrite (root_vacant l) in Hc. }
  2:{ unfold slot. cbn [isArray]. by rewrite andb_false_r. }
  rewrite prepared_absent by (done || apply root_vacant).
  rewrite get_set_own_eq by done. cbn [from_option id].
  unfold expectedType. cbn [nextIsStrictIndex]. rewrite Hi. cbn [empty_of].
  rewrite (assign_last key v i (VArray [] ∅) p); [|done| |].
  2:{ intros _. unfold builtin_name.
      destruct (strict_not_builtin i Hi) as [Ho Ha].
      rewrite (bool_decide_eq_false_2 _ Ho), (bool_decide_eq_false_2 _ Ha).
      by rewrite andb_false_r. }
  2:{ unfold slot. rewrite Hi. cbn [isArray andb]. exact Hp. }
  cbn [bind set_own]. rewrite Hnone. cbn [compactArrays].
  rewrite insert_insert_eq, fmap_insert, fmap_empty, insert_empty.
  reflexivity.
Qed.

Lemma X11_witness :
  tokenize "list[4294967295]" = ["list"; "4294967295"]
  /\ plain_key "list" = true /\ isStrictIndex "4294967295" = true
  /\ integer_toString (Number "4294967295") = Some "4294967295"
  /\ array_index "4294967295" = None
  /\ flattenToNestedObject [("list[4294967295]", VString "x")]
     = Returns (VObject {[ "list" := VArray [] ∅ ]}).
Proof.
  assert (H1 : tokenize "list[4294967295]" = ["list"; "4294967295"])
    by (vm_compute; reflexivity).
  assert (H2 : plain_key "list" = true) by (vm_compute; reflexivity).
  assert (H3 : isStrictIndex "4294967295" = true) by (vm_compute; reflexivity).
  assert (H4 : integer_toString (Number "4294967295") = Some "4294967295")
    by (vm_compute; reflexivity).
  assert (H5 : array_index "4294967295" = None) by (vm_compute; reflexivity).
  refine (conj H1 (conj H2 (conj H3 (conj H4 (conj H5 _))))).
  exact (X11_position_past_the_array_indices_is_lost
           "list[4294967295]" "list" "4294967295" "4294967295" (VString "x")
           H1 H2 H3 H4 H5).
Defined.

(** ** A falsy value at a position of an array *)

Lemma descend_absent (key : string) (v : value) (k n : string)
    (rest : list string) (t : value) :
  isContainer t = true -> get_own t k = None -> builtin_name t k = false ->
  slot t k = Some k ->
  assign key v (k :: n :: rest) t
  = (child <- assign key v (n :: rest) (empty_of (expectedType (Some n))) ;;
     Returns (set_own t k child)).
Proof.
  intros Ht Hk Hb Hs.
  rewrite (assign_descend key v k n rest t k); [|done|done| |done].
  2:{ intros c Hc. congruence. }
  rewrite prepared_absent by done.
  rewrite get_set_own_eq by done. cbn [from_option id].
  destruct (assign key v (n :: rest) (empty_of (expectedType (Some n))));
    cbn [bind]; [|done|done].
  by rewrite set_set_own_eq.
Qed.

Lemma descend_falsy (key : string) (v : value) (i n : string)
    (rest : list string) (t c : value) :
  isArray t = true -> is_Some (array_index i) -> get_own t i = Some c ->
  truthy c = false -> isStrictIndex n = false ->
  assign key v (i :: n :: rest) t
  = (child <- assign key v (n :: rest) (VObject ∅) ;;
     Returns (set_own t i child)).
Proof.
  intros Ht Hi Hc Hfalsy Hn.
  assert (Hcont : isContainer t = true) by (by apply isArray_isContainer).
  assert (Hstrict : isStrictIndex i = true).
  { destruct Hi as [idx Hi]. by destruct (array_index_strict i idx Hi). }
  rewrite (assign_descend key v i n rest t i); [|done|congruence| |].
  2:{ intros c' Hc'. rewrite Hc in Hc'. injection Hc' as <-. rewrite Hn.
      destruct c; try done. }
  2:{ unfold slot. rewrite Hstrict, Ht. cbn [andb].
      by apply array_index_toString. }
  unfold prepared. rewrite Hc, Hstrict, Ht. cbn [andb from_option id].
  rewrite Hc. cbn [from_option id]. rewrite Hfalsy. unfold expectedType. cbn [nextIsStrictIndex]. rewrite Hn.
  cbn [empty_of]. rewrite get_set_own_eq by done. cbn [from_option id].
  destruct (assign key v (n :: rest) (VObject ∅)); cbn [bind]; [|done|done].
  by rewrite set_set_own_eq.
Qed.

(** X12.  A falsy value at a position of an array (0, the empty string,
    null, false, undefined) is replaced without notice when a later path
    goes on from the position with a name: the two entries decode as the
    later one alone does. *)
Theorem X12_falsy_array_element_is_replaced
    (key1 key2 : string) (v1 v2 : value) (l i n : string)
    (rest : list string) :
  tokenize key1 = [l; i] -> tokenize key2 = l :: i :: n :: rest ->
  plain_key l = true -> is_Some (array_index i) ->
  isStrictIndex n = false -> truthy v1 = false ->
  flattenToNestedObject [(key1, v1); (key2, v2)]
  = flattenToNestedObject [(key2, v2)].
Proof.
  intros H1 H2 Hl Hi Hn Hfalsy.
  assert (Hstrict : isStrictIndex i = true).
  { destruct Hi as [idx Hi]. by destruct (array_index_strict i idx Hi). }
  assert (Hroot : slot (VObject ∅) l = Some l).
  { unfold slot. cbn [isArray]. by rewrite andb_false_r. }
  assert (Hempty : empty_of (expectedType (Some i)) = VArray [] ∅).
  { unfold expectedType. cbn [nextIsStrictIndex]. by rewrite Hstrict. }
  assert (Hbi : builtin_name (VArray [] ∅) i = false).
  { unfold builtin_name. destruct (strict_not_builtin i Hstrict) as [Ho Ha].
    rewrite (bool_decide_eq_false_2 _ Ho), (bool_decide_eq_false_2 _ Ha).
    by rewrite andb_false_r. }
  assert (Hsi : slot (VArray [] ∅) i = Some i).
  { unfold slot. rewrite Hstrict. cbn [isArray andb].
    by apply array_index_toString. }
  assert (Hnone : get_own (VArray [] ∅) i = None).
  { cbn. by destruct (array_index i). }
  unfold flattenToNestedObject. cbn [build]. rewrite H1, H2.
  (* the first entry *)
  rewrite (descend_absent key1 v1 l i [] (VObject ∅));
    [|done|apply root_vacant|by apply plain_key_not_builtin|done].
  rewrite Hempty.
  rewrite (assign_last key1 v1 i (VArray [] ∅) i); [|done|done|done].
  cbn [bind].
  (* the second entry, after the first and alone *)
  set (a1 := set_own (VArray [] ∅) i v1).
  assert (Ha1 : isArray a1 = true) by (unfold a1; by rewrite isArray_set_own).
  assert (Hg1 : get_own a1 i = Some v1)
    by (unfold a1; by rewrite get_set_own_eq).
  rewrite (assign_descend key2 v2 l i (n :: rest) (set_own (VObject ∅) l a1) l);
    [|done| | |done].
  2:{ intros Hc. by rewrite get_set_own_eq in Hc. }
  2:{ intros c Hc. rewrite get_set_own_eq in Hc by done.
      injection Hc as <-. by rewrite Ha1, Hstrict. }
  rewrite (prepared_again _ l l i a1 a1);
    [|by rewrite get_set_own_eq|by rewrite get_set_own_eq|
     by apply isArray_isContainer].
  rewrite get_set_own_eq by done. cbn [from_option id].
  rewrite (descend_falsy key2 v2 i n rest a1 v1) by done.
  rewrite (descend_absent key2 v2 l i (n :: rest) (VObject ∅));
    [|done|apply root_vacant|by apply plain_key_not_builtin|done].
  rewrite Hempty.
  rewrite (descend_absent key2 v2 i n rest (VArray [] ∅)) by done.
  unfold expectedType at 1. cbn [nextIsStrictIndex]. rewrite Hn.
  cbn [empty_of].
  destruct (assign key2 v2 (n :: rest) (VObject ∅)) as [child|e|];
    cbn [bind]; [|done|done].
  unfold a1. by rewrite !set_set_own_eq.
Qed.

Lemma X12_witness :
  tokenize "a[0]" = ["a"; "0"] /\ tokenize "a[0].n" = ["a"; "0"; "n"]
  /\ plain_key "a" = true /\ is_Some (array_index "0")
  /\ isStrictIndex "n" = false /\ truthy (VNumber (Fin false 0 0)) = false
  /\ flattenToNestedObject
       [("a[0]", VNumber (Fin false 0 0)); ("a[0].n", VString "y")]
     = flattenToNestedObject [("a[0].n", VString "y")].
Proof.
  assert (H1 : tokenize "a[0]" = ["a"; "0"]) by (vm_compute; reflexivity).
  assert (H2 : tokenize "a[0].n" = ["a"; "0"; "n"]) by (vm_compute; reflexivity).
  assert (H3 : plain_key "a" = true) by (vm_compute; reflexivity).
  assert (H4 : is_Some (array_index "0")).
  { exists 0%nat. vm_compute. reflexivity. }
  assert (H5 : isStrictIndex "n" = false) by (vm_compute; reflexivity).
  assert (H6 : truthy (VNumber (Fin false 0 0)) = false) by reflexivity.
  refine (conj H1 (conj H2 (conj H3 (conj H4 (conj H5 (conj H6 _)))))).
  exact (X12_falsy_array_element_is_replaced
           "a[0]" "a[0].n" (VNumber (Fin false 0 0)) (VString "y")
           "a" "0" "n" [] H1 H2 H3 H4 H5 H6).
Defined.

(** ** Two keys for one position *)

Lemma ins_ins (v1 v2 : value) (s : list string) :
  forall t, ins v2 s (ins v1 s t) = ins v2 s t.
Proof.
  induction s as [|k [|n r] IH]; intros t; [done| |].
  - cbn [ins]. apply set_set_own_eq.
  - destruct (isContainer t) eqn:Ht.
    2:{ rewrite !ins_descend. by rewrite !(set_own_scalar t) by done. }
    rewrite (ins_descend v1). rewrite (ins_descend v2 k n r (set_own _ _ _)).
    rewrite get_set_own_eq by done. cbn [from_option id].
    rewrite set_set_own_eq, IH. by rewrite <- ins_descend.
Qed.


(** X13.  Two keys that name one position: the later entry wins.  When the
    keys of two entries have the same segments, as "a.b" and "a[b]" have,
    the two decode as the second alone does, to a tree. *)
Theorem X13_later_entry_wins_at_one_position
    (key1 key2 : string) (v1 v2 : value) :
  tokenize key1 = tokenize key2 -> regular (tokenize key2) = true ->
  (exists t, flattenToNestedObject [(key2, v2)] = Returns t)
  /\ flattenToNestedObject [(key1, v1); (key2, v2)]
     = flattenToNestedObject [(key2, v2)].
Proof.
  intros Hsame [Hp Hc]%andb_prop.
  unfold flattenToNestedObject. cbn [build]. rewrite Hsame.
  rewrite (assign_ins key1 v1 _ (VObject ∅) Hp Hc (fits_root _)).
  rewrite (assign_ins key2 v2 _ (VObject ∅) Hp Hc (fits_root _)).
  cbn [bind].
  rewrite (assign_ins key2 v2 _ _ Hp Hc
             (fits_ins_same v1 _ _ Hc (fits_root _))).
  cbn [bind]. rewrite ins_ins. eauto.
Qed.

Lemma X13_witness :
  tokenize "a.b" = tokenize "a[b]" /\ regular (tokenize "a[b]") = true
  /\ flattenToNestedObject [("a.b", VString "1"); ("a[b]", VString "2")]
     = flattenToNestedObject [("a[b]", VString "2")].
Proof.
  assert (H1 : tokenize "a.b" = tokenize "a[b]") by (vm_compute; reflexivity).
  assert (H2 : regular (tokenize "a[b]") = true) by (vm_compute; reflexivity).
  refine (conj H1 (conj H2 _)).
  exact (proj2 (X13_later_entry_wins_at_one_position
                  "a.b" "a[b]" (VString "1") (VString "2") H1 H2)).
Defined.

(** ** An object given as a value *)

(** X14.  A path that goes on, with a name, from an object that an earlier
    entry has given as its value adds its value to that object: the
    object of the flat object is part of the tree. *)
Theorem X14_path_extends_an_object_value
    (key1 key2 : string) (props : gmap string value) (v2 : value)
    (a b : string) :
  tokenize key1 = [a] -> tokenize key2 = [a; b] ->
  plain_key a = true -> plain_key b = true -> isStrictIndex b = false ->
  flattenToNestedObject [(key1, VObject props); (key2, v2)]
  = Returns (VObject {[ a := compactArrays (VObject (<[b := v2]> props)) ]}).
Proof.
  intros H1 H2 Ha Hb Hname.
  unfold flattenToNestedObject. cbn [build]. rewrite H1, H2.
  rewrite (assign_last key1 (VObject props) a (VObject ∅) a); [|done| |].
  2:{ intros _. by apply plain_key_not_builtin. }
  2:{ unfold slot. cbn [isArray]. by rewrite andb_false_r. }
  cbn [bind].
  rewrite (assign_descend key2 v2 a b [] (set_own (VObject ∅) a (VObject props)) a);
    [|done| | |].
  2:{ intros Hc. by rewrite get_set_own_eq in Hc. }
  2:{ intros c Hc. rewrite get_set_own_eq in Hc by done.
      injection Hc as <-. by rewrite Hname. }
  2:{ unfold slot. cbn [set_own isArray]. by rewrite andb_false_r. }
  rewrite (prepared_again _ a a b (VObject props) (VObject props));
    [|by rewrite get_set_own_eq|by rewrite get_set_own_eq|done].
  rewrite get_set_own_eq by done. cbn [from_option id].
  rewrite (assign_last key2 v2 b (VObject props) b); [|done| |].
  2:{ intros _. by apply plain_key_not_builtin. }
  2:{ unfold slot. cbn [isArray]. by rewrite andb_false_r. }
  cbn [bind]. rewrite set_set_own_eq. cbn [set_own compactArrays].
  by rewrite fmap_insert, fmap_empty, insert_empty.
Qed.

Lemma X14_witness :
  tokenize "user" = ["user"] /\ tokenize "user.role" = ["user"; "role"]
  /\ plain_key "user" = true /\ plain_key "role" = true
  /\ isStrictIndex "role" = false
  /\ flattenToNestedObject
       [("user", VObject {[ "name" := VString "Alice" ]});
        ("user.role", VString "admin")]
     = Returns (VObject {[ "user" :=
         compactArrays (VObject (<[ "role" := VString "admin" ]>
                                   {[ "name" := VString "Alice" ]})) ]}).
Proof.
  assert (H1 : tokenize "user" = ["user"]) by (vm_compute; reflexivity).
  assert (H2 : tokenize "user.role" = ["user"; "role"])
    by (vm_compute; reflexivity).
  assert (H3 : plain_key "user" = true) by (vm_compute; reflexivity).
  assert (H4 : plain_key "role" = true) by (vm_compute; reflexivity).
  assert (H5 : isStrictIndex "role" = false) by (vm_compute; reflexivity).
  refine (conj H1 (conj H2 (conj H3 (conj H4 (conj H5 _))))).
  exact (X14_path_extends_an_object_value "user" "user.role"
           {[ "name" := VString "Alice" ]} (VString "admin") "user" "role"
           H1 H2 H3 H4 H5).
Defined.

(** ** Entries about different properties of the root *)

(* one entry at the root: it reads and writes the property of its first
   segment only *)
Lemma assign_root (key : string) (v : value) (k : string)
    (rest : list string) (p q : gmap string value) :
  q !! k = None ->
  exists oc : outcome value,
    assign key v (k :: rest) (VObject p)
    = (c <- oc ;; Returns (VObject (<[k := c]> p)))
    /\ assign key v (k :: rest) (VObject (p ∪ q))
       = (c <- oc ;; Returns (VObject (<[k := c]> (p ∪ q)))).
Proof.
  intros Hq. cbn [assign isContainer negb get_own isArray].
  rewrite (lookup_union_l p q k Hq). rewrite andb_false_r.
  unfold builtin_name. cbn [isArray andb]. rewrite !orb_false_r.
  destruct (p !! k) as [c0|] eqn:Hk.
  - rewrite (bool_decide_eq_true_2 (is_Some (Some c0))) by eauto.
    cbn [negb andb].
    destruct (negb (bool_decide (rest = []))
              && negb (bool_decide ((if isArray c0 then KArray else KObject)
                                    = expectedType (head rest)))).
    + exists (Throws (Error (conflict_message k
                (if isArray c0 then KArray else KObject)
                (default "" (head rest)) (expectedType (head rest)) key))).
      by split.
    + destruct (bool_decide (rest = [])).
      * exists (Returns v). by split.
      * cbn [set_own get_own]. rewrite (lookup_union_l p q k Hq), Hk.
        cbn [from_option id].
        exists (assign key v rest c0). by split.
  - rewrite (bool_decide_eq_false_2 (is_Some None)) by (by intros [? ?]).
    cbn [negb andb].
    destruct (bool_decide (k ∈ Object_prototype_names)).
    + exists Escapes. by split.
    + destruct (bool_decide (rest = [])).
      * exists (Returns v). by split.
      * cbn [set_own get_own]. rewrite !lookup_insert_eq.
        cbn [from_option id].
        exists (assign key v rest (empty_of (expectedType (head rest)))).
        split.
        -- destruct (assign key v rest _); cbn [bind]; try done.
           by rewrite insert_insert_eq.
        -- destruct (assign key v rest _); cbn [bind]; try done.
           by rewrite insert_insert_eq.
Qed.

Lemma build_frame (flatObject : list (string * value)) :
  forall p q : gmap string value,
    Forall (fun e => forall k, top_segment e = Some k -> q !! k = None)
      flatObject ->
    exists oc : outcome (gmap string value),
      build flatObject (VObject p) = (p' <- oc ;; Returns (VObject p'))
      /\ build flatObject (VObject (p ∪ q))
         = (p' <- oc ;; Returns (VObject (p' ∪ q)))
      /\ forall p', oc = Returns p' ->
           forall k, Forall (fun e => top_segment e <> Some k) flatObject ->
                     p' !! k = p !! k.
Proof.
  induction flatObject as [|[key v] m IH]; intros p q Hq.
  - exists (Returns p). repeat split. by intros p' [= <-].
  - apply Forall_cons in Hq as [Hkey Hq]. unfold top_segment in Hkey.
    cbn [fst] in Hkey. cbn [build].
    destruct (tokenize key) as [|k rest] eqn:Htok.
    + cbn [assign bind]. destruct (IH p q Hq) as (oc & H1 & H2 & H3).
      exists oc. split; [done|]. split; [done|].
      intros p' Hp' k Hk. apply Forall_cons in Hk as [_ Hk]. by eapply H3.
    + destruct (assign_root key v k rest p q (Hkey k eq_refl))
        as (oc1 & -> & ->).
      destruct oc1 as [c|e|]; cbn [bind].
      * rewrite insert_union_l.
        destruct (IH (<[k := c]> p) q Hq) as (oc & H1 & H2 & H3).
        exists oc. split; [done|]. split; [done|].
        intros p' Hp' k' Hk'. apply Forall_cons in Hk' as [Hne Hk'].
        rewrite (H3 p' Hp' k' Hk'). apply lookup_insert_ne.
        unfold top_segment in Hne. cbn [fst] in Hne. rewrite Htok in Hne.
        cbn in Hne. congruence.
      * exists (Throws e). by repeat split.
      * exists Escapes. by repeat split.
Qed.

(** X15.  Entries about different properties of the root do not touch one
    another.  When no first segment of the one flat object is a first
    segment of the other, the two together decode to the object that has
    the properties of both results; and if the first decodes and the
    second does not, the two together end as the second alone. *)
Theorem X15_entries_of_different_properties_decode_apart
    (first second : list (string * value)) :
  Forall (fun e2 => Forall (fun e1 => top_segment e1 <> top_segment e2) first)
    second ->
  (forall p1 p2 : gmap string value,
      flattenToNestedObject first = Returns (VObject p1) ->
      flattenToNestedObject second = Returns (VObject p2) ->
      p1 ##ₘ p2
      /\ flattenToNestedObject (first ++ second) = Returns (VObject (p1 ∪ p2)))
  /\ (forall (t1 : value) (e : exn),
         flattenToNestedObject first = Returns t1 ->
         flattenToNestedObject second = Throws e ->
         flattenToNestedObject (first ++ second) = Throws e).
Proof.
  intros Hapart.
  destruct (build_frame first ∅ ∅) as (oc1 & Hb1 & _ & Hkeep1).
  { apply Forall_forall. intros e _ k _. apply lookup_empty. }
  unfold flattenToNestedObject. rewrite build_app, Hb1.
  destruct oc1 as [q1|e1|]; cbn [bind];
    [|split; intros; discriminate|split; intros; discriminate].
  pose proof (Hkeep1 q1 eq_refl) as Hq1. clear Hkeep1.
  assert (Hfree : Forall (fun e => forall k, top_segment e = Some k ->
                                             q1 !! k = None) second).
  { rewrite Forall_forall in *. intros e2 He2 k Hk.
    rewrite Hq1; [apply lookup_empty|].
    pose proof (Hapart e2 He2) as H. rewrite Forall_forall in *.
    intros e1 He1. rewrite <- Hk. by apply H. }
  destruct (build_frame second ∅ q1 Hfree) as (oc2 & Hb2 & Hb2' & Hkeep2).
  rewrite (left_id_L ∅ (∪)) in Hb2'. rewrite Hb2, Hb2'.
  destruct oc2 as [q2|e2|]; cbn [bind].
  - split; [|intros; discriminate].
    intros p1 p2 [= <-] [= <-].
    assert (Hd : q1 ##ₘ q2).
    { apply map_disjoint_alt. intros k.
      destruct (q1 !! k) as [c|] eqn:Hk; [right|by left].
      rewrite (Hkeep2 q2 eq_refl k); [apply lookup_empty|].
      apply Forall_forall. intros e He Htop.
      rewrite Forall_forall in Hfree. rewrite (Hfree e He k Htop) in Hk.
      discriminate. }
    split; [by apply map_disjoint_fmap|].
    cbn [compactArrays]. rewrite map_fmap_union.
    by rewrite (map_union_comm (compactArrays <$> q2))
      by (by apply map_disjoint_fmap).
  - split; [intros; discriminate|]. by intros t1 e _ [= <-].
  - split; intros; discriminate.
Qed.

Lemma X15_witness :
  let first := [("user.name", VString "Alice")] in
  let second := [("roles[0]", VString "admin")] in
  Forall (fun e2 => Forall (fun e1 => top_segment e1 <> top_segment e2) first)
    second
  /\ flattenToNestedObject first
     = Returns (VObject {[ "user" := VObject {[ "name" := VString "Alice" ]} ]})
  /\ flattenToNestedObject second
     = Returns (VObject {[ "roles" := VArray [Some (VString "admin")] ∅ ]})
  /\ flattenToNestedObject (first ++ second)
     = Returns (VObject
         ({[ "user" := VObject {[ "name" := VString "Alice" ]} ]}
          ∪ {[ "roles" := VArray [Some (VString "admin")] ∅ ]})).
Proof.
  cbn zeta.
  assert (H1 : Forall
    (fun e2 => Forall (fun e1 => top_segment e1 <> top_segment e2)
                 [("user.name", VString "Alice")])
    [("roles[0]", VString "admin")]).
  { apply Forall_cons. split; [|apply Forall_nil_2].
    apply Forall_cons. split; [|apply Forall_nil_2].
    vm_compute. discriminate. }
  assert (H2 : flattenToNestedObject [("user.name", VString "Alice")]
    = Returns (VObject {[ "user" := VObject {[ "name" := VString "Alice" ]} ]}))
    by (vm_compute; reflexivity).
  assert (H3 : flattenToNestedObject [("roles[0]", VString "admin")]
    = Returns (VObject {[ "roles" := VArray [Some (VString "admin")] ∅ ]}))
    by (vm_compute; reflexivity).
  refine (conj H1 (conj H2 (conj H3 _))).
  exact (proj2 (proj1 (X15_entries_of_different_properties_decode_apart
                         _ _ H1) _ _ H2 H3)).
Defined.

(** ** The entries of one array, and what compaction keeps of them *)













(** * Properties of the sanitizer *)

Import Sanitizer Issues.

Lemma restricted_header (t : target) (fields : list string) :
  restricted t = Some fields -> t = header /\ fields = ["cookie"].
Proof. destruct t; cbn; intros H; try discriminate. by injection H as <-. Qed.

(** C7.  When the target has no entry in RESTRICTED_DATA_FIELDS, or the
    vendor is neither "arktype" nor "valibot", [sanitizeIssues] returns the
    very value it was given and leaves the heap as it was: no copy, no
    change to any issue.  The target "json" is such a target, as is every
    target but "header". *)
Theorem C7_unrestricted_or_unknown_vendor_is_identity :
  (forall (issues : val) (vendor : string) (t : target) (h : heap),
      restricted t = None \/ (vendor <> "arktype" /\ vendor <> "valibot") ->
      sanitizeIssues issues vendor t h = (Returns issues, h))
  /\ restricted json = None
  /\ (forall t, t <> header -> restricted t = None).
Proof.
  split; [|split; [reflexivity|by intros []]].
  intros issues vendor t h [Ht|[Ha Hv]]; unfold sanitizeIssues.
  - by rewrite Ht.
  - destruct (restricted t); [|reflexivity].
    by rewrite !bool_decide_eq_false_2.
Qed.

Lemma C7_witness :
  restricted json = None
  /\ sanitizeIssues (Ref 1%positive) "arktype" json ∅
     = (Returns (Ref 1%positive), ∅).
Proof.
  split; [reflexivity|].
  apply (proj1 C7_unrestricted_or_unknown_vendor_is_identity).
  left. reflexivity.
Defined.

(** ** Reading a heap that has grown *)

Lemma delete_all_lookup (fields : list string) (m : gmap string val)
    (p : string) :
  delete_all fields m !! p = if bool_decide (p ∈ fields) then None else m !! p.
Proof.
  unfold delete_all. revert m. induction fields as [|f fields IH]; intros m.
  - cbn. by rewrite bool_decide_eq_false_2 by apply not_elem_of_nil.
  - cbn [foldl]. rewrite IH.
    destruct (decide (p = f)) as [->|Hne].
    + rewrite lookup_delete_eq.
      rewrite (bool_decide_eq_true_2 (f ∈ f :: fields)) by apply list_elem_of_here.
      by case_bool_decide.
    + rewrite lookup_delete_ne by done.
      case_bool_decide as H1; case_bool_decide as H2; try done.
      * exfalso. apply H2. by apply list_elem_of_further.
      * exfalso. apply elem_of_cons in H2 as [?|?]; done.
Qed.

Lemma alloc_fresh (o : object) (h : heap) :
  exists l, alloc o h = (Returns (Ref l), <[l := o]> h) /\ h !! l = None.
Proof.
  exists (fresh (dom h)). split; [reflexivity|].
  apply not_elem_of_dom. apply is_fresh.
Qed.

Section grown.
Variables h hi : heap.
Hypothesis Hsub : h ⊆ hi.

Lemma grown_lookup (l : loc) (o : object) :
  h !! l = Some o -> hi !! l = Some o.
Proof. intros H. by eapply lookup_weaken. Qed.

Lemma grown_typeof (v : val) :
  val_ok h v -> typeof_object hi v = typeof_object h v.
Proof.
  destruct v; try reflexivity. intros [o Ho]. cbn.
  by rewrite Ho, (grown_lookup _ _ Ho).
Qed.

Lemma grown_isArray (v : val) :
  val_ok h v -> isArray hi v = isArray h v.
Proof.
  destruct v; try reflexivity. intros [o Ho]. cbn.
  by rewrite Ho, (grown_lookup _ _ Ho).
Qed.

Lemma grown_get_property (l : loc) (p : string) :
  is_Some (h !! l) -> get_property hi l p = get_property h l p.
Proof.
  intros [o Ho]. unfold get_property. by rewrite Ho, (grown_lookup _ _ Ho).
Qed.

Lemma grown_read (v : val) (p : string) :
  val_ok h v -> read hi v p = read h v p.
Proof.
  destruct v; try reflexivity. intros Hl. cbn.
  by rewrite grown_get_property.
Qed.

Lemma grown_own_props (v : val) :
  val_ok h v -> own_props hi v = own_props h v.
Proof.
  destruct v; try reflexivity. intros [o Ho]. cbn.
  by rewrite Ho, (grown_lookup _ _ Ho).
Qed.

Lemma grown_getPrototypeOf (v : val) :
  val_ok h v -> getPrototypeOf hi v = getPrototypeOf h v.
Proof.
  destruct v; try reflexivity. intros [o Ho]. cbn.
  by rewrite Ho, (grown_lookup _ _ Ho).
Qed.
End grown.

Lemma proto_get_ok (h : heap) (pr : prototype) (p : string) (v : val) :
  proto_ok h pr -> proto_get pr p = Some v -> val_ok h v.
Proof.
  induction pr as [|id members parent IH]; [done|].
  intros [Hm Hp]. cbn. destruct (members !! p) as [w|] eqn:Hw.
  - intros [= <-]. by eapply Hm.
  - by apply IH.
Qed.

Lemma closed_read (h : heap) (v : val) (p : string) :
  closed h -> val_ok h (read h v p).
Proof.
  intros Hc. destruct v; try exact I. cbn. unfold get_property.
  destruct (h !! l) as [[proto c props|elems]|] eqn:Hl; try exact I.
  pose proof (Hc l _ Hl) as [Hpr Hprops].
  destruct (props !! p) as [w|] eqn:Hw; cbn.
  - by eapply Hprops.
  - destruct (proto_get proto p) as [w|] eqn:Hg; [|exact I].
    cbn. by eapply proto_get_ok.
Qed.

Lemma grown_carries_payload (h hi : heap) (issue : val) :
  h ⊆ hi -> closed h -> val_ok h issue ->
  carries_payload hi issue = carries_payload h issue.
Proof.
  intros Hsub Hc Hv. unfold carries_payload, is_record.
  rewrite (grown_read h hi Hsub issue "data" Hv).
  rewrite (grown_typeof h hi Hsub issue Hv).
  rewrite (grown_typeof h hi Hsub _ (closed_read h issue "data" Hc)).
  rewrite (grown_isArray h hi Hsub _ (closed_read h issue "data" Hc)).
  destruct issue; try reflexivity.
  by rewrite (grown_get_property h hi Hsub l "data" Hv).
Qed.

(** ** The arktype branch *)

Lemma carries_payload_inv (h : heap) (issue : val) :
  carries_payload h issue = true ->
  exists li proto props ld dproto dprops,
    issue = Ref li /\ h !! li = Some (Obj proto false props)
    /\ read h issue "data" = Ref ld
    /\ h !! ld = Some (Obj dproto false dprops).
Proof.
  unfold carries_payload, is_record. intros H.
  apply andb_prop in H as [H Hrec]. apply andb_prop in H as [H Hin].
  apply andb_prop in H as [_ Hty].
  apply andb_prop in Hrec as [Hrec Hna]. apply andb_prop in Hrec as [Hd Hnn].
  destruct issue as [| | | | | |li]; try discriminate.
  destruct (read h (Ref li) "data") as [| | | | | |ld] eqn:Hr;
    try (cbn in Hd, Hnn; discriminate).
  cbn in Hd, Hna. destruct (h !! ld) as [[dproto [] dprops|]|] eqn:Hld;
    try discriminate.
  cbn in Hty. apply bool_decide_eq_true in Hin as [w Hw].
  unfold get_property in Hw.
  destruct (h !! li) as [[proto [] props|]|] eqn:Hli; try discriminate.
  by exists li, proto, props, ld, dproto, dprops.
Qed.

Lemma arktype_issue_keeps (fields : list string) (issue : val) (h : heap) :
  carries_payload h issue = false ->
  sanitizeArktypeIssue fields issue h = (Returns issue, h).
Proof.
  unfold carries_payload, sanitizeArktypeIssue. intros H.
  destruct (truthy issue && typeof_object h issue) eqn:Ht; [|reflexivity].
  cbn [andb] in H. destruct issue as [| | | | | |li];
    try (cbn in Ht; rewrite ?andb_false_r in Ht; discriminate).
  unfold mbind, has_property. by rewrite H.
Qed.

Lemma arktype_issue_copies (fields : list string) (issue : val) (h : heap) :
  carries_payload h issue = true ->
  exists li' ld',
    sanitizeArktypeIssue fields issue h
    = (Returns (Ref li'),
       <[li' := Obj (getPrototypeOf h issue) false
                  (<["data" := Ref ld']> (own_props h issue))]>
         (<[ld' := Obj Object_prototype false
                     (delete_all fields (own_props h (read h issue "data")))]>
            h))
    /\ h !! ld' = None /\ h !! li' = None /\ li' <> ld'.
Proof.
  unfold carries_payload, sanitizeArktypeIssue. intros H.
  destruct (truthy issue && typeof_object h issue) eqn:Ht; [|discriminate].
  cbn [andb] in H. destruct issue as [| | | | | |li];
    try (cbn in Ht; rewrite ?andb_false_r in Ht; discriminate).
  unfold mbind at 1. unfold has_property. rewrite H.
  set (o1 := Obj Object_prototype false _).
  destruct (alloc_fresh o1 h) as (ld' & Hd & Hdf).
  unfold mbind. rewrite Hd.
  set (o2 := Obj _ false _).
  destruct (alloc_fresh o2 (<[ld' := o1]> h)) as (li' & Hi & Hif).
  rewrite Hi. exists li', ld'.
  assert (li' <> ld') by (intros ->; by rewrite lookup_insert_eq in Hif).
  rewrite lookup_insert_ne in Hif by done. done.
Qed.

Lemma arktype_copy_grown (fields : list string) (h h1 h2 : heap)
    (e e' : option val) :
  h1 ⊆ h2 -> arktype_copy fields h h1 e e' -> arktype_copy fields h h2 e e'.
Proof.
  intros Hsub. unfold arktype_copy. destruct e as [issue|]; [|done].
  destruct (carries_payload h issue); [|done].
  intros (li & proto & props & ld & dproto & dprops & li' & ld' & H).
  destruct H as (H1 & H2 & H3 & H4 & H5 & H6 & H7 & H8 & H9).
  exists li, proto, props, ld, dproto, dprops, li', ld'.
  repeat split; try done; by eapply lookup_weaken.
Qed.

Lemma arktype_loop (fields : list string) (h : heap) :
  closed h ->
  forall elems hi,
    h ⊆ hi ->
    Forall (fun e => forall v, e = Some v -> val_ok h v) elems ->
    exists elems' hi',
      map_elems (sanitizeArktypeIssue fields) elems hi = (Returns elems', hi')
      /\ hi ⊆ hi'
      /\ Forall2 (arktype_copy fields h hi') elems elems'.
Proof.
  intros Hc. induction elems as [|[issue|] elems IH]; intros hi Hsub Hok.
  - exists [], hi. by repeat split.
  - apply Forall_cons in Hok as [Hv Hok]. specialize (Hv issue eq_refl).
    cbn [map_elems]. unfold mbind at 1.
    pose proof (grown_carries_payload h hi issue Hsub Hc Hv) as Hcp.
    destruct (carries_payload h issue) eqn:Hp.
    + destruct (arktype_issue_copies fields issue hi Hcp)
        as (li' & ld' & Hrun & Hdf & Hif & Hne).
      destruct (carries_payload_inv h issue Hp)
        as (li & proto & props & ld & dproto & dprops & -> & Hli & Hr & Hld).
      assert (Hv' : val_ok h (Ref ld)) by (cbn; eauto).
      rewrite (grown_getPrototypeOf h hi Hsub _ Hv) in Hrun.
      rewrite (grown_own_props h hi Hsub _ Hv) in Hrun.
      rewrite (grown_read h hi Hsub _ "data" Hv), Hr in Hrun.
      rewrite (grown_own_props h hi Hsub _ Hv') in Hrun.
      cbn [getPrototypeOf own_props] in Hrun. rewrite Hli, Hld in Hrun.
      rewrite Hrun. set (h1 := <[li' := _]> _).
      assert (Hsub1 : hi ⊆ h1).
      { subst h1. etrans; [apply (insert_subseteq hi ld'); exact Hdf|].
        apply insert_subseteq. by rewrite lookup_insert_ne. }
      destruct (IH h1) as (elems' & hi' & Hloop & Hsub' & Hall);
        [by etrans|done|].
      unfold mbind. rewrite Hloop. cbn [ret].
      exists (Some (Ref li') :: elems'), hi'.
      split; [reflexivity|]. split; [by etrans|].
      constructor; [|done].
      apply (arktype_copy_grown fields h h1 hi'); [done|].
      unfold arktype_copy. rewrite Hp.
      exists li, proto, props, ld, dproto, dprops, li', ld'.
      repeat split; try done.
      * destruct (h !! li') eqn:E; [|done].
        by rewrite (lookup_weaken h hi li' _ E Hsub) in Hif.
      * destruct (h !! ld') eqn:E; [|done].
        by rewrite (lookup_weaken h hi ld' _ E Hsub) in Hdf.
      * subst h1. apply lookup_insert_eq.
      * subst h1. rewrite lookup_insert_ne by done. apply lookup_insert_eq.
    + rewrite (arktype_issue_keeps fields issue hi Hcp).
      destruct (IH hi) as (elems' & hi' & Hloop & Hsub' & Hall); [done|done|].
      unfold mbind. rewrite Hloop. cbn [ret].
      exists (Some issue :: elems'), hi'. repeat split; [done|].
      constructor; [|done]. unfold arktype_copy. by rewrite Hp.
  - apply Forall_cons in Hok as [_ Hok].
    destruct (IH hi) as (elems' & hi' & Hloop & Hsub' & Hall); [done|done|].
    cbn [map_elems]. unfold mbind. rewrite Hloop. cbn [ret].
    exists (None :: elems'), hi'. repeat split; [done|].
    constructor; [reflexivity|done].
Qed.

Lemma closed_elems (h : heap) (l : loc) (elems : list (option val)) :
  closed h -> h !! l = Some (Arr elems) ->
  Forall (fun e => forall v, e = Some v -> val_ok h v) elems.
Proof. intros Hc Hl. exact (Hc l _ Hl). Qed.

Lemma arktype_array (fields : list string) (h : heap) (l : loc)
    (elems : list (option val)) :
  closed h -> h !! l = Some (Arr elems) ->
  exists l' elems' h',
    sanitizeArktypeIssues (Ref l) fields h = (Returns (Ref l'), h')
    /\ h !! l' = None /\ h' !! l' = Some (Arr elems')
    /\ h ⊆ h'
    /\ Forall2 (arktype_copy fields h h') elems elems'.
Proof.
  intros Hc Hl. unfold sanitizeArktypeIssues, array_map. rewrite Hl.
  destruct (arktype_loop fields h Hc elems h) as (elems' & hi & Hloop & Hsub & Hall);
    [done|by eapply closed_elems|].
  unfold mbind. rewrite Hloop.
  destruct (alloc_fresh (Arr elems') hi) as (l' & Ha & Hf).
  rewrite Ha. exists l', elems', (<[l' := Arr elems']> hi).
  split; [reflexivity|].
  assert (Hsub' : hi ⊆ <[l' := Arr elems']> hi) by by apply insert_subseteq.
  split; [|split; [apply lookup_insert_eq|split; [by etrans|]]].
  - destruct (h !! l') eqn:E; [|done].
    by rewrite (lookup_weaken h hi l' _ E Hsub) in Hf.
  - eapply Forall2_impl; [exact Hall|].
    intros e e'. by apply arktype_copy_grown.
Qed.

(** C8.  For the vendor "arktype" and a restricted target, on a heap
    without dangling references: the call returns a new array; each issue
    that carries a plain-object payload is replaced there by a new object
    with the prototype and the properties of the issue, except that [data]
    is a new object holding the properties of the payload less the
    restricted fields; every other element is kept; and every object of the
    heap before the call, the issues and their payloads among them, is
    unchanged.  With the configuration of the repository the payload
    {cookie: "secret", authorization: "token"} under "header" becomes
    {authorization: "token"} and the payload given still has its cookie. *)
Theorem C8_arktype_replaces_by_sanitized_copies :
  (forall (h : heap) (l : loc) (elems : list (option val)) (t : target)
          (fields : list string),
      closed h -> h !! l = Some (Arr elems) -> restricted t = Some fields ->
      exists l' elems' h',
        sanitizeIssues (Ref l) "arktype" t h = (Returns (Ref l'), h')
        /\ h !! l' = None /\ h' !! l' = Some (Arr elems')
        /\ (forall x o, h !! x = Some o -> h' !! x = Some o)
        /\ Forall2 (arktype_copy fields h h') elems elems')
  /\ (forall (fields : list string) (payload : gmap string val) (p : string),
         delete_all fields payload !! p
         = if bool_decide (p ∈ fields) then None else payload !! p)
  /\ (let '(r, h') := sanitizeIssues (Ref 1%positive) "arktype" header
                        arktype_heap in
      r = Returns (Ref 6%positive)
      /\ h' !! 6%positive = Some (Arr [Some (Ref 5%positive)])
      /\ h' !! 5%positive
         = Some (Obj CustomIssue false
                   {[ "data" := Ref 4%positive;
                      "message" := Str "Invalid header" ]})
      /\ h' !! 4%positive
         = Some (Obj Object_prototype false {[ "authorization" := Str "token" ]})
      /\ h' !! 3%positive = arktype_heap !! 3%positive
      /\ h' !! 2%positive = arktype_heap !! 2%positive
      /\ arktype_heap !! 3%positive
         = Some (Obj Object_prototype false
                   {[ "cookie" := Str "secret";
                      "authorization" := Str "token" ]})).
Proof.
  split; [|split; [exact delete_all_lookup|vm_compute; by repeat split]].
  intros h l elems t fields Hc Hl Ht.
  unfold sanitizeIssues. rewrite Ht. rewrite bool_decide_eq_true_2 by done.
  destruct (arktype_array fields h l elems Hc Hl)
    as (l' & elems' & h' & Hrun & Hf & Hl' & Hsub & Hall).
  exists l', elems', h'. repeat split; try done.
  intros x o Hx. by eapply lookup_weaken.
Qed.

Ltac concrete_lookup H :=
  repeat (apply lookup_insert_Some in H as [[<- <-]|[_ H]]);
  try (by rewrite lookup_empty in H).

Lemma closed_arktype_heap : closed arktype_heap.
Proof.
  intros l o Hl. unfold arktype_heap in Hl. concrete_lookup Hl.
  - repeat constructor. intros v [= <-]. vm_compute. eauto.
  - split; [repeat split; apply map_Forall_empty|].
    intros p v Hp. concrete_lookup Hp; [vm_compute; eauto | exact I].
  - split; [repeat split; apply map_Forall_empty|].
    intros p v Hp. concrete_lookup Hp; exact I.
Qed.

Lemma C8_witness :
  closed arktype_heap
  /\ arktype_heap !! 1%positive = Some (Arr [Some (Ref 2%positive)])
  /\ restricted header = Some ["cookie"]
  /\ exists l' elems' h',
       sanitizeIssues (Ref 1%positive) "arktype" header arktype_heap
       = (Returns (Ref l'), h')
       /\ arktype_heap !! l' = None /\ h' !! l' = Some (Arr elems')
       /\ (forall x o, arktype_heap !! x = Some o -> h' !! x = Some o)
       /\ Forall2 (arktype_copy ["cookie"] arktype_heap h')
            [Some (Ref 2%positive)] elems'.
Proof.
  assert (H2 : arktype_heap !! 1%positive = Some (Arr [Some (Ref 2%positive)]))
    by reflexivity.
  assert (H3 : restricted header = Some ["cookie"]) by reflexivity.
  refine (conj closed_arktype_heap (conj H2 (conj H3 _))).
  exact (proj1 C8_arktype_replaces_by_sanitized_copies arktype_heap 1%positive
           [Some (Ref 2%positive)] header ["cookie"]
           closed_arktype_heap H2 H3).
Defined.

(** ** The valibot branch *)

Lemma strip_idem (fields : list string) (o : object) :
  strip fields (strip fields o) = strip fields o.
Proof.
  destruct o as [proto c props|]; [|reflexivity]. cbn. f_equal.
  apply map_eq. intros p. rewrite !delete_all_lookup. by case_bool_decide.
Qed.

Section stripped.
Variables (fields : list string) (S : list loc) (h hi : heap).
Hypothesis Hst : stripped fields S h hi.

Lemma stripped_typeof (v : val) : typeof_object hi v = typeof_object h v.
Proof.
  destruct v; try reflexivity. cbn. rewrite (Hst l).
  destruct (h !! l) as [[? ? ?|?]|]; cbn; try reflexivity;
    by case_bool_decide.
Qed.

Lemma stripped_isArray (v : val) : isArray hi v = isArray h v.
Proof.
  destruct v; try reflexivity. cbn. rewrite (Hst l).
  destruct (h !! l) as [[? ? ?|?]|]; cbn; try reflexivity;
    by case_bool_decide.
Qed.

Lemma stripped_elements (v : val) : elements hi v = elements h v.
Proof.
  destruct v; try reflexivity. cbn. rewrite (Hst l).
  destruct (h !! l) as [[? ? ?|?]|]; cbn; try reflexivity;
    by case_bool_decide.
Qed.

Lemma stripped_get_property (l : loc) (p : string) :
  p ∉ fields -> get_property hi l p = get_property h l p.
Proof.
  intros Hp. unfold get_property. rewrite (Hst l).
  destruct (h !! l) as [[proto c props|?]|]; cbn; try reflexivity;
    case_bool_decide; try reflexivity.
  cbn. rewrite delete_all_lookup. by rewrite bool_decide_eq_false_2.
Qed.

Lemma stripped_read (v : val) (p : string) :
  p ∉ fields -> read hi v p = read h v p.
Proof.
  intros Hp. destruct v; try reflexivity. cbn.
  by rewrite stripped_get_property.
Qed.

Lemma stripped_is_record (v : val) : is_record hi v = is_record h v.
Proof. unfold is_record. by rewrite stripped_typeof, stripped_isArray. Qed.

Lemma stripped_issue_paths (issue : val) :
  "path" ∉ fields -> issue_paths hi issue = issue_paths h issue.
Proof.
  intros Hp. unfold issue_paths.
  rewrite stripped_typeof, (stripped_read _ _ Hp), stripped_isArray,
    stripped_elements.
  destruct issue; try reflexivity. by rewrite stripped_get_property.
Qed.

Lemma stripped_path_input (path : val) :
  "input" ∉ fields -> path_input hi path = path_input h path.
Proof.
  intros Hp. unfold path_input. destruct path; try reflexivity.
  by rewrite stripped_typeof, (stripped_read _ _ Hp), stripped_is_record,
    stripped_get_property.
Qed.

(* one more object stripped *)
Lemma stripped_insert (x : loc) (o : object) :
  hi !! x = Some o ->
  stripped fields (S ++ [x]) h (<[x := strip fields o]> hi).
Proof.
  intros Hx y. destruct (decide (y = x)) as [->|Hne].
  - rewrite lookup_insert_eq. rewrite (Hst x) in Hx.
    destruct (h !! x) as [o0|]; [|discriminate]. cbn in *.
    injection Hx as <-.
    rewrite (bool_decide_eq_true_2 (x ∈ S ++ [x])).
    2:{ apply elem_of_app. right. apply list_elem_of_here. }
    case_bool_decide; [by rewrite strip_idem | done].
  - rewrite lookup_insert_ne by done. rewrite (Hst y).
    destruct (h !! y) as [o0|]; [|done]. cbn. f_equal.
    case_bool_decide as H1; case_bool_decide as H2; try done.
    + exfalso. apply H2. apply elem_of_app. by left.
    + exfalso. apply elem_of_app in H2 as [?|H2]; [done|].
      apply elem_of_cons in H2 as [?|H2]; [done|]. by apply elem_of_nil in H2.
Qed.
End stripped.

Lemma stripped_refl (fields : list string) (h : heap) : stripped fields [] h h.
Proof.
  intros x. destruct (h !! x); [|done]. cbn.
  by rewrite bool_decide_eq_false_2 by apply not_elem_of_nil.
Qed.

(* the loop of lines 204-206 on the input object at x *)
Lemma delete_loop (path : val) (x : loc) (proto : prototype) (c : bool) :
  forall (fields : list string) (props : gmap string val) (hi : heap),
    "input" ∉ fields ->
    read hi path "input" = Ref x ->
    hi !! x = Some (Obj proto c props) ->
    for_of fields (fun field h => delete_field (read h path "input") field h) hi
    = (Returns tt, <[x := Obj proto c (delete_all fields props)]> hi).
Proof.
  induction fields as [|f fields IH]; intros props hi Hin Hr Hx.
  - cbn. by rewrite insert_id.
  - cbn [for_of]. unfold mbind. rewrite Hr. cbn [delete_field]. rewrite Hx.
    assert (Hf : f <> "input").
    { intros ->. apply Hin. apply list_elem_of_here. }
    rewrite (IH (delete f props)).
    + by rewrite insert_insert_eq.
    + intros H. apply Hin. by apply list_elem_of_further.
    + destruct path as [| | | | | |lp]; try discriminate.
      cbn in *. unfold get_property in *.
      destruct (decide (lp = x)) as [->|Hne].
      * rewrite lookup_insert_eq. rewrite Hx in Hr.
        by rewrite lookup_delete_ne.
      * by rewrite lookup_insert_ne.
    + apply lookup_insert_eq.
Qed.

Lemma path_input_inv (h : heap) (path : val) (x : loc) :
  path_input h path = Some x ->
  exists proto props,
    read h path "input" = Ref x /\ h !! x = Some (Obj proto false props).
Proof.
  unfold path_input, is_record. destruct path as [| | | | | |lp]; try discriminate.
  destruct (typeof_object h (Ref lp) && _ && _) eqn:Hc; [|discriminate].
  destruct (read h (Ref lp) "input") as [| | | | | |y] eqn:Hr; try discriminate.
  intros [= ->]. apply andb_prop in Hc as [_ Hc].
  apply andb_prop in Hc as [Hc Hna]. apply andb_prop in Hc as [Hty _].
  cbn in Hty, Hna. destruct (h !! x) as [[proto [] props|]|]; try discriminate.
  eauto.
Qed.

Lemma valibot_path_step (fields : list string) (S : list loc) (h hi : heap)
    (path : val) :
  stripped fields S h hi -> "input" ∉ fields -> path <> Null ->
  exists hi',
    sanitizeValibotPath fields path hi = (Returns tt, hi')
    /\ stripped fields (S ++ option_list (path_input h path)) h hi'.
Proof.
  intros Hst Hin Hnull. unfold sanitizeValibotPath.
  pose proof (stripped_path_input fields S h hi Hst path Hin) as Hpi.
  destruct (typeof_object hi path) eqn:Hty.
  - destruct path as [| | | | | |lp]; try discriminate; [done|].
    unfold mbind, has_property.
    unfold path_input in Hpi at 1. rewrite Hty in Hpi. cbn [andb] in Hpi.
    destruct (bool_decide (is_Some (get_property hi lp "input"))
              && is_record hi (read hi (Ref lp) "input")) eqn:Hc.
    + destruct (read hi (Ref lp) "input") as [| | | | | |x] eqn:Hr;
        try (apply andb_prop in Hc as [_ Hc]; unfold is_record in Hc;
             cbn in Hc; rewrite ?andb_false_r in Hc; discriminate).
      symmetry in Hpi.
      destruct (path_input_inv h _ x Hpi) as (proto & props & _ & Hx).
      assert (Hxi' : exists props',
                 hi !! x = Some (Obj proto false props')
                 /\ delete_all fields props' = delete_all fields props).
      { rewrite (Hst x), Hx. cbn. destruct (bool_decide (x ∈ S)); cbn.
        - exists (delete_all fields props). split; [reflexivity|].
          pose proof (strip_idem fields (Obj proto false props)) as Hi.
          cbn in Hi. by injection Hi.
        - by exists props. }
      destruct Hxi' as (props' & Hx' & Hd).
      rewrite (delete_loop (Ref lp) x proto false fields props' hi Hin Hr Hx').
      eexists. split; [reflexivity|]. rewrite Hpi. cbn [option_list].
      replace (Obj proto false (delete_all fields props'))
        with (strip fields (Obj proto false props')) by reflexivity.
      by apply stripped_insert.
    + exists hi. split; [reflexivity|]. rewrite <- Hpi. cbn [option_list].
      by rewrite app_nil_r.
  - exists hi. split; [reflexivity|].
    assert (path_input h path = None) as ->.
    { rewrite <- Hpi. unfold path_input. destruct path; try reflexivity.
      by rewrite Hty. }
    cbn [option_list]. by rewrite app_nil_r.
Qed.

Lemma valibot_paths_loop (fields : list string) (h : heap) :
  "input" ∉ fields ->
  forall (paths : list val) (S : list loc) (hi : heap),
    stripped fields S h hi -> Forall (fun p => p <> Null) paths ->
    exists hi',
      for_of paths (sanitizeValibotPath fields) hi = (Returns tt, hi')
      /\ stripped fields (S ++ omap (path_input h) paths) h hi'.
Proof.
  intros Hin. induction paths as [|path paths IH]; intros S hi Hst Hall.
  - exists hi. split; [reflexivity|]. cbn. by rewrite app_nil_r.
  - apply Forall_cons in Hall as [Hp Hall].
    destruct (valibot_path_step fields S h hi path Hst Hin Hp)
      as (h1 & Hrun & Hst1).
    destruct (IH _ h1 Hst1 Hall) as (hi' & Hloop & Hst').
    exists hi'. cbn [for_of]. unfold mbind. rewrite Hrun. split; [exact Hloop|].
    rewrite <- app_assoc in Hst'.
    replace (omap (path_input h) (path :: paths))
      with (option_list (path_input h path) ++ omap (path_input h) paths);
      [done|].
    cbn. by destruct (path_input h path).
Qed.

Lemma valibot_issue_step (fields : list string) (S : list loc) (h hi : heap)
    (issue : val) :
  stripped fields S h hi -> "input" ∉ fields -> "path" ∉ fields ->
  Forall (fun p => p <> Null) (issue_paths h issue) ->
  exists hi',
    sanitizeValibotIssue fields issue hi = (Returns issue, hi')
    /\ stripped fields (S ++ omap (path_input h) (issue_paths h issue)) h hi'.
Proof.
  intros Hst Hin Hpath Hall. unfold sanitizeValibotIssue.
  pose proof (stripped_issue_paths fields S h hi Hst issue Hpath) as Hip.
  unfold issue_paths in Hip at 1.
  destruct (truthy issue && typeof_object hi issue) eqn:Ht.
  - destruct issue as [| | | | | |li];
      try (cbn in Ht; rewrite ?andb_false_r in Ht; discriminate).
    unfold mbind at 1. unfold has_property. cbn [andb] in Hip.
    destruct (bool_decide (is_Some (get_property hi li "path"))
              && isArray hi (read hi (Ref li) "path")) eqn:Hc.
    + rewrite <- Hip in Hall.
      destruct (valibot_paths_loop fields h Hin _ S hi Hst Hall)
        as (hi' & Hloop & Hst').
      unfold mbind. rewrite Hloop. exists hi'. split; [reflexivity|].
      by rewrite <- Hip.
    + exists hi. split; [reflexivity|]. rewrite <- Hip. cbn.
      by rewrite app_nil_r.
  - exists hi. split; [reflexivity|]. rewrite <- Hip. cbn [andb].
    cbn. by rewrite app_nil_r.
Qed.

Lemma valibot_loop (fields : list string) (h : heap) :
  "input" ∉ fields -> "path" ∉ fields ->
  forall (elems : list (option val)) (S : list loc) (hi : heap),
    stripped fields S h hi ->
    Forall (fun e => forall issue, e = Some issue ->
                       Forall (fun p => p <> Null) (issue_paths h issue))
      elems ->
    exists hi',
      map_elems (sanitizeValibotIssue fields) elems hi = (Returns elems, hi')
      /\ stripped fields (S ++ inputs h elems) h hi'.
Proof.
  intros Hin Hpath.
  induction elems as [|[issue|] elems IH]; intros S hi Hst Hall.
  - exists hi. split; [reflexivity|]. cbn. by rewrite app_nil_r.
  - apply Forall_cons in Hall as [Hi Hall].
    destruct (valibot_issue_step fields S h hi issue Hst Hin Hpath (Hi _ eq_refl))
      as (h1 & Hrun & Hst1).
    destruct (IH _ h1 Hst1 Hall) as (hi' & Hloop & Hst').
    exists hi'. cbn [map_elems]. unfold mbind. rewrite Hrun, Hloop.
    split; [reflexivity|]. by rewrite <- app_assoc in Hst'.
  - apply Forall_cons in Hall as [_ Hall].
    destruct (IH _ hi Hst Hall) as (hi' & Hloop & Hst').
    exists hi'. cbn [map_elems]. unfold mbind. rewrite Hloop.
    split; [reflexivity|]. exact Hst'.
Qed.

Lemma valibot_array (fields : list string) (h : heap) (l : loc)
    (elems : list (option val)) :
  "input" ∉ fields -> "path" ∉ fields ->
  h !! l = Some (Arr elems) ->
  Forall (fun e => forall issue, e = Some issue ->
                     Forall (fun p => p <> Null) (issue_paths h issue))
    elems ->
  exists l' h',
    sanitizeValibotIssues (Ref l) fields h = (Returns (Ref l'), h')
    /\ h !! l' = None /\ h' !! l' = Some (Arr elems)
    /\ forall x, x <> l' ->
         h' !! x = (fun o => if bool_decide (x ∈ inputs h elems)
                             then strip fields o else o) <$> h !! x.
Proof.
  intros Hin Hpath Hl Hall. unfold sanitizeValibotIssues, array_map. rewrite Hl.
  destruct (valibot_loop fields h Hin Hpath elems [] h (stripped_refl _ _) Hall)
    as (hi & Hloop & Hst).
  unfold mbind. rewrite Hloop.
  destruct (alloc_fresh (Arr elems) hi) as (l' & Ha & Hf).
  rewrite Ha. exists l', (<[l' := Arr elems]> hi).
  split; [reflexivity|]. cbn [app] in Hst.
  split; [|split; [apply lookup_insert_eq|]].
  - rewrite (Hst l') in Hf. by destruct (h !! l').
  - intros x Hx. rewrite lookup_insert_ne by done. apply Hst.
Qed.

Lemma typed_issue_paths (h : heap) (issue : val) :
  Issue h issue -> Forall (fun p => p <> Null) (issue_paths h issue).
Proof.
  intros (l & proto & props & -> & Hl & Hpath). unfold issue_paths.
  destruct (truthy (Ref l) && _ && _ && _); [|constructor].
  destruct (read h (Ref l) "path") as [| | | | | |lp] eqn:Hr; try constructor.
  cbn. destruct (h !! lp) as [[|entries]|] eqn:Hlp; try constructor.
  apply Forall_fmap. eapply Forall_impl; [exact (Hpath lp entries eq_refl Hlp)|].
  intros e (v & -> & [Hk|(x & -> & _)]); cbn; [|done].
  by destruct v.
Qed.

Lemma typed_array_paths (h : heap) (elems : list (option val)) :
  Forall (fun e => exists v, e = Some v /\ Issue h v) elems ->
  Forall (fun e => forall issue, e = Some issue ->
                     Forall (fun p => p <> Null) (issue_paths h issue))
    elems.
Proof.
  intros H. eapply Forall_impl; [exact H|].
  intros e (v & -> & Hv) issue [= <-]. by apply typed_issue_paths.
Qed.

Lemma cookie_only : ("input" ∉ ["cookie"]) /\ ("path" ∉ ["cookie"]).
Proof.
  split; intros H; apply elem_of_cons in H as [H|H]; try discriminate;
    by apply elem_of_nil in H.
Qed.

(** C9.  For the vendor "valibot" and a restricted target, on issues of
    the declared type: the array returned holds the very references the
    input array holds, in the same order; the object that is the [input]
    of a path entry of an issue loses the restricted fields, in place; and
    every other object of the heap is as it was.  In the heap of the
    repository's test the input {cookie: "secret", authorization: "token"}
    is left holding {authorization: "token"}. *)
Theorem C9_valibot_deletes_in_place :
  (forall (h : heap) (l : loc) (elems : list (option val)) (t : target)
          (fields : list string),
      h !! l = Some (Arr elems) -> IssueArray h (Ref l) ->
      restricted t = Some fields ->
      exists l' h',
        sanitizeIssues (Ref l) "valibot" t h = (Returns (Ref l'), h')
        /\ h !! l' = None /\ h' !! l' = Some (Arr elems)
        /\ forall x, x <> l' ->
             h' !! x = (fun o => if bool_decide (x ∈ inputs h elems)
                                 then strip fields o else o) <$> h !! x)
  /\ (forall (fields : list string) (proto : prototype) (c : bool)
             (props : gmap string val),
         exists props',
           strip fields (Obj proto c props) = Obj proto c props'
           /\ forall p, props' !! p
                        = if bool_decide (p ∈ fields) then None else props !! p)
  /\ (let '(r, h') := sanitizeIssues (Ref 1%positive) "valibot" header
                        valibot_heap in
      r = Returns (Ref 6%positive)
      /\ h' !! 6%positive = valibot_heap !! 1%positive
      /\ inputs valibot_heap [Some (Ref 2%positive)] = [3%positive]
      /\ h' !! 3%positive
         = Some (Obj Object_prototype false {[ "authorization" := Str "token" ]})
      /\ h' !! 2%positive = valibot_heap !! 2%positive
      /\ h' !! 5%positive = valibot_heap !! 5%positive).
Proof.
  split; [|split; [|vm_compute; by repeat split]].
  - intros h l elems t fields Hl (l0 & elems0 & [= <-] & Hl0 & Hty) Ht.
    rewrite Hl in Hl0. injection Hl0 as <-.
    destruct (restricted_header t fields Ht) as [-> ->].
    unfold sanitizeIssues. rewrite Ht.
    rewrite bool_decide_eq_false_2 by discriminate.
    rewrite bool_decide_eq_true_2 by done.
    destruct cookie_only as [Hin Hpath].
    exact (valibot_array ["cookie"] h l elems Hin Hpath Hl
             (typed_array_paths h elems Hty)).
  - intros fields proto c props. eexists. split; [reflexivity|].
    intros p. apply delete_all_lookup.
Qed.

Lemma typed_valibot_heap : IssueArray valibot_heap (Ref 1%positive).
Proof.
  exists 1%positive, [Some (Ref 2%positive)].
  split; [reflexivity|]. split; [reflexivity|].
  constructor; [|constructor]. exists (Ref 2%positive). split; [reflexivity|].
  eexists 2%positive, _, _. split; [reflexivity|]. split; [reflexivity|].
  intros lp entries Hr Hlp. vm_compute in Hr. injection Hr as <-.
  vm_compute in Hlp. injection Hlp as <-.
  constructor; [|constructor]. exists (Ref 5%positive). split; [reflexivity|].
  right. exists 5%positive. split; [reflexivity|]. vm_compute. eauto.
Qed.

Lemma C9_witness :
  valibot_heap !! 1%positive = Some (Arr [Some (Ref 2%positive)])
  /\ IssueArray valibot_heap (Ref 1%positive)
  /\ restricted header = Some ["cookie"]
  /\ exists l' h',
       sanitizeIssues (Ref 1%positive) "valibot" header valibot_heap
       = (Returns (Ref l'), h')
       /\ valibot_heap !! l' = None
       /\ h' !! l' = Some (Arr [Some (Ref 2%positive)])
       /\ forall x, x <> l' ->
            h' !! x
            = (fun o => if bool_decide
                             (x ∈ inputs valibot_heap [Some (Ref 2%positive)])
                        then strip ["cookie"] o else o) <$> valibot_heap !! x.
Proof.
  assert (H1 : valibot_heap !! 1%positive = Some (Arr [Some (Ref 2%positive)]))
    by reflexivity.
  assert (H3 : restricted header = Some ["cookie"]) by reflexivity.
  refine (conj H1 (conj typed_valibot_heap (conj H3 _))).
  exact (proj1 C9_valibot_deletes_in_place valibot_heap 1%positive
           [Some (Ref 2%positive)] header ["cookie"]
           H1 typed_valibot_heap H3).
Defined.

(** ** Both branches *)

Lemma arktype_copy_derived (fields : list string) (h h' : heap)
    (e e' : option val) :
  arktype_copy fields h h' e e' -> e' = e \/ derived h h' e e'.
Proof.
  unfold arktype_copy. destruct e as [issue|]; [|by left].
  destruct (carries_payload h issue); [|by left].
  intros (li & proto & props & ld & dproto & dprops & li' & ld' & H).
  destruct H as (-> & H2 & H3 & H4 & -> & H6 & H7 & H8 & H9).
  right. exists li, li', proto, props, (<["data" := Ref ld']> props).
  repeat split; try done. intros p Hp. by apply lookup_insert_ne.
Qed.

(* what every branch returns on an array in which no path array that the
   valibot branch visits holds null, and what it does to the heap *)
Lemma sanitize_array (h : heap) (l : loc) (elems : list (option val))
    (vendor : string) (t : target) :
  closed h -> h !! l = Some (Arr elems) ->
  (vendor = "valibot" -> t = header ->
   Forall (fun e => forall issue, e = Some issue ->
                      Forall (fun p => p <> Null) (issue_paths h issue))
     elems) ->
  exists l' elems' h',
    sanitizeIssues (Ref l) vendor t h = (Returns (Ref l'), h')
    /\ h' !! l' = Some (Arr elems')
    /\ length elems' = length elems
    /\ Forall2 (fun e e' => e' = e \/ derived h h' e e') elems elems'
    /\ (t <> header -> l' = l /\ h' = h)
    /\ (vendor <> "valibot" -> h ⊆ h')
    /\ (vendor = "valibot" -> t = header ->
        forall x, x <> l' ->
          h' !! x = (fun o => if bool_decide (x ∈ inputs h elems)
                              then strip ["cookie"] o else o) <$> h !! x).
Proof.
  intros Hc Hl Hpaths.
  assert (Hid : restricted t = None
                \/ (vendor <> "arktype" /\ vendor <> "valibot") ->
    exists l' elems' h',
    (Returns (Ref l), h) = (Returns (Ref l'), h')
    /\ h' !! l' = Some (Arr elems')
    /\ length elems' = length elems
    /\ Forall2 (fun e e' => e' = e \/ derived h h' e e') elems elems'
    /\ (t <> header -> l' = l /\ h' = h)
    /\ (vendor <> "valibot" -> h ⊆ h')
    /\ (vendor = "valibot" -> t = header ->
        forall x, x <> l' ->
          h' !! x = (fun o => if bool_decide (x ∈ inputs h elems)
                              then strip ["cookie"] o else o) <$> h !! x)).
  { intros Hwhy. exists l, elems, h. repeat split; try done.
    - apply Forall2_same_length_lookup_2; [done|]. intros i e e' H1 H2.
      left. congruence.
    - intros Hv ->. by destruct Hwhy as [?|[_ ?]]. }
  unfold sanitizeIssues. destruct (restricted t) as [fields|] eqn:Ht;
    [|apply Hid; by left].
  destruct (restricted_header t fields Ht) as [-> ->].
  case_bool_decide as Ha.
  - destruct (arktype_array ["cookie"] h l elems Hc Hl)
      as (l' & elems' & h' & Hrun & Hf & Hl' & Hsub & Hall).
    exists l', elems', h'. repeat split; try done.
    + symmetry. by eapply Forall2_length.
    + eapply Forall2_impl; [exact Hall|]. intros e e'.
      apply arktype_copy_derived.
    + intros Hv. congruence.
  - case_bool_decide as Hv; [|apply Hid; by right].
    destruct cookie_only as [Hin Hpath].
    destruct (valibot_array ["cookie"] h l elems Hin Hpath Hl
                (Hpaths Hv eq_refl))
      as (l' & h' & Hrun & Hf & Hl' & Hrest).
    exists l', elems, h'. repeat split; try done.
    apply Forall2_same_length_lookup_2; [done|]. intros i e e' H1 H2.
    left. congruence.
Qed.

Lemma closed_valibot_heap : closed valibot_heap.
Proof.
  intros l o Hl. unfold valibot_heap in Hl. concrete_lookup Hl.
  - repeat constructor. intros v [= <-]. vm_compute. eauto.
  - split; [repeat split; apply map_Forall_empty|].
    intros p v Hp. concrete_lookup Hp; [exact I | vm_compute; eauto].
  - split; [repeat split; apply map_Forall_empty|].
    intros p v Hp. concrete_lookup Hp; exact I.
  - repeat constructor. intros v [= <-]. vm_compute. eauto.
  - split; [repeat split; apply map_Forall_empty|].
    intros p v Hp. concrete_lookup Hp. vm_compute. eauto.
Qed.

(** * Further properties of the sanitizer *)

(** X16.  After the arktype branch, no issue of the result has a
    restricted field in its payload: for a restricted target, every
    element of the returned array that carries a plain-object payload has
    a payload, an object with the prototype Object.prototype, without an
    own property named by a restricted field. *)
Theorem X16_arktype_result_has_no_restricted_field
    (h : heap) (l : loc) (elems : list (option val)) (t : target)
    (fields : list string) :
  closed h -> h !! l = Some (Arr elems) -> restricted t = Some fields ->
  exists l' elems' h',
    sanitizeIssues (Ref l) "arktype" t h = (Returns (Ref l'), h')
    /\ h' !! l' = Some (Arr elems')
    /\ forall issue,
         Some issue ∈ elems' -> carries_payload h' issue = true ->
         exists ld props,
           read h' issue "data" = Ref ld
           /\ h' !! ld = Some (Obj Object_prototype false props)
           /\ forall field, field ∈ fields -> props !! field = None.
Proof.
  intros Hc Hl Ht. unfold sanitizeIssues. rewrite Ht.
  rewrite bool_decide_eq_true_2 by done.
  destruct (arktype_array fields h l elems Hc Hl)
    as (l' & elems' & h' & Hrun & _ & Hl' & Hsub & Hall).
  exists l', elems', h'. split; [done|]. split; [done|].
  intros issue' Hin Hcarries.
  apply list_elem_of_lookup in Hin as [i Hi].
  destruct (Forall2_lookup_r _ _ _ _ _ Hall Hi) as (e & He & Hcopy).
  destruct e as [issue|]; [|done]. cbn [arktype_copy] in Hcopy.
  destruct (carries_payload h issue) eqn:Hcp.
  - destruct Hcopy as (li & proto & props & ld & dproto & dprops & li' & ld'
                       & -> & Hli & Hrd & Hld & [= ->] & _ & _ & Hli' & Hld').
    exists ld', (delete_all fields dprops). split; [|split; [done|]].
    + cbn [read]. unfold get_property. rewrite Hli'.
      by rewrite lookup_insert_eq.
    + intros field Hf. rewrite delete_all_lookup.
      by rewrite bool_decide_eq_true_2.
  - injection Hcopy as ->.
    rewrite (grown_carries_payload h h' issue Hsub Hc) in Hcarries;
      [congruence|].
    pose proof (closed_elems h l elems Hc Hl) as Hok.
    rewrite Forall_forall in Hok.
    apply (Hok (Some issue)); [|done].
    by eapply list_elem_of_lookup_2.
Qed.

Lemma X16_witness :
  closed arktype_heap
  /\ arktype_heap !! 1%positive = Some (Arr [Some (Ref 2%positive)])
  /\ restricted header = Some ["cookie"]
  /\ exists l' elems' h',
       sanitizeIssues (Ref 1%positive) "arktype" header arktype_heap
       = (Returns (Ref l'), h')
       /\ h' !! l' = Some (Arr elems')
       /\ forall issue,
            Some issue ∈ elems' -> carries_payload h' issue = true ->
            exists ld props,
              read h' issue "data" = Ref ld
              /\ h' !! ld = Some (Obj Object_prototype false props)
              /\ forall field, field ∈ ["cookie"] -> props !! field = None.
Proof.
  assert (H2 : arktype_heap !! 1%positive = Some (Arr [Some (Ref 2%positive)]))
    by reflexivity.
  assert (H3 : restricted header = Some ["cookie"]) by reflexivity.
  refine (conj closed_arktype_heap (conj H2 (conj H3 _))).
  exact (X16_arktype_result_has_no_restricted_field arktype_heap 1%positive
           [Some (Ref 2%positive)] header ["cookie"]
           closed_arktype_heap H2 H3).
Defined.

(** ** A path entry that is null *)

Lemma valibot_paths_null (fields : list string) (h : heap) :
  "input" ∉ fields ->
  forall (paths : list val) (S : list loc) (hi : heap),
    stripped fields S h hi -> Null ∈ paths ->
    exists hi' S',
      for_of paths (sanitizeValibotPath fields) hi = (Throws TypeError, hi')
      /\ stripped fields S' h hi'.
Proof.
  intros Hin. induction paths as [|path paths IH]; intros S hi Hst Hnull.
  - by apply elem_of_nil in Hnull.
  - destruct (decide (path = Null)) as [->|Hp].
    + exists hi, S. split; [|done]. reflexivity.
    + apply elem_of_cons in Hnull as [Heq|Hnull]; [congruence|].
      destruct (valibot_path_step fields S h hi path Hst Hin Hp)
        as (h1 & Hrun & Hst1).
      destruct (IH _ h1 Hst1 Hnull) as (hi' & S' & Hloop & Hst').
      exists hi', S'. cbn [for_of]. unfold mbind. rewrite Hrun.
      split; [exact Hloop|exact Hst'].
Qed.

Lemma valibot_issue_null (fields : list string) (S : list loc) (h hi : heap)
    (issue : val) :
  stripped fields S h hi -> "input" ∉ fields -> "path" ∉ fields ->
  Null ∈ issue_paths h issue ->
  exists hi' S',
    sanitizeValibotIssue fields issue hi = (Throws TypeError, hi')
    /\ stripped fields S' h hi'.
Proof.
  intros Hst Hin Hpath Hnull. unfold sanitizeValibotIssue.
  pose proof (stripped_issue_paths fields S h hi Hst issue Hpath) as Hip.
  rewrite <- Hip in Hnull. unfold issue_paths in Hnull.
  destruct (truthy issue && typeof_object hi issue) eqn:Ht.
  2:{ cbn [andb] in Hnull. by apply elem_of_nil in Hnull. }
  destruct issue as [| | | | | |li];
    try (cbn in Ht; rewrite ?andb_false_r in Ht; discriminate).
  unfold mbind at 1. unfold has_property. cbn [andb] in Hnull.
  destruct (bool_decide (is_Some (get_property hi li "path"))
            && isArray hi (read hi (Ref li) "path")) eqn:Hc.
  2:{ by apply elem_of_nil in Hnull. }
  destruct (valibot_paths_null fields h Hin _ S hi Hst Hnull)
    as (hi' & S' & Hloop & Hst').
  unfold mbind. rewrite Hloop. by exists hi', S'.
Qed.

Lemma valibot_loop_null (fields : list string) (h : heap) :
  "input" ∉ fields -> "path" ∉ fields ->
  forall (elems : list (option val)) (S : list loc) (hi : heap),
    stripped fields S h hi ->
    Exists (fun e => exists issue, e = Some issue
                                   /\ Null ∈ issue_paths h issue) elems ->
    exists hi' S',
      map_elems (sanitizeValibotIssue fields) elems hi = (Throws TypeError, hi')
      /\ stripped fields S' h hi'.
Proof.
  intros Hin Hpath.
  induction elems as [|[issue|] elems IH]; intros S hi Hst Hex.
  - by apply Exists_nil in Hex.
  - destruct (decide (Null ∈ issue_paths h issue)) as [Hnull|Hnone].
    + destruct (valibot_issue_null fields S h hi issue Hst Hin Hpath Hnull)
        as (hi' & S' & Hrun & Hst').
      exists hi', S'. cbn [map_elems]. unfold mbind. by rewrite Hrun.
    + apply Exists_cons in Hex as [(issue' & [= <-] & Hnull)|Hex]; [done|].
      destruct (valibot_issue_step fields S h hi issue Hst Hin Hpath)
        as (h1 & Hrun & Hst1).
      { apply Forall_forall. intros p Hp ->. done. }
      destruct (IH _ h1 Hst1 Hex) as (hi' & S' & Hloop & Hst').
      exists hi', S'. cbn [map_elems]. unfold mbind. by rewrite Hrun, Hloop.
  - apply Exists_cons in Hex as [(issue' & Heq & _)|Hex]; [discriminate|].
    destruct (IH _ hi Hst Hex) as (hi' & S' & Hloop & Hst').
    exists hi', S'. cbn [map_elems]. unfold mbind. by rewrite Hloop.
Qed.

(** X17.  For the vendor "valibot" and a restricted target, a path array
    that holds null makes the call throw a TypeError: null passes the test
    [typeof path === "object"] and ["input" in path] is then evaluated on
    it.  No array is returned, and what the loop has done before stays
    done: every object of the heap is as it was or has lost its restricted
    fields; in the example the input of the entry before null has lost
    its cookie. *)
Theorem X17_valibot_null_path_entry_throws :
  (forall (h : heap) (l : loc) (elems : list (option val)) (t : target)
          (fields : list string),
      h !! l = Some (Arr elems) -> restricted t = Some fields ->
      Exists (fun e => exists issue, e = Some issue
                                     /\ Null ∈ issue_paths h issue) elems ->
      exists h' S,
        sanitizeIssues (Ref l) "valibot" t h = (Throws TypeError, h')
        /\ stripped fields S h h')
  /\ (let h := <[ 4%positive := Arr [Some (Ref 5%positive); Some Null] ]>
                 valibot_heap in
      let '(r, h') := sanitizeIssues (Ref 1%positive) "valibot" header h in
      r = Throws TypeError
      /\ h !! 3%positive
         = Some (Obj Object_prototype false
                   {[ "cookie" := Str "secret";
                      "authorization" := Str "token" ]})
      /\ h' !! 3%positive
         = Some (Obj Object_prototype false
                   {[ "authorization" := Str "token" ]})).
Proof.
  split; [|vm_compute; by repeat split].
  intros h l elems t fields Hl Ht Hex.
  destruct (restricted_header t fields Ht) as [-> ->].
  unfold sanitizeIssues. rewrite Ht.
  rewrite bool_decide_eq_false_2 by discriminate.
  rewrite bool_decide_eq_true_2 by done.
  destruct cookie_only as [Hin Hpath].
  unfold sanitizeValibotIssues, array_map. rewrite Hl.
  destruct (valibot_loop_null ["cookie"] h Hin Hpath elems [] h
              (stripped_refl _ _) Hex) as (hi & S & Hloop & Hst).
  unfold mbind. rewrite Hloop. by exists hi, S.
Qed.

Lemma X17_witness :
  let h := <[ 4%positive := Arr [Some (Ref 5%positive); Some Null] ]>
             valibot_heap in
  h !! 1%positive = Some (Arr [Some (Ref 2%positive)])
  /\ restricted header = Some ["cookie"]
  /\ Exists (fun e => exists issue, e = Some issue
                                    /\ Null ∈ issue_paths h issue)
       [Some (Ref 2%positive)]
  /\ exists h' S,
       sanitizeIssues (Ref 1%positive) "valibot" header h
       = (Throws TypeError, h')
       /\ stripped ["cookie"] S h h'.
Proof.
  cbn zeta.
  assert (H1 : (<[ 4%positive := Arr [Some (Ref 5%positive); Some Null] ]>
                  valibot_heap) !! 1%positive
               = Some (Arr [Some (Ref 2%positive)])) by reflexivity.
  assert (H2 : restricted header = Some ["cookie"]) by reflexivity.
  assert (H3 : Exists
    (fun e => exists issue,
       e = Some issue
       /\ Null ∈ issue_paths
            (<[ 4%positive := Arr [Some (Ref 5%positive); Some Null] ]>
               valibot_heap) issue)
    [Some (Ref 2%positive)]).
  { apply Exists_cons_hd. exists (Ref 2%positive). split; [reflexivity|].
    vm_compute. apply list_elem_of_further, list_elem_of_here. }
  refine (conj H1 (conj H2 (conj H3 _))).
  exact (proj1 X17_valibot_null_path_entry_throws _ 1%positive
           [Some (Ref 2%positive)] header ["cookie"] H1 H2 H3).
Defined.

(** ** Sanitizing twice *)

Lemma grown_elements (h hi : heap) (v : val) :
  h ⊆ hi -> val_ok h v -> elements hi v = elements h v.
Proof.
  intros Hsub Hv. destruct v; try reflexivity. destruct Hv as [o Ho]. cbn.
  by rewrite Ho, (grown_lookup h hi Hsub _ _ Ho).
Qed.

Lemma grown_issue_paths (h hi : heap) (issue : val) :
  h ⊆ hi -> closed h -> val_ok h issue ->
  issue_paths hi issue = issue_paths h issue.
Proof.
  intros Hsub Hc Hv. unfold issue_paths.
  rewrite (grown_read h hi Hsub issue "path" Hv).
  rewrite (grown_typeof h hi Hsub issue Hv).
  rewrite (grown_isArray h hi Hsub _ (closed_read h issue "path" Hc)).
  rewrite (grown_elements h hi _ Hsub (closed_read h issue "path" Hc)).
  destruct issue; try reflexivity.
  by rewrite (grown_get_property h hi Hsub l "path" Hv).
Qed.

Lemma grown_path_input (h hi : heap) (path : val) :
  h ⊆ hi -> closed h -> val_ok h path ->
  path_input hi path = path_input h path.
Proof.
  intros Hsub Hc Hv. unfold path_input, is_record.
  destruct path; try reflexivity.
  rewrite (grown_read h hi Hsub (Ref l) "input" Hv).
  rewrite (grown_typeof h hi Hsub (Ref l) Hv).
  rewrite (grown_typeof h hi Hsub _ (closed_read h (Ref l) "input" Hc)).
  rewrite (grown_isArray h hi Hsub _ (closed_read h (Ref l) "input" Hc)).
  by rewrite (grown_get_property h hi Hsub l "input" Hv).
Qed.

Lemma closed_issue_paths (h : heap) (issue : val) :
  closed h -> Forall (val_ok h) (issue_paths h issue).
Proof.
  intros Hc. unfold issue_paths.
  destruct (truthy issue && _ && _ && _); [|constructor].
  destruct (read h issue "path") as [| | | | | |lp]; try constructor.
  cbn. destruct (h !! lp) as [[|entries]|] eqn:Hlp; try constructor.
  pose proof (Hc lp _ Hlp) as Hok. cbn in Hok.
  apply Forall_fmap. eapply Forall_impl; [exact Hok|].
  intros [v|] Hv; cbn; [by apply Hv|exact I].
Qed.

Lemma grown_inputs (h hi : heap) (elems : list (option val)) :
  h ⊆ hi -> closed h ->
  Forall (fun e => forall v, e = Some v -> val_ok h v) elems ->
  inputs hi elems = inputs h elems.
Proof.
  intros Hsub Hc Hok. induction Hok as [|e elems Hv _ IH]; [done|].
  destruct e as [issue|]; [|exact IH].
  unfold inputs in *. rewrite !bind_cons, IH. f_equal.
  rewrite (grown_issue_paths h hi issue Hsub Hc (Hv _ eq_refl)).
  pose proof (closed_issue_paths h issue Hc) as Hall.
  induction Hall as [|p ps Hp _ IHp]; [done|].
  cbn [omap list_omap]. rewrite (grown_path_input h hi p Hsub Hc Hp).
  by rewrite IHp.
Qed.

Lemma stripped_inputs (fields : list string) (S : list loc) (h hi : heap)
    (elems : list (option val)) :
  stripped fields S h hi -> "input" ∉ fields -> "path" ∉ fields ->
  inputs hi elems = inputs h elems.
Proof.
  intros Hst Hin Hpath.
  induction elems as [|[issue|] elems IH]; [done| |exact IH].
  unfold inputs in *. rewrite !bind_cons, IH. f_equal.
  rewrite (stripped_issue_paths fields S h hi Hst issue Hpath).
  induction (issue_paths h issue) as [|p ps IHp]; [done|].
  cbn [omap list_omap].
  rewrite (stripped_path_input fields S h hi Hst p Hin). by rewrite IHp.
Qed.

Lemma stripped_val_ok (fields : list string) (S : list loc) (h hi : heap)
    (v : val) :
  stripped fields S h hi -> val_ok h v -> val_ok hi v.
Proof.
  intros Hst. destruct v; try done. cbn. rewrite (Hst l).
  intros [o ->]. cbn. eauto.
Qed.

Lemma stripped_proto_ok (fields : list string) (S : list loc) (h hi : heap)
    (pr : prototype) :
  stripped fields S h hi -> proto_ok h pr -> proto_ok hi pr.
Proof.
  intros Hst. induction pr as [|id members parent IH]; [done|].
  intros [Hm Hp]. split; [|by apply IH].
  intros k v Hk. eapply stripped_val_ok; [exact Hst|]. by eapply Hm.
Qed.

Lemma stripped_closed (fields : list string) (S : list loc) (h hi : heap) :
  stripped fields S h hi -> closed h -> closed hi.
Proof.
  intros Hst Hc x o Hx. rewrite (Hst x) in Hx.
  destruct (h !! x) as [o0|] eqn:Hx0; [|discriminate]. cbn in Hx.
  injection Hx as <-. pose proof (Hc x o0 Hx0) as Hok.
  assert (Hsame : object_ok hi o0).
  { destruct o0 as [proto c props|elems]; cbn in *.
    - destruct Hok as [Hpr Hprops]. split.
      + by eapply stripped_proto_ok.
      + intros k v Hk. eapply stripped_val_ok; [exact Hst|]. by eapply Hprops.
    - eapply Forall_impl; [exact Hok|]. intros e He v ->.
      eapply stripped_val_ok; [exact Hst|]. by apply He. }
  destruct (bool_decide (x ∈ S)); [|exact Hsame].
  destruct o0 as [proto c props|elems]; [|exact Hsame]. cbn in *.
  destruct Hsame as [Hpr Hprops]. split; [done|].
  intros k v Hk. rewrite delete_all_lookup in Hk.
  destruct (bool_decide (k ∈ fields)); [discriminate|]. by eapply Hprops.
Qed.

(** X18.  For the vendor "valibot", sanitizing what has been sanitized
    changes no object: the second call returns one more array with the
    same issues, and every object of the heap is as the first call left
    it. *)
Theorem X18_valibot_sanitizing_twice_changes_nothing_more
    (h : heap) (l : loc) (elems : list (option val)) (t : target)
    (fields : list string) :
  closed h -> h !! l = Some (Arr elems) -> IssueArray h (Ref l) ->
  restricted t = Some fields ->
  exists l1 h1 l2 h2,
    sanitizeIssues (Ref l) "valibot" t h = (Returns (Ref l1), h1)
    /\ sanitizeIssues (Ref l1) "valibot" t h1 = (Returns (Ref l2), h2)
    /\ h1 !! l1 = Some (Arr elems) /\ h2 !! l2 = Some (Arr elems)
    /\ forall x, x <> l2 -> h2 !! x = h1 !! x.
Proof.
  intros Hc Hl (l0 & elems0 & [= <-] & Hl0 & Hty) Ht.
  rewrite Hl in Hl0. injection Hl0 as <-.
  destruct (restricted_header t fields Ht) as [-> ->].
  unfold sanitizeIssues. rewrite Ht.
  rewrite bool_decide_eq_false_2 by discriminate.
  rewrite bool_decide_eq_true_2 by done.
  destruct cookie_only as [Hin Hpath].
  destruct (valibot_array ["cookie"] h l elems Hin Hpath Hl
              (typed_array_paths h elems Hty))
    as (l1 & h1 & Hrun1 & Hf1 & Hl1 & Hrest1).
  (* the heap of the first call, without the array it has returned *)
  assert (Hst : stripped ["cookie"] (inputs h elems) h (delete l1 h1)).
  { intros x. destruct (decide (x = l1)) as [->|Hx].
    - by rewrite lookup_delete_eq, Hf1.
    - rewrite lookup_delete_ne by done. by apply Hrest1. }
  assert (Hsub : delete l1 h1 ⊆ h1) by apply delete_subseteq.
  pose proof (stripped_closed _ _ _ _ Hst Hc) as Hci.
  assert (Hok : Forall (fun e => forall v, e = Some v -> val_ok (delete l1 h1) v)
                  elems).
  { eapply Forall_impl; [exact (closed_elems h l elems Hc Hl)|].
    intros e He v Hv. eapply stripped_val_ok; [exact Hst|]. by apply He. }
  assert (Hinputs : inputs h1 elems = inputs h elems).
  { rewrite (grown_inputs _ h1 elems Hsub Hci Hok).
    by apply (stripped_inputs ["cookie"] (inputs h elems)). }
  destruct (valibot_array ["cookie"] h1 l1 elems Hin Hpath Hl1)
    as (l2 & h2 & Hrun2 & _ & Hl2 & Hrest2).
  { pose proof (typed_array_paths h elems Hty) as Hall.
    rewrite Forall_forall in *. intros e He issue ->.
    rewrite (grown_issue_paths _ h1 issue Hsub Hci (Hok _ He _ eq_refl)).
    rewrite (stripped_issue_paths _ _ _ _ Hst issue Hpath).
    by apply (Hall _ He). }
  exists l1, h1, l2, h2. repeat split; try done.
  intros x Hx. rewrite (Hrest2 x Hx), Hinputs.
  destruct (decide (x = l1)) as [->|Hne].
  - rewrite Hl1. cbn. by destruct (bool_decide _).
  - rewrite (Hrest1 x Hne). destruct (h !! x) as [o|]; [|done]. cbn.
    destruct (bool_decide (x ∈ inputs h elems)); [|done].
    by rewrite strip_idem.
Qed.

Lemma X18_witness :
  closed valibot_heap
  /\ valibot_heap !! 1%positive = Some (Arr [Some (Ref 2%positive)])
  /\ IssueArray valibot_heap (Ref 1%positive)
  /\ restricted header = Some ["cookie"]
  /\ exists l1 h1 l2 h2,
       sanitizeIssues (Ref 1%positive) "valibot" header valibot_heap
       = (Returns (Ref l1), h1)
       /\ sanitizeIssues (Ref l1) "valibot" header h1 = (Returns (Ref l2), h2)
       /\ h1 !! l1 = Some (Arr [Some (Ref 2%positive)])
       /\ h2 !! l2 = Some (Arr [Some (Ref 2%positive)])
       /\ forall x, x <> l2 -> h2 !! x = h1 !! x.
Proof.
  assert (H2 : valibot_heap !! 1%positive = Some (Arr [Some (Ref 2%positive)]))
    by reflexivity.
  assert (H4 : restricted header = Some ["cookie"]) by reflexivity.
  refine (conj closed_valibot_heap (conj H2 (conj typed_valibot_heap
            (conj H4 _)))).
  exact (X18_valibot_sanitizing_twice_changes_nothing_more valibot_heap
           1%positive [Some (Ref 2%positive)] header ["cookie"]
           closed_valibot_heap H2 typed_valibot_heap H4).
Defined.

(** ** Every vendor and target *)






(** * Properties of the session object *)

Import Session.

Lemma append_length (a b : string) :
  String.length (a +:+ b) = (String.length a + String.length b)%nat.
Proof.
  induction a as [|c a IH]; [done|].
  change (S (String.length (a +:+ b))
          = S (String.length a + String.length b)).
  by rewrite IH.
Qed.

Lemma append_inj_r (a b c : string) : a +:+ c = b +:+ c -> a = b.
Proof.
  revert b. induction a as [|x a IH]; intros [|y b] H.
  - done.
  - exfalso. apply (f_equal String.length) in H.
    rewrite !append_length in H. cbn in H. lia.
  - exfalso. apply (f_equal String.length) in H.
    rewrite !append_length in H. cbn in H. lia.
  - injection H as -> H. f_equal. by apply IH.
Qed.

Lemma flash_inj (a b : string) : flash a = flash b -> a = b.
Proof.
  unfold flash. intros H.
  assert (H' : a +:+ "__" = b +:+ "__").
  { revert H. generalize (a +:+ "__") (b +:+ "__"). intros x y H.
    by repeat (injection H as H). }
  by apply append_inj_r in H'.
Qed.

Lemma flash_ne (key : string) : flash key <> key.
Proof.
  intros H. apply (f_equal String.length) in H. unfold flash in H.
  rewrite !append_length in H. cbn in H. lia.
Qed.

(** X19.  A flash value is read once.  After [flash(key, value)] on a
    session that has no value under [key], [has(key)] holds and [get(key)]
    returns the value and removes it: the store is as it was before the
    flash value was set, a second [get(key)] returns undefined and
    [has(key)] no longer holds. *)
Theorem X19_flash_value_is_read_once
    (key : string) (value : val) (s : store) :
  s !! key = None -> s !! flash key = None ->
  has key (set_flash key value s) = true
  /\ get key (set_flash key value s) = (value, s)
  /\ get key s = (Undefined, s)
  /\ has key s = false.
Proof.
  intros Hkey Hflash. unfold has, get, set_flash.
  rewrite lookup_insert_ne by apply flash_ne.
  rewrite lookup_insert_eq, Hkey, Hflash.
  rewrite delete_insert_id by done.
  rewrite (bool_decide_eq_true_2 (is_Some (Some value))) by eauto.
  rewrite orb_true_r. repeat split.
Qed.

Lemma X19_witness :
  (∅ : store) !! "notice" = None /\ (∅ : store) !! flash "notice" = None
  /\ get "notice" (set_flash "notice" (Str "saved") ∅) = (Str "saved", ∅)
  /\ get "notice" (∅ : store) = (Undefined, ∅).
Proof.
  assert (H1 : (∅ : store) !! "notice" = None) by apply lookup_empty.
  assert (H2 : (∅ : store) !! flash "notice" = None) by apply lookup_empty.
  pose proof (X19_flash_value_is_read_once "notice" (Str "saved") ∅ H1 H2)
    as (_ & H3 & H4 & _).
  exact (conj H1 (conj H2 (conj H3 H4))).
Defined.

(** X20.  What [set] has stored under a key is what [get] returns, and
    reading it changes nothing; it hides a flash value of the same key,
    which stays in the store unread.  Once the key is unset, [get]
    returns the flash value, and removes it. *)
Theorem X20_value_hides_flash_value
    (key : string) (value shown : val) (s : store) :
  let s1 := set key shown (set_flash key value s) in
  get key s1 = (shown, s1)
  /\ s1 !! flash key = Some value
  /\ get key (unset key s1)
     = (value, delete (flash key) (delete key s)).
Proof.
  cbn zeta. unfold get, set, set_flash, unset.
  rewrite lookup_insert_eq. split; [done|]. split.
  - rewrite lookup_insert_ne by (apply not_eq_sym, flash_ne).
    by rewrite lookup_insert_eq.
  - rewrite lookup_delete_eq.
    rewrite lookup_delete_ne by (apply not_eq_sym, flash_ne).
    rewrite lookup_insert_ne by (apply not_eq_sym, flash_ne).
    rewrite lookup_insert_eq. f_equal.
    rewrite delete_insert_eq.
    rewrite (delete_insert_ne _ key (flash key)) by (apply not_eq_sym, flash_ne).
    by rewrite delete_insert_eq, delete_delete.
Qed.

(** X21.  Reading one key leaves the others alone: [get(key)] changes the
    store at most at [flash(key)], and different keys have different
    flash keys.  So for a key [other] that is neither [key] nor
    [flash(key)], [has(other)] and the value that [get(other)] returns
    are the same before and after [get(key)]. *)
Theorem X21_get_leaves_other_keys_alone (key : string) (s : store) :
  (forall k : string, k <> flash key -> (get key s).2 !! k = s !! k)
  /\ (forall a b : string, flash a = flash b -> a = b)
  /\ (forall other : string,
         other <> key -> other <> flash key ->
         has other (get key s).2 = has other s
         /\ (get other (get key s).2).1 = (get other s).1).
Proof.
  assert (Hframe : forall k, k <> flash key -> (get key s).2 !! k = s !! k).
  { intros k Hk. unfold get.
    destruct (s !! key); [done|].
    destruct (s !! flash key); [|done].
    cbn [snd]. by rewrite lookup_delete_ne. }
  split; [exact Hframe|]. split; [exact flash_inj|].
  intros other Hne Hnf.
  assert (Hff : flash other <> flash key).
  { intros H%flash_inj. done. }
  unfold has. rewrite !Hframe by done. split; [done|].
  unfold get at 1 3. rewrite !Hframe by done.
  destruct (s !! other); [done|]. by destruct (s !! flash other).
Qed.

Lemma X21_witness :
  let s : store := {[ flash "notice" := Str "saved"; "user" := Str "u1" ]} in
  "user" <> "notice" /\ "user" <> flash "notice"
  /\ has "user" (get "notice" s).2 = has "user" s
  /\ (get "user" (get "notice" s).2).1 = (get "user" s).1.
Proof.
  cbn zeta.
  assert (H1 : "user" <> "notice") by discriminate.
  assert (H2 : "user" <> flash "notice") by discriminate.
  refine (conj H1 (conj H2 _)).
  exact (proj2 (proj2 (X21_get_leaves_other_keys_alone "notice"
                         {[ flash "notice" := Str "saved"; "user" := Str "u1" ]}))
           "user" H1 H2).
Defined.

(** * Properties of the CSRF token *)

Import Csrf.

Lemma get_in_range (s : string) :
  forall n, (n < String.length s)%nat ->
            exists c, String.get n s = Some c /\ c ∈ list_ascii_of_string s.
Proof.
  induction s as [|x s IH]; intros n Hn; [cbn in Hn; lia|].
  destruct n as [|n].
  - exists x. split; [done|]. apply list_elem_of_here.
  - destruct (IH n) as (c & Hc & Hin); [cbn in Hn; lia|].
    exists c. split; [done|]. by apply list_elem_of_further.
Qed.

Lemma token_char_in_chars (b : Byte.byte) :
  exists c, token_char b = String c "" /\ c ∈ list_ascii_of_string chars.
Proof.
  unfold token_char, charAt.
  destruct (get_in_range chars (Byte.to_nat b mod String.length chars))
    as (c & -> & Hin); [|by exists c].
  apply Nat.mod_upper_bound. vm_compute. discriminate.
Qed.

(** X22.  Whatever the random bytes, the token has one character for each
    byte, 64 characters for the 64 bytes drawn, and each character is one
    of the 62 letters and digits of [chars]. *)
Theorem X22_token_has_one_alphanumeric_per_byte (bytes : list Byte.byte) :
  String.length (token bytes) = length bytes
  /\ Forall (fun c => c ∈ list_ascii_of_string chars)
       (list_ascii_of_string (token bytes)).
Proof.
  unfold token. induction bytes as [|b bytes [IHlen IHall]]; [by split|].
  cbn [fmap list_fmap foldr].
  destruct (token_char_in_chars b) as (c & -> & Hc).
  change (String c "" +:+ ?t) with (String c t).
  split.
  - change (S (String.length (foldr String.append "" (token_char <$> bytes)))
            = S (length bytes)).
    by rewrite IHlen.
  - cbn [list_ascii_of_string]. by constructor.
Qed.

(** X23.  The characters are not equally likely.  The 256 values of a byte
    are spread over 62 characters by the remainder: each of the first
    eight, A to H, is given by five byte values, each of the other 54 by
    four. *)
Theorem X23_token_characters_are_not_equally_likely :
  length all_bytes = 256%nat
  /\ Forall (fun c => byte_values_for c = 5%nat)
       (list_ascii_of_string "ABCDEFGH")
  /\ Forall (fun c => byte_values_for c = 4%nat)
       (list_ascii_of_string
          "IJKLMNOPQRSTUVWXYZabcdefghijklmnopqrstuvwxyz0123456789").
Proof.
  split; [vm_compute; reflexivity|].
  split; repeat (apply Forall_cons; split; [vm_compute; reflexivity|]);
    apply Forall_nil_2.
Qed.

(** * Properties of the validator middleware *)

(** X24.  The handler does not answer a key conflict, it throws it.  When
    two paths of the submitted object conflict (no path a prefix of
    another), the handler ends with the key-conflict error of the
    decoder, whatever the schema and the hook, which are not called: the
    heap is as it was, and no response with status 400 is made. *)
Theorem X24_key_conflict_is_thrown_by_the_handler
    (flatObject : list (string * Decoder.value)) :
  Forall (fun e => regular (tokenize e.1) = true) flatObject ->
  pairwise (fun e1 e2 => separate (tokenize e1.1) (tokenize e2.1) = true)
    flatObject ->
  has_conflict flatObject ->
  exists message,
    forall (Out : Type) (t : target) (vendor : string)
           (validate : val -> M (Validator.result Out))
           (hook : option (Validator.hook_argument -> M val)) (h : heap),
      Validator.handler Out t vendor validate hook flatObject h
      = (Throws (Error message), h).
Proof.
  intros Hreg Hsep Hc.
  destruct (build_doomed flatObject (Decoder.VObject ∅) Hreg Hsep)
    as (key & v & k & e & n & _ & _ & Hrun).
  { apply Forall_forall. intros e _. left. apply fits_root. }
  { by right. }
  eexists. intros Out t vendor validate hook h.
  unfold Validator.handler, flattenToNestedObject. by rewrite Hrun.
Qed.

Lemma X24_witness :
  let m := [("user.name", Decoder.VString "Alice");
            ("user[0]", Decoder.VString "first")] in
  Forall (fun e => regular (tokenize e.1) = true) m
  /\ pairwise (fun e1 e2 => separate (tokenize e1.1) (tokenize e2.1) = true) m
  /\ has_conflict m
  /\ exists message,
       forall (Out : Type) (t : target) (vendor : string)
              (validate : val -> M (Validator.result Out))
              (hook : option (Validator.hook_argument -> M val)) (h : heap),
         Validator.handler Out t vendor validate hook m h
         = (Throws (Error message), h).
Proof.
  cbn zeta.
  assert (Hr : Forall (fun e => regular (tokenize e.1) = true)
    [("user.name", Decoder.VString "Alice");
     ("user[0]", Decoder.VString "first")]).
  { repeat (apply Forall_cons; split; [vm_compute; reflexivity|]).
    apply Forall_nil_2. }
  assert (Hs : pairwise
    (fun e1 e2 => separate (tokenize e1.1) (tokenize e2.1) = true)
    [("user.name", Decoder.VString "Alice");
     ("user[0]", Decoder.VString "first")]).
  { cbn [pairwise].
    repeat (split;
            [repeat (apply Forall_cons; split; [vm_compute; reflexivity|]);
             apply Forall_nil_2|]).
    exact I. }
  assert (Hc : has_conflict
    [("user.name", Decoder.VString "Alice");
     ("user[0]", Decoder.VString "first")]).
  { unfold has_conflict. cbn [some_pair]. left.
    apply Exists_cons_hd. vm_compute. reflexivity. }
  refine (conj Hr (conj Hs (conj Hc _))).
  exact (X24_key_conflict_is_thrown_by_the_handler _ Hr Hs Hc).
Defined.

(** ** The payload of the answer *)

Lemma mbind_returns {A B : Type} (c : M A) (f : A -> M B) (h h' : heap)
    (a : A) :
  c h = (Returns a, h') -> mbind c f h = f a h'.
Proof. unfold mbind. by intros ->. Qed.

Lemma reify_returns (tree : Decoder.value) :
  forall h, exists payload h', Validator.reify tree h = (Returns payload, h').
Proof.
  induction tree as [v Hv|props IH|elems named IH _] using value_children_ind;
    intros h.
  - destruct v; try discriminate; by eexists _, _.
  - cbn [Validator.reify].
    assert (Hfold : forall h, exists m h',
      map_fold (fun k c (acc : M (gmap string val)) =>
                  do m <- acc ; do r <- Validator.reify c ; ret (<[k := r]> m))
        (ret ∅) props h = (Returns m, h')).
    { revert IH.
      apply (map_fold_weak_ind
        (fun (r : M (gmap string val)) (m : gmap string Decoder.value) =>
           map_Forall (fun _ c => forall h, exists payload h',
                         Validator.reify c h = (Returns payload, h')) m ->
           forall h, exists m' h', r h = (Returns m', h'))).
      - intros _ h0. by exists ∅, h0.
      - intros k c m r Hk IHr Hall h0.
        destruct (IHr ltac:(intros k' c' Hk'; apply (Hall k' c');
                            rewrite lookup_insert_ne; [done|congruence]) h0)
          as (m' & h1 & Hr).
        destruct (Hall k c (lookup_insert_eq _ _ _) h1) as (x & h2 & Hx).
        exists (<[k := x]> m'), h2.
        rewrite (mbind_returns _ _ _ _ _ Hr).
        by rewrite (mbind_returns _ _ _ _ _ Hx). }
    destruct (Hfold h) as (m & h1 & Hm).
    rewrite (mbind_returns _ _ _ _ _ Hm). by eexists _, _.
  - cbn [Validator.reify].
    assert (Heach : forall h, exists es' h',
      (fix each (es : list (option Decoder.value)) : M (list (option val)) :=
         match es with
         | [] => ret []
         | None :: es' => do r <- each es' ; ret (None :: r)
         | Some c :: es' =>
             do x <- Validator.reify c ; do r <- each es' ; ret (Some x :: r)
         end) elems h = (Returns es', h')).
    { clear h. induction elems as [|[c|] elems IHe]; intros h.
      - by exists [], h.
      - destruct (IH c ltac:(apply list_elem_of_here) h) as (x & h1 & Hx).
        destruct (IHe ltac:(intros c' Hc'; apply IH;
                            by apply list_elem_of_further) h1)
          as (es' & h2 & Hes).
        exists (Some x :: es'), h2.
        rewrite (mbind_returns _ _ _ _ _ Hx).
        by rewrite (mbind_returns _ _ _ _ _ Hes).
      - destruct (IHe ltac:(intros c' Hc'; apply IH;
                            by apply list_elem_of_further) h)
          as (es' & h2 & Hes).
        exists (None :: es'), h2.
        by rewrite (mbind_returns _ _ _ _ _ Hes). }
    destruct (Heach h) as (es' & h1 & Hes).
    rewrite (mbind_returns _ _ _ _ _ Hes). by eexists _, _.
Qed.

Lemma closed_rejected_heap : closed Validator.rejected_heap.
Proof.
  intros l o Hl. unfold Validator.rejected_heap, Validator.payload_heap in Hl.
  concrete_lookup Hl.
  - repeat constructor. intros v [= <-]. vm_compute. eauto.
  - split; [repeat split; apply map_Forall_empty|].
    intros p v Hp. concrete_lookup Hp; [exact I | vm_compute; eauto].
  - repeat constructor. intros v [= <-]. vm_compute. eauto.
  - split; [repeat split; apply map_Forall_empty|].
    intros p v Hp. concrete_lookup Hp. vm_compute. eauto.
  - split; [repeat split; apply map_Forall_empty|].
    intros p v Hp. concrete_lookup Hp; exact I.
Qed.

(** X25.  When the schema reports issues and there is no hook, the handler
    answers with status 400 and [success: false].  The [data] of the body
    is the payload itself, the object that [validate] was given, not a
    copy; the [error] is what [sanitizeIssues] returns, an array with as
    many issues as the schema has reported.  For every target but "header"
    it is the very array of the schema, and the heap is as the schema left
    it; for a vendor other than "valibot" no object of that heap is
    changed; for the vendor "valibot" and the target "header" the objects
    that are the input of a path entry lose their cookie, the payload among
    them when an issue holds it: of { cookie, authorization }, rejected by
    a schema whose issue has the payload as input, the answer's data holds
    the authorization only, while for the target "json" it holds both. *)
Theorem X25_failed_validation_is_answered_with_400 :
  (forall (tree : Decoder.value) (h : heap),
      exists payload h0, Validator.reify tree h = (Returns payload, h0))
  /\ (forall (Out : Type) (t : target) (vendor : string)
             (validate : val -> M (Validator.result Out))
             (flatObject : list (string * Decoder.value))
             (tree : Decoder.value) (payload : val)
             (r : Validator.result Out) (h h0 h1 : heap)
             (l : loc) (elems : list (option val)),
         flattenToNestedObject flatObject = Returns tree ->
         Validator.reify tree h = (Returns payload, h0) ->
         validate payload h0 = (Returns r, h1) ->
         closed h1 -> Validator.issues r = Ref l ->
         h1 !! l = Some (Arr elems) ->
         Forall (fun e => forall issue, e = Some issue ->
                            Forall (fun p => p <> Null) (issue_paths h1 issue))
           elems ->
         exists l' elems' h2,
           Validator.handler Out t vendor validate None flatObject h
           = (Returns (Validator.Json payload (Ref l') false 400), h2)
           /\ h2 !! l' = Some (Arr elems')
           /\ length elems' = length elems
           /\ (t <> header -> l' = l /\ h2 = h1)
           /\ (vendor <> "valibot" -> h1 ⊆ h2)
           /\ (vendor = "valibot" -> t = header ->
               forall x, x <> l' ->
                 h2 !! x = (fun o => if bool_decide (x ∈ inputs h1 elems)
                                     then strip ["cookie"] o else o)
                             <$> h1 !! x))
  /\ (let m := [("cookie", Decoder.VString "secret");
                ("authorization", Decoder.VString "token")] in
      (exists lp le h2,
          Validator.handler unit header "valibot" Validator.rejecting_schema
            None m ∅
          = (Returns (Validator.Json (Ref lp) (Ref le) false 400), h2)
          /\ h2 !! lp
             = Some (Obj Object_prototype false
                       {[ "authorization" := Str "token" ]}))
      /\ (exists lp le h2,
             Validator.handler unit json "valibot" Validator.rejecting_schema
               None m ∅
             = (Returns (Validator.Json (Ref lp) (Ref le) false 400), h2)
             /\ h2 !! lp
                = Some (Obj Object_prototype false
                          {[ "cookie" := Str "secret";
                             "authorization" := Str "token" ]}))).
Proof.
  split; [exact reify_returns|]. split.
  - intros Out t vendor validate flatObject tree payload r h h0 h1 l elems
      Hdec Hpay Hval Hc Hi Hl Hpaths.
    destruct (sanitize_array h1 l elems vendor t Hc Hl (fun _ _ => Hpaths))
      as (l' & elems' & h2 & Hrun & Hl' & Hlen & _ & Hid & Hsub & Hst).
    exists l', elems', h2. split; [|done].
    unfold Validator.handler. rewrite Hdec.
    unfold mbind at 1. rewrite Hpay. unfold mbind at 1. rewrite Hval.
    unfold Validator.run_hook, mbind, ret. rewrite Hi in *. cbn [truthy].
    by rewrite Hrun.
  - cbn zeta. split.
    + exists 1%positive, 6%positive. eexists. split; vm_compute; reflexivity.
    + exists 1%positive, 5%positive. eexists. split; vm_compute; reflexivity.
Qed.

Lemma X25_witness :
  let m := [("cookie", Decoder.VString "secret");
            ("authorization", Decoder.VString "token")] in
  let tree := Decoder.VObject {[ "cookie" := Decoder.VString "secret";
                                 "authorization" := Decoder.VString "token" ]} in
  let r := {| Validator.issues := Ref 5%positive; Validator.value := tt |} in
  let elems := [Some (Ref 4%positive)] in
  flattenToNestedObject m = Returns tree
  /\ Validator.reify tree ∅ = (Returns (Ref 1%positive), Validator.payload_heap)
  /\ Validator.rejecting_schema (Ref 1%positive) Validator.payload_heap
     = (Returns r, Validator.rejected_heap)
  /\ closed Validator.rejected_heap
  /\ Validator.issues r = Ref 5%positive
  /\ Validator.rejected_heap !! 5%positive = Some (Arr elems)
  /\ Forall (fun e => forall issue, e = Some issue ->
                        Forall (fun p => p <> Null)
                          (issue_paths Validator.rejected_heap issue)) elems
  /\ exists l' elems' h2,
       Validator.handler unit header "valibot" Validator.rejecting_schema
         None m ∅
       = (Returns (Validator.Json (Ref 1%positive) (Ref l') false 400), h2)
       /\ h2 !! l' = Some (Arr elems')
       /\ length elems' = length elems
       /\ (header <> header -> l' = 5%positive /\ h2 = Validator.rejected_heap)
       /\ (("valibot" : string) <> "valibot" -> Validator.rejected_heap ⊆ h2)
       /\ (("valibot" : string) = "valibot" -> header = header ->
           forall x, x <> l' ->
             h2 !! x = (fun o => if bool_decide
                                      (x ∈ inputs Validator.rejected_heap elems)
                                 then strip ["cookie"] o else o)
                         <$> Validator.rejected_heap !! x).
Proof.
  cbn zeta.
  assert (H1 : flattenToNestedObject
                 [("cookie", Decoder.VString "secret");
                  ("authorization", Decoder.VString "token")]
               = Returns (Decoder.VObject
                            {[ "cookie" := Decoder.VString "secret";
                               "authorization" := Decoder.VString "token" ]}))
    by (vm_compute; reflexivity).
  assert (H2 : Validator.reify
                 (Decoder.VObject
                    {[ "cookie" := Decoder.VString "secret";
                       "authorization" := Decoder.VString "token" ]}) ∅
               = (Returns (Ref 1%positive), Validator.payload_heap))
    by (vm_compute; reflexivity).
  assert (H3 : Validator.rejecting_schema (Ref 1%positive) Validator.payload_heap
               = (Returns {| Validator.issues := Ref 5%positive;
                             Validator.value := tt |},
                  Validator.rejected_heap))
    by (vm_compute; reflexivity).
  assert (H5 : Validator.rejected_heap !! 5%positive
               = Some (Arr [Some (Ref 4%positive)])) by reflexivity.
  assert (H6 : Forall (fun e => forall issue, e = Some issue ->
                         Forall (fun p => p <> Null)
                           (issue_paths Validator.rejected_heap issue))
                 [Some (Ref 4%positive)]).
  { apply Forall_cons. split; [|apply Forall_nil_2].
    intros issue [= <-]. vm_compute. repeat constructor. discriminate. }
  refine (conj H1 (conj H2 (conj H3 (conj closed_rejected_heap
            (conj eq_refl (conj H5 (conj H6 _))))))).
  exact (proj1 (proj2 X25_failed_validation_is_answered_with_400)
           unit header "valibot" Validator.rejecting_schema _ _ _ _ _ _ _ _ _
           H1 H2 H3 closed_rejected_heap eq_refl H5 H6).
Defined.
